(** * zkChat relay: a shallow embedding of [server.js]

    The relay keeps all of its state in process-wide [Map]s and [Set]s
    and every handler runs to completion on the single event loop.  The
    embedding therefore threads an explicit [Server] record through
    handler functions; [Date.now()], the client IP computed by
    [getClientIp], the identifier drawn by [randomBytes] and the already
    received request body are inputs of the handlers, and the date
    parser, [JSON.parse] and the UTF-8 decoder of the host come in a
    [Host] record.

    Identifiers, fingerprints, key bundles and ciphertexts are modelled
    as strings (the JSON values the clients of this relay send); a field
    that is absent from the request body is [None], and JavaScript
    truthiness of a string field is "present and non-empty". *)

From Stdlib Require Import ZArith.
From stdpp Require Import gmap strings list fin_maps.

Set Warnings "-register-all".

Local Open Scope Z_scope.

(** ** JavaScript values used by the handlers *)

(** A JavaScript number that may be [NaN] (the result of
    [new Date(x).getTime()]). *)
Inductive jsnum :=
| Num (z : Z)
| NaN.

(** [a > b] where [a] is a finite number: any comparison with [NaN] is false. *)
Definition js_gt (a : Z) (b : jsnum) : bool :=
  match b with
  | Num z => bool_decide (z < a)
  | NaN => false
  end.

(** Truthiness of an optional string field: [undefined] and the empty
    string are falsy. *)
Definition truthy (f : option string) : bool :=
  match f with
  | Some s => negb (String.eqb s EmptyString)
  | None => false
  end.

(** [x || d] on an optional string field. *)
Definition or_default (f : option string) (d : string) : string :=
  match f with
  | Some s => if String.eqb s EmptyString then d else s
  | None => d
  end.

(** ** 5. Rate limiters *)

Module RateLimit.

Definition RATE_WINDOW_MS : Z := 60 * 1000.
Definition MAX_POST_OTM_PER_WINDOW : Z := 30.
Definition MAX_GET_OTM_PER_WINDOW : Z := 60.

Record otm_bucket := OtmBucket {
  windowStart : Z;
  postCount : Z;
  getCount : Z
}.

(** [checkRateLimit(req, type)], with [ip = getClientIp(req)] and
    [now = Date.now()].  The bucket object is shared with the map, so the
    increments are visible in [rateBuckets] whatever the result is. *)
Definition checkRateLimit (now : Z) (ip type : string)
    (rateBuckets : gmap string otm_bucket) : bool * gmap string otm_bucket :=
  let bucket :=
    match rateBuckets !! ip with
    | Some b =>
        if bool_decide (RATE_WINDOW_MS < now - windowStart b)
        then OtmBucket now 0 0 else b
    | None => OtmBucket now 0 0
    end in
  let b1 :=
    if bool_decide (type = "post-otm")
    then OtmBucket (windowStart bucket) (postCount bucket + 1) (getCount bucket)
    else bucket in
  if bool_decide (type = "post-otm") && bool_decide (MAX_POST_OTM_PER_WINDOW < postCount b1)
  then (false, <[ip := b1]> rateBuckets)
  else
    let b2 :=
      if bool_decide (type = "get-otm")
      then OtmBucket (windowStart b1) (postCount b1) (getCount b1 + 1)
      else b1 in
    if bool_decide (type = "get-otm") && bool_decide (MAX_GET_OTM_PER_WINDOW < getCount b2)
    then (false, <[ip := b2]> rateBuckets)
    else (true, <[ip := b2]> rateBuckets).

Definition FILE_RATE_WINDOW_MS : Z := 60 * 1000.
Definition MAX_POST_FILE_PER_WINDOW : Z := 10.
Definition MAX_GET_FILE_PER_WINDOW : Z := 30.

Record file_bucket := FileBucket {
  fWindowStart : Z;
  uploadCount : Z;
  downloadCount : Z
}.

Definition checkFileRateLimit (now : Z) (ip type : string)
    (fileRateBuckets : gmap string file_bucket) : bool * gmap string file_bucket :=
  let bucket :=
    match fileRateBuckets !! ip with
    | Some b =>
        if bool_decide (FILE_RATE_WINDOW_MS < now - fWindowStart b)
        then FileBucket now 0 0 else b
    | None => FileBucket now 0 0
    end in
  let b1 :=
    if bool_decide (type = "upload")
    then FileBucket (fWindowStart bucket) (uploadCount bucket + 1) (downloadCount bucket)
    else bucket in
  if bool_decide (type = "upload") && bool_decide (MAX_POST_FILE_PER_WINDOW < uploadCount b1)
  then (false, <[ip := b1]> fileRateBuckets)
  else
    let b2 :=
      if bool_decide (type = "download")
      then FileBucket (fWindowStart b1) (uploadCount b1) (downloadCount b1 + 1)
      else b1 in
    if bool_decide (type = "download") && bool_decide (MAX_GET_FILE_PER_WINDOW < downloadCount b2)
    then (false, <[ip := b2]> fileRateBuckets)
    else (true, <[ip := b2]> fileRateBuckets).

Definition CHAT_RATE_WINDOW_MS : Z := 60 * 1000.
Definition MAX_CHAT_INVITE_PER_WINDOW : Z := 10.
Definition MAX_CHAT_MESSAGE_PER_WINDOW : Z := 60.

Record chat_bucket := ChatBucket {
  cWindowStart : Z;
  inviteCount : Z;
  messageCount : Z
}.

Definition checkChatRateLimit (now : Z) (ip type : string)
    (chatRateBuckets : gmap string chat_bucket) : bool * gmap string chat_bucket :=
  let bucket :=
    match chatRateBuckets !! ip with
    | Some b =>
        if bool_decide (CHAT_RATE_WINDOW_MS < now - cWindowStart b)
        then ChatBucket now 0 0 else b
    | None => ChatBucket now 0 0
    end in
  let b1 :=
    if bool_decide (type = "invite")
    then ChatBucket (cWindowStart bucket) (inviteCount bucket + 1) (messageCount bucket)
    else bucket in
  if bool_decide (type = "invite") && bool_decide (MAX_CHAT_INVITE_PER_WINDOW < inviteCount b1)
  then (false, <[ip := b1]> chatRateBuckets)
  else
    let b2 :=
      if bool_decide (type = "message")
      then ChatBucket (cWindowStart b1) (inviteCount b1) (messageCount b1 + 1)
      else b1 in
    if bool_decide (type = "message") && bool_decide (MAX_CHAT_MESSAGE_PER_WINDOW < messageCount b2)
    then (false, <[ip := b2]> chatRateBuckets)
    else (true, <[ip := b2]> chatRateBuckets).

End RateLimit.

(** ** Data model: store entries, sockets and rooms *)

(** [otmStore] values: [{ ciphertext, createdAt }]. *)
Record OtmEntry := mkOtmEntry {
  otm_ciphertext : string;
  otm_createdAt : Z
}.

(** [fileStore] values: [{ ciphertext, createdAt }] with a [Buffer] payload. *)
Record FileEntry := mkFileEntry {
  file_ciphertext : list Byte.byte;
  file_createdAt : Z
}.

(** [chatInviteStore] values; [claimerBundle] is [null] until the claim. *)
Record InviteEntry := mkInviteEntry {
  publicKeyBundle : string;
  expiresAt : jsnum;
  createdAt : Z;
  claimed : bool;
  claimerBundle : option string
}.

(** Elements of a mailbox: [{ id, from, payload, timestamp }]. *)
Record Message := mkMessage {
  m_id : string;
  m_from : string;
  m_payload : string;
  m_timestamp : Z
}.

(** WebSocket handles. *)
Abbreviation ws := nat (only parsing).

(** The listeners the connection handler installed on a socket; the
    closures capture [roomId] or [chatFingerprint]. *)
Inductive SocketKind :=
| RoomSocket (roomId : string)
| ChatSocket (chatFingerprint : string)
| NoHandlers.

(** [readyState]: 0 CONNECTING, 1 OPEN, 2 CLOSING, 3 CLOSED. *)
Record Socket := mkSocket {
  readyState : Z;
  kind : SocketKind
}.

(** [rooms] values: [{ clients: Set, timer }].  The [Set] is iterated in
    insertion order, so it is a duplicate-free list. *)
Record Room := mkRoom {
  clients : list nat;
  timer : option nat
}.

(** The process-wide state.  [sockets] holds the sockets the server has
    accepted, [timers] the pending [setTimeout] callbacks (handle to room
    id) and [timerSeq] the next timer handle. *)
Record Server := mkServer {
  otmStore : gmap string OtmEntry;
  fileStore : gmap string FileEntry;
  chatInviteStore : gmap string InviteEntry;
  chatMessageStore : gmap string (list Message);
  chatConnections : gmap string ws;
  rateBuckets : gmap string RateLimit.otm_bucket;
  fileRateBuckets : gmap string RateLimit.file_bucket;
  chatRateBuckets : gmap string RateLimit.chat_bucket;
  rooms : gmap string Room;
  burnedRooms : gset string;
  sockets : gmap ws Socket;
  timers : gmap nat string;
  timerSeq : nat;
  dbPool : option (gmap string Z)
}.

Definition set_otmStore (v : gmap string OtmEntry) (s : Server) : Server :=
  mkServer
    v (fileStore s) (chatInviteStore s) (chatMessageStore s)
    (chatConnections s) (rateBuckets s) (fileRateBuckets s)
    (chatRateBuckets s) (rooms s) (burnedRooms s) (sockets s) (timers s)
    (timerSeq s) (dbPool s).

Definition set_fileStore (v : gmap string FileEntry) (s : Server) : Server :=
  mkServer
    (otmStore s) v (chatInviteStore s) (chatMessageStore s)
    (chatConnections s) (rateBuckets s) (fileRateBuckets s)
    (chatRateBuckets s) (rooms s) (burnedRooms s) (sockets s) (timers s)
    (timerSeq s) (dbPool s).

Definition set_chatInviteStore (v : gmap string InviteEntry) (s : Server) : Server :=
  mkServer
    (otmStore s) (fileStore s) v (chatMessageStore s) (chatConnections s)
    (rateBuckets s) (fileRateBuckets s) (chatRateBuckets s) (rooms s)
    (burnedRooms s) (sockets s) (timers s) (timerSeq s) (dbPool s).

Definition set_chatMessageStore (v : gmap string (list Message)) (s : Server) : Server :=
  mkServer
    (otmStore s) (fileStore s) (chatInviteStore s) v (chatConnections s)
    (rateBuckets s) (fileRateBuckets s) (chatRateBuckets s) (rooms s)
    (burnedRooms s) (sockets s) (timers s) (timerSeq s) (dbPool s).

Definition set_chatConnections (v : gmap string ws) (s : Server) : Server :=
  mkServer
    (otmStore s) (fileStore s) (chatInviteStore s) (chatMessageStore s) v
    (rateBuckets s) (fileRateBuckets s) (chatRateBuckets s) (rooms s)
    (burnedRooms s) (sockets s) (timers s) (timerSeq s) (dbPool s).

Definition set_rateBuckets (v : gmap string RateLimit.otm_bucket) (s : Server) : Server :=
  mkServer
    (otmStore s) (fileStore s) (chatInviteStore s) (chatMessageStore s)
    (chatConnections s) v (fileRateBuckets s) (chatRateBuckets s) (rooms s)
    (burnedRooms s) (sockets s) (timers s) (timerSeq s) (dbPool s).

Definition set_fileRateBuckets (v : gmap string RateLimit.file_bucket) (s : Server) : Server :=
  mkServer
    (otmStore s) (fileStore s) (chatInviteStore s) (chatMessageStore s)
    (chatConnections s) (rateBuckets s) v (chatRateBuckets s) (rooms s)
    (burnedRooms s) (sockets s) (timers s) (timerSeq s) (dbPool s).

Definition set_chatRateBuckets (v : gmap string RateLimit.chat_bucket) (s : Server) : Server :=
  mkServer
    (otmStore s) (fileStore s) (chatInviteStore s) (chatMessageStore s)
    (chatConnections s) (rateBuckets s) (fileRateBuckets s) v (rooms s)
    (burnedRooms s) (sockets s) (timers s) (timerSeq s) (dbPool s).

Definition set_rooms (v : gmap string Room) (s : Server) : Server :=
  mkServer
    (otmStore s) (fileStore s) (chatInviteStore s) (chatMessageStore s)
    (chatConnections s) (rateBuckets s) (fileRateBuckets s)
    (chatRateBuckets s) v (burnedRooms s) (sockets s) (timers s) (timerSeq s)
    (dbPool s).

Definition set_burnedRooms (v : gset string) (s : Server) : Server :=
  mkServer
    (otmStore s) (fileStore s) (chatInviteStore s) (chatMessageStore s)
    (chatConnections s) (rateBuckets s) (fileRateBuckets s)
    (chatRateBuckets s) (rooms s) v (sockets s) (timers s) (timerSeq s)
    (dbPool s).

Definition set_sockets (v : gmap ws Socket) (s : Server) : Server :=
  mkServer
    (otmStore s) (fileStore s) (chatInviteStore s) (chatMessageStore s)
    (chatConnections s) (rateBuckets s) (fileRateBuckets s)
    (chatRateBuckets s) (rooms s) (burnedRooms s) v (timers s) (timerSeq s)
    (dbPool s).

Definition set_timers (v : gmap nat string) (s : Server) : Server :=
  mkServer
    (otmStore s) (fileStore s) (chatInviteStore s) (chatMessageStore s)
    (chatConnections s) (rateBuckets s) (fileRateBuckets s)
    (chatRateBuckets s) (rooms s) (burnedRooms s) (sockets s) v (timerSeq s)
    (dbPool s).

Definition set_timerSeq (v : nat) (s : Server) : Server :=
  mkServer
    (otmStore s) (fileStore s) (chatInviteStore s) (chatMessageStore s)
    (chatConnections s) (rateBuckets s) (fileRateBuckets s)
    (chatRateBuckets s) (rooms s) (burnedRooms s) (sockets s) (timers s) v
    (dbPool s).

Definition set_dbPool (v : option (gmap string Z)) (s : Server) : Server :=
  mkServer
    (otmStore s) (fileStore s) (chatInviteStore s) (chatMessageStore s)
    (chatConnections s) (rateBuckets s) (fileRateBuckets s)
    (chatRateBuckets s) (rooms s) (burnedRooms s) (sockets s) (timers s)
    (timerSeq s) v.

(** The state of a freshly started process; [pool] is [None] when no
    [DATABASE_URL] is configured. *)
Definition initial (pool : option (gmap string Z)) : Server :=
  mkServer ∅ ∅ ∅ ∅ ∅ ∅ ∅ ∅ ∅ ∅ ∅ ∅ 0%nat pool.

(** ** 2. Metrics *)

Definition allowed : list string :=
  ["rooms_created"; "otm_created"; "files_created";
   "chat_invites_created"; "chat_messages_sent"]%string.

(** [incrementMetric(field)]: the [UPDATE ... SET field = field + 1] is
    applied to the totals row when the pool exists. *)
Definition incrementMetric (field : string) (s : Server) : Server :=
  match dbPool s with
  | None => s
  | Some row =>
      if bool_decide (field ∈ allowed)
      then set_dbPool (Some (<[field := default 0 (row !! field) + 1]> row)) s
      else s
  end.

(** ** HTTP responses *)

Inductive Body :=
| BError (error : string)
| BUsed
| BId (id : string)
| BCiphertext (ciphertext : string)
| BBytes (ciphertext : list Byte.byte)
| BInviteCreated (inviteId : string)
| BInviteView (inviteId publicKeyBundle : string) (claimed : bool)
    (claimerBundle : option string)
| BClaimed (creatorBundle : string)
| BSuccess
| BDuplicate
| BMessages (messages : list Message).

Record Response := mkResponse {
  statusCode : Z;
  body : Body
}.

Definition rate_limited : Response := mkResponse 429 (BError "Rate limit exceeded").

(** A frame sent on a socket, in the order of the [send] calls. *)
Inductive Frame :=
| FText (text : string)
| FBinary (data : list Byte.byte)
| FConnected (fingerprint : string)
| FNewMessage (id from payload : string)
| FPresence (roomId : string) (count : nat)
| FRoomDestroyed (roomId : string).

(** What a handler did: the HTTP response it wrote (if the event is an
    HTTP request), the frames it sent on sockets, and the new state. *)
Record Outcome := mkOutcome {
  response : option Response;
  sent : list (nat * Frame);
  next : Server
}.

Definition reply (r : Response) (s : Server) : Outcome := mkOutcome (Some r) [] s.

(** The value of the [expiresAt] field of a [POST /chat/invite] body. *)
Inductive ExpiresField :=
| ExpAbsent
| ExpNumber (z : Z)
| ExpString (s : string).

(** Values produced by [JSON.parse]; an object is the list of its own
    properties (distinct keys). *)
Inductive json :=
| JNull
| JBool (b : bool)
| JNumber (z : Z)
| JString (v : string)
| JArray (items : list json)
| JObject (fields : list (string * json)).

(** What the handlers take from their host: [new Date(s).getTime()] for
    a string [s] ([NaN] when [s] is not a date), [JSON.parse(text)]
    ([None] when it throws) and [data.toString("utf8")] on a frame
    payload. *)
Record Host := mkHost {
  Date_parse : string → jsnum;
  JSON_parse : string → option json;
  toString_utf8 : list Byte.byte → string
}.

(** ** 3. One-time message store *)

Definition OTM_TTL_MS : Z := 7 * 24 * 60 * 60 * 1000.

(** The 60 s sweep of [otmStore]. *)
Definition sweepOtm (now : Z) (s : Server) : Server :=
  set_otmStore
    (filter (λ kv, ¬ (OTM_TTL_MS < now - otm_createdAt kv.2)) (otmStore s)) s.

(** [POST /otm], first the synchronous part of the request handler. *)
Definition postOtm_begin (now : Z) (ip : string) (s : Server) : bool * Server :=
  let '(ok, b) := RateLimit.checkRateLimit now ip "post-otm" (rateBuckets s) in
  (ok, set_rateBuckets b s).

(** [POST /otm], the ["end"] callback.  [parsed] is [None] when
    [JSON.parse] (or reading a field of its result) throws; [id] is the
    value of [generateOtmId()]. *)
Definition postOtm_end (now : Z) (parsed : option (option string)) (id : string)
    (s : Server) : Outcome :=
  match parsed with
  | None => reply (mkResponse 400 (BError "Invalid JSON")) s
  | Some ciphertext =>
      if negb (truthy ciphertext)
      then reply (mkResponse 400 (BError "Missing ciphertext")) s
      else
        let s1 := set_otmStore
                    (<[id := mkOtmEntry (default EmptyString ciphertext) now]> (otmStore s)) s in
        reply (mkResponse 201 (BId id)) (incrementMetric "otm_created" s1)
  end.

(** [GET /otm/{id}].  [now_rl] is the clock read by the rate limiter and
    [now] the one read by the expiry test. *)
Definition getOtm (now_rl now : Z) (ip id : string) (s : Server) : Outcome :=
  let '(ok, b) := RateLimit.checkRateLimit now_rl ip "get-otm" (rateBuckets s) in
  let s := set_rateBuckets b s in
  if negb ok then reply rate_limited s
  else
    match otmStore s !! id with
    | None => reply (mkResponse 404 BUsed) s
    | Some entry =>
        if bool_decide (OTM_TTL_MS < now - otm_createdAt entry)
        then reply (mkResponse 404 BUsed) (set_otmStore (delete id (otmStore s)) s)
        else reply (mkResponse 200 (BCiphertext (otm_ciphertext entry)))
               (set_otmStore (delete id (otmStore s)) s)
    end.

(** ** 4. File-drop store *)

Definition FILE_TTL_MS : Z := 24 * 60 * 60 * 1000.

Definition sweepFile (now : Z) (s : Server) : Server :=
  set_fileStore
    (filter (λ kv, ¬ (FILE_TTL_MS < now - file_createdAt kv.2)) (fileStore s)) s.

Definition postFile_begin (now : Z) (ip : string) (s : Server) : bool * Server :=
  let '(ok, b) := RateLimit.checkFileRateLimit now ip "upload" (fileRateBuckets s) in
  (ok, set_fileRateBuckets b s).

(** [POST /file], the ["end"] callback with [ciphertext = Buffer.concat(chunks)]. *)
Definition postFile_end (now : Z) (ciphertext : list Byte.byte) (id : string)
    (s : Server) : Outcome :=
  let s1 := set_fileStore (<[id := mkFileEntry ciphertext now]> (fileStore s)) s in
  reply (mkResponse 201 (BId id)) (incrementMetric "files_created" s1).

Definition getFile (now_rl now : Z) (ip id : string) (s : Server) : Outcome :=
  let '(ok, b) := RateLimit.checkFileRateLimit now_rl ip "download" (fileRateBuckets s) in
  let s := set_fileRateBuckets b s in
  if negb ok then reply rate_limited s
  else
    match fileStore s !! id with
    | None => reply (mkResponse 404 BUsed) s
    | Some entry =>
        if bool_decide (FILE_TTL_MS < now - file_createdAt entry)
        then reply (mkResponse 404 BUsed) (set_fileStore (delete id (fileStore s)) s)
        else reply (mkResponse 200 (BBytes (file_ciphertext entry)))
               (set_fileStore (delete id (fileStore s)) s)
    end.

(** ** 4b. Chat invite store *)

Definition CHAT_INVITE_TTL_MS : Z := 24 * 60 * 60 * 1000.

(** The 60 s sweep of [chatInviteStore] ("Cleanup expired invites"). *)
Definition sweepInvites (now : Z) (s : Server) : Server :=
  set_chatInviteStore
    (filter (λ kv, ¬ (CHAT_INVITE_TTL_MS < now - createdAt kv.2)) (chatInviteStore s)) s.

(** [new Date(n).getTime()] for an integral number: the time value is
    clipped to the range of ECMAScript dates. *)
Definition timeClip (z : Z) : jsnum :=
  if bool_decide (8640000000000000 < Z.abs z) then NaN else Num z.

(** Truthiness of the [expiresAt] field: [undefined], [0] and the empty
    string are falsy. *)
Definition expiresTruthy (e : ExpiresField) : bool :=
  match e with
  | ExpAbsent => false
  | ExpNumber z => negb (z =? 0)
  | ExpString v => negb (String.eqb v EmptyString)
  end.

(** [new Date(expiresAt).getTime()] *)
Definition dateGetTime (host : Host) (e : ExpiresField) : jsnum :=
  match e with
  | ExpAbsent => NaN
  | ExpNumber z => timeClip z
  | ExpString v => Date_parse host v
  end.

(** [expiresAt ? new Date(expiresAt).getTime() : Date.now() + CHAT_INVITE_TTL_MS] *)
Definition inviteExpiry (host : Host) (now : Z) (e : ExpiresField) : jsnum :=
  if expiresTruthy e then dateGetTime host e else Num (now + CHAT_INVITE_TTL_MS).

(** The rate check shared by [POST /chat/invite] and the claim route. *)
Definition chatInvite_begin (now : Z) (ip : string) (s : Server) : bool * Server :=
  let '(ok, b) := RateLimit.checkChatRateLimit now ip "invite" (chatRateBuckets s) in
  (ok, set_chatRateBuckets b s).

(** Parsed body of [POST /chat/invite]. *)
Record InviteBody := mkInviteBody {
  ib_inviteId : option string;
  ib_publicKeyBundle : option string;
  ib_expiresAt : ExpiresField
}.

(** [POST /chat/invite], the ["end"] callback; [now] and [now'] are the
    two readings of the clock (for [expiresAt] and for [createdAt]). *)
Definition postInvite_end (host : Host) (now now' : Z) (parsed : option InviteBody)
    (s : Server) : Outcome :=
  match parsed with
  | None => reply (mkResponse 400 (BError "Invalid JSON")) s
  | Some b =>
      if negb (truthy (ib_inviteId b)) || negb (truthy (ib_publicKeyBundle b))
      then reply (mkResponse 400 (BError "Missing inviteId or publicKeyBundle")) s
      else
        let inviteId := default EmptyString (ib_inviteId b) in
        match chatInviteStore s !! inviteId with
        | Some _ => reply (mkResponse 409 (BError "Invite ID already exists")) s
        | None =>
            let entry := mkInviteEntry (default EmptyString (ib_publicKeyBundle b))
                           (inviteExpiry host now (ib_expiresAt b)) now' false None in
            let s1 := set_chatInviteStore (<[inviteId := entry]> (chatInviteStore s)) s in
            reply (mkResponse 201 (BInviteCreated inviteId))
              (incrementMetric "chat_invites_created" s1)
        end
  end.

(** [GET /chat/invite/{id}] *)
Definition getInvite (now : Z) (inviteId : string) (s : Server) : Outcome :=
  match chatInviteStore s !! inviteId with
  | None => reply (mkResponse 404 (BError "Invite not found")) s
  | Some entry =>
      if js_gt now (expiresAt entry)
      then reply (mkResponse 404 (BError "Invite expired"))
             (set_chatInviteStore (delete inviteId (chatInviteStore s)) s)
      else reply (mkResponse 200
                    (BInviteView inviteId (publicKeyBundle entry) (claimed entry)
                       (claimerBundle entry))) s
  end.

(** [POST /chat/invite/{id}/claim], the ["end"] callback.  [parsed] is
    [Some f] when the body parses, [f] being its [claimerBundle] field. *)
Definition claimInvite_end (now : Z) (inviteId : string)
    (parsed : option (option string)) (s : Server) : Outcome :=
  match parsed with
  | None => reply (mkResponse 400 (BError "Invalid JSON")) s
  | Some bundle =>
      if negb (truthy bundle)
      then reply (mkResponse 400 (BError "Missing claimerBundle")) s
      else
        match chatInviteStore s !! inviteId with
        | None => reply (mkResponse 404 (BError "Invite not found")) s
        | Some entry =>
            if js_gt now (expiresAt entry)
            then reply (mkResponse 404 (BError "Invite expired"))
                   (set_chatInviteStore (delete inviteId (chatInviteStore s)) s)
            else if claimed entry
            then reply (mkResponse 409 (BError "Invite already claimed")) s
            else
              let entry' := mkInviteEntry (publicKeyBundle entry) (expiresAt entry)
                              (createdAt entry) true (Some (default EmptyString bundle)) in
              reply (mkResponse 200 (BClaimed (publicKeyBundle entry)))
                (set_chatInviteStore (<[inviteId := entry']> (chatInviteStore s)) s)
        end
  end.

(** ** 4c. Chat message store *)

Definition CHAT_MESSAGE_TTL_MS : Z := 7 * 24 * 60 * 60 * 1000.

(** The 60 s sweep of [chatMessageStore]: each mailbox keeps its young
    messages, and a mailbox left empty is deleted. *)
Definition sweepMessages (now : Z) (s : Server) : Server :=
  set_chatMessageStore
    (omap (λ messages : list Message,
             let remaining :=
               filter (λ m, now - m_timestamp m < CHAT_MESSAGE_TTL_MS) messages in
             if bool_decide (length remaining = 0%nat) then None else Some remaining)
       (chatMessageStore s)) s.

(** [client.readyState === 1] for a socket handle. *)
Definition isOpen (s : Server) (w : nat) : bool :=
  match sockets s !! w with
  | Some sock => bool_decide (readyState sock = 1)
  | None => false
  end.

(** [w.send(frame)]: the frame goes out when the socket is open. *)
Definition ws_send (s : Server) (w : nat) (f : Frame) : list (nat * Frame) :=
  if isOpen s w then [(w, f)] else [].

Definition postMessage_begin (now : Z) (ip : string) (s : Server) : bool * Server :=
  let '(ok, b) := RateLimit.checkChatRateLimit now ip "message" (chatRateBuckets s) in
  (ok, set_chatRateBuckets b s).

(** Parsed body of [POST /chat/message]. *)
Record MessageBody := mkMessageBody {
  mb_to : option string;
  mb_from : option string;
  mb_encryptedMessage : option string;
  mb_messageId : option string
}.

(** [POST /chat/message], the ["end"] callback. *)
Definition postMessage_end (now : Z) (parsed : option MessageBody)
    (s : Server) : Outcome :=
  match parsed with
  | None => reply (mkResponse 400 (BError "Invalid JSON")) s
  | Some b =>
      if negb (truthy (mb_to b)) || negb (truthy (mb_encryptedMessage b))
         || negb (truthy (mb_messageId b))
      then reply (mkResponse 400 (BError "Missing to, encryptedMessage, or messageId")) s
      else
        let to := default EmptyString (mb_to b) in
        let messageId := default EmptyString (mb_messageId b) in
        let encryptedMessage := default EmptyString (mb_encryptedMessage b) in
        let s0 :=
          match chatMessageStore s !! to with
          | Some _ => s
          | None => set_chatMessageStore (<[to := []]> (chatMessageStore s)) s
          end in
        let messages := default [] (chatMessageStore s0 !! to) in
        if existsb (λ m, String.eqb (m_id m) messageId) messages
        then reply (mkResponse 200 BDuplicate) s0
        else
          let msg := mkMessage messageId (or_default (mb_from b) "unknown")
                       encryptedMessage now in
          let s1 := set_chatMessageStore
                      (<[to := messages ++ [msg]]> (chatMessageStore s0)) s0 in
          let s2 := incrementMetric "chat_messages_sent" s1 in
          let push :=
            match chatConnections s2 !! to with
            | Some recipientWs =>
                ws_send s2 recipientWs
                  (FNewMessage messageId (or_default (mb_from b) "unknown") encryptedMessage)
            | None => []
            end in
          mkOutcome (Some (mkResponse 201 BSuccess)) push s2
  end.

(** [GET /chat/messages/{fingerprint}] *)
Definition getMessages (now : Z) (fingerprint : string) (s : Server) : Outcome :=
  let messages := default [] (chatMessageStore s !! fingerprint) in
  let validMessages :=
    filter (λ m, now - m_timestamp m < CHAT_MESSAGE_TTL_MS) messages in
  reply (mkResponse 200 (BMessages validMessages)) s.

(** The mailbox update both acknowledgement paths perform:
    [messages.filter(m => !messageIds.includes(m.id))], the key dropped
    when nothing remains. *)
Definition ackMailbox (fingerprint : string) (messageIds : list string)
    (store : gmap string (list Message)) : gmap string (list Message) :=
  match store !! fingerprint with
  | None => store
  | Some messages =>
      let remaining :=
        filter (λ m, negb (existsb (String.eqb (m_id m)) messageIds) = true) messages in
      if bool_decide (length remaining = 0%nat)
      then delete fingerprint store
      else <[fingerprint := remaining]> store
  end.

(** Parsed body of [POST /chat/messages/ack]; [ab_messageIds] is [None]
    when the field is not an array. *)
Record AckBody := mkAckBody {
  ab_fingerprint : option string;
  ab_messageIds : option (list string)
}.

(** [POST /chat/messages/ack], the ["end"] callback. *)
Definition ackMessages_end (parsed : option AckBody) (s : Server) : Outcome :=
  match parsed with
  | None => reply (mkResponse 400 (BError "Invalid JSON")) s
  | Some b =>
      match ab_messageIds b with
      | Some messageIds =>
          if truthy (ab_fingerprint b)
          then reply (mkResponse 200 BSuccess)
                 (set_chatMessageStore
                    (ackMailbox (default EmptyString (ab_fingerprint b)) messageIds
                       (chatMessageStore s)) s)
          else reply (mkResponse 400 (BError "Missing fingerprint or messageIds")) s
      | None => reply (mkResponse 400 (BError "Missing fingerprint or messageIds")) s
      end
  end.

(** ** 6. WebSocket rooms *)

(** [w.close()]: an open (or connecting) socket starts its closing
    handshake; the ["close"] event is delivered later. *)
Definition ws_close (w : nat) (s : Server) : Server :=
  match sockets s !! w with
  | Some sock =>
      if bool_decide (readyState sock = 0 ∨ readyState sock = 1)
      then set_sockets (<[w := mkSocket 2 (kind sock)]> (sockets s)) s
      else s
  | None => s
  end.

(** [getRoom(roomId)]: the registry after the call. *)
Definition getRoom (roomId : string) (s : Server) : Server :=
  match rooms s !! roomId with
  | Some _ => s
  | None => set_rooms (<[roomId := mkRoom [] None]> (rooms s)) s
  end.

(** [scheduleDestruction(roomId)]: arms a 5 s timer whose callback is
    [rooms.delete(roomId)]. *)
Definition scheduleDestruction (roomId : string) (s : Server) : Server :=
  match rooms s !! roomId with
  | None => s
  | Some room =>
      let h := timerSeq s in
      set_timerSeq (S h)
        (set_timers (<[h := roomId]> (timers s))
           (set_rooms (<[roomId := mkRoom (clients room) (Some h)]> (rooms s)) s))
  end.

(** The timer callback of [scheduleDestruction] fires for handle [h]. *)
Definition timerFired (h : nat) (s : Server) : Server :=
  match timers s !! h with
  | None => s
  | Some roomId =>
      set_timers (delete h (timers s)) (set_rooms (delete roomId (rooms s)) s)
  end.

(** [for (const client of cs) if (client.readyState === 1) client.send(f)] *)
Definition sendToOpen (s : Server) (cs : list nat) (f : Frame) : list (nat * Frame) :=
  map (λ c, (c, f)) (filter (λ c, isOpen s c = true) cs).

(** [for (const client of cs)
      if (client !== w && client.readyState === 1) client.send(f)] *)
Definition sendToOthers (s : Server) (w : nat) (cs : list nat) (f : Frame)
    : list (nat * Frame) :=
  map (λ c, (c, f)) (filter (λ c, c ≠ w ∧ isOpen s c = true) cs).

(** [broadcastPresence(roomId)] *)
Definition broadcastPresence (roomId : string) (s : Server) : list (nat * Frame) :=
  match rooms s !! roomId with
  | None => []
  | Some room => sendToOpen s (clients room) (FPresence roomId (length (clients room)))
  end.

(** ** 8. WebSocket handlers *)

(** JavaScript truthiness of a parsed value. *)
Definition json_truthy (j : json) : bool :=
  match j with
  | JNull => false
  | JBool b => b
  | JNumber z => negb (z =? 0)
  | JString v => negb (String.eqb v EmptyString)
  | JArray _ | JObject _ => true
  end.

Fixpoint assoc (k : string) (fields : list (string * json)) : option json :=
  match fields with
  | [] => None
  | (k', v) :: rest => if String.eqb k k' then Some v else assoc k rest
  end.

(** [j.k] for a non-null [j]; [None] is [undefined]. *)
Definition prop (j : json) (k : string) : option json :=
  match j with
  | JObject fields => assoc k fields
  | _ => None
  end.

(** [v === lit] for a property value and a string. *)
Definition is_string (v : option json) (lit : string) : bool :=
  match v with
  | Some (JString x) => String.eqb x lit
  | _ => false
  end.

(** The condition that guards the burn protocol:
    [parsed && parsed.type === "control" && parsed.action === "burnRoom"
     && parsed.roomId === roomId]. *)
Definition isBurnFrame (parsed : option json) (roomId : string) : bool :=
  match parsed with
  | None => false
  | Some j =>
      json_truthy j && is_string (prop j "type") "control"
      && is_string (prop j "action") "burnRoom"
      && is_string (prop j "roomId") roomId
  end.

(** The frames of the burn loop: every client is tested for
    [readyState === 1] when its turn comes, after the clients before it
    have been closed. *)
Fixpoint burnLoop (roomId : string) (cs : list nat) (s : Server)
    : list (nat * Frame) * Server :=
  match cs with
  | [] => ([], s)
  | client :: rest =>
      let out := ws_send s client (FRoomDestroyed roomId) in
      let '(outs, s') := burnLoop roomId rest (ws_close client s) in
      (out ++ outs, s')
  end.

(** The body of the control-frame branch of the room message handler. *)
Definition burnRoom (w : nat) (roomId : string) (s : Server) : Outcome :=
  let s1 := set_burnedRooms ({[roomId]} ∪ burnedRooms s) s in
  match rooms s1 !! roomId with
  | Some r =>
      let '(out, s2) := burnLoop roomId (clients r) s1 in
      mkOutcome None out (set_rooms (delete roomId (rooms s2)) s2)
  | None =>
      mkOutcome None (ws_send s1 w (FRoomDestroyed roomId)) (ws_close w s1)
  end.

(** The ["message"] listener of a room socket. *)
Definition roomMessage (host : Host) (w : nat) (roomId : string) (data : list Byte.byte)
    (isBinary : bool) (s : Server) : Outcome :=
  if isBinary then
    match rooms s !! roomId with
    | None => mkOutcome None [] s
    | Some r => mkOutcome None (sendToOthers s w (clients r) (FBinary data)) s
    end
  else
    let text := toString_utf8 host data in
    let parsed := JSON_parse host text in
    if isBurnFrame parsed roomId then burnRoom w roomId s
    else
      match rooms s !! roomId with
      | None => mkOutcome None [] s
      | Some r => mkOutcome None (sendToOthers s w (clients r) (FText text)) s
      end.

(** The strings of a parsed [messageIds] array; the other elements can
    never be [includes]-equal to a stored message id. *)
Fixpoint stringItems (items : list json) : list string :=
  match items with
  | [] => []
  | JString v :: rest => v :: stringItems rest
  | _ :: rest => stringItems rest
  end.

(** The ["message"] listener of a chat socket; parse errors (and the
    [TypeError] on [null]) are ignored. *)
Definition chatMessage (host : Host) (chatFingerprint : string) (data : list Byte.byte)
    (s : Server) : Outcome :=
  match JSON_parse host (toString_utf8 host data) with
  | None | Some JNull => mkOutcome None [] s
  | Some parsed =>
      match prop parsed "messageIds" with
      | Some (JArray items) =>
          if is_string (prop parsed "type") "ack"
          then mkOutcome None []
                 (set_chatMessageStore
                    (ackMailbox chatFingerprint (stringItems items) (chatMessageStore s)) s)
          else mkOutcome None [] s
      | _ => mkOutcome None [] s
      end
  end.

(** [room.clients.add(w)] *)
Definition addClient (w : nat) (cs : list nat) : list nat :=
  if bool_decide (w ∈ cs) then cs else cs ++ [w].

(** [if (room.timer) clearTimeout(room.timer)] *)
Definition clearRoomTimer (roomId : string) (s : Server) : Server :=
  match rooms s !! roomId with
  | Some (mkRoom _ (Some h)) => set_timers (delete h (timers s)) s
  | _ => s
  end.

(** The query of the handshake URL: [roomId] and [chatFingerprint]
    ([None] for a parameter that is absent). *)
Record Query := mkQuery {
  q_roomId : option string;
  q_chatFingerprint : option string
}.

(** The ["connection"] handler for a new open socket [w]; [query] is
    [None] when [new URL(...)] throws. *)
Definition connection (w : nat) (query : option Query) (s : Server) : Outcome :=
  let s := set_sockets (<[w := mkSocket 1 NoHandlers]> (sockets s)) s in
  match query with
  | None => mkOutcome None [] (ws_close w s)
  | Some q =>
      if truthy (q_chatFingerprint q) then
        let chatFingerprint := default EmptyString (q_chatFingerprint q) in
        let s1 := set_chatConnections (<[chatFingerprint := w]> (chatConnections s)) s in
        mkOutcome None (ws_send s1 w (FConnected chatFingerprint))
          (set_sockets (<[w := mkSocket 1 (ChatSocket chatFingerprint)]> (sockets s1)) s1)
      else if negb (truthy (q_roomId q)) then mkOutcome None [] (ws_close w s)
      else
        let roomId := default EmptyString (q_roomId q) in
        if bool_decide (roomId ∈ burnedRooms s)
        then mkOutcome None (ws_send s w (FRoomDestroyed roomId)) (ws_close w s)
        else
          let isNewRoom := bool_decide (rooms s !! roomId = None) in
          let s1 := getRoom roomId s in
          let s2 := if isNewRoom then incrementMetric "rooms_created" s1 else s1 in
          let s3 :=
            match rooms s2 !! roomId with
            | Some room =>
                set_rooms (<[roomId := mkRoom (addClient w (clients room)) (timer room)]>
                             (rooms s2)) s2
            | None => s2
            end in
          let s4 := clearRoomTimer roomId s3 in
          mkOutcome None (broadcastPresence roomId s4)
            (set_sockets (<[w := mkSocket 1 (RoomSocket roomId)]> (sockets s4)) s4)
  end.

(** The ["close"] listener of a room socket. *)
Definition roomClose (w : nat) (roomId : string) (s : Server) : Outcome :=
  match rooms s !! roomId with
  | None => mkOutcome None [] s
  | Some room =>
      let cs := filter (λ c, c ≠ w) (clients room) in
      let s1 := set_rooms (<[roomId := mkRoom cs (timer room)]> (rooms s)) s in
      if bool_decide (length cs = 0%nat)
      then mkOutcome None [] (scheduleDestruction roomId s1)
      else mkOutcome None (broadcastPresence roomId s1) s1
  end.

(** The ["close"] listener of a chat socket. *)
Definition chatClose (w : nat) (chatFingerprint : string) (s : Server) : Outcome :=
  if bool_decide (chatConnections s !! chatFingerprint = Some w)
  then mkOutcome None [] (set_chatConnections (delete chatFingerprint (chatConnections s)) s)
  else mkOutcome None [] s.

(** ** The event loop *)

(** Everything that can run on the event loop.  A [POST] is two events:
    the request handler (rate check) and the ["end"] callback of its body.
    [WsClosing w] is the peer starting the closing handshake of [w] (its
    [readyState] leaves OPEN before the ["close"] event is delivered). *)
Inductive Event :=
| PostOtmBegin (now : Z) (ip : string)
| PostOtmEnd (now : Z) (parsed : option (option string)) (id : string)
| GetOtm (now_rl now : Z) (ip id : string)
| PostFileBegin (now : Z) (ip : string)
| PostFileEnd (now : Z) (ciphertext : list Byte.byte) (id : string)
| GetFile (now_rl now : Z) (ip id : string)
| ChatInviteBegin (now : Z) (ip : string)
| PostInviteEnd (now now' : Z) (parsed : option InviteBody)
| GetInvite (now : Z) (inviteId : string)
| ClaimInviteEnd (now : Z) (inviteId : string) (parsed : option (option string))
| PostMessageBegin (now : Z) (ip : string)
| PostMessageEnd (now : Z) (parsed : option MessageBody)
| GetMessages (now : Z) (fingerprint : string)
| AckMessagesEnd (parsed : option AckBody)
| SweepOtm (now : Z)
| SweepFile (now : Z)
| SweepInvites (now : Z)
| SweepMessages (now : Z)
| Connection (w : nat) (query : option Query)
| WsMessage (w : nat) (data : list Byte.byte) (isBinary : bool)
| WsClosing (w : nat)
| WsClose (w : nat)
| TimerFired (h : nat).

(** A rate check answers 429 itself when it rejects the request. *)
Definition rateChecked (r : bool * Server) : Outcome :=
  if r.1 then mkOutcome None [] r.2 else reply rate_limited r.2.

Definition silent (s : Server) : Outcome := mkOutcome None [] s.

(** One turn of the event loop.  A socket the server has not accepted, or
    one whose ["close"] event was delivered, emits nothing. *)
Definition handle (host : Host) (e : Event) (s : Server) : Outcome :=
  match e with
  | PostOtmBegin now ip => rateChecked (postOtm_begin now ip s)
  | PostOtmEnd now parsed id => postOtm_end now parsed id s
  | GetOtm now_rl now ip id => getOtm now_rl now ip id s
  | PostFileBegin now ip => rateChecked (postFile_begin now ip s)
  | PostFileEnd now ciphertext id => postFile_end now ciphertext id s
  | GetFile now_rl now ip id => getFile now_rl now ip id s
  | ChatInviteBegin now ip => rateChecked (chatInvite_begin now ip s)
  | PostInviteEnd now now' parsed => postInvite_end host now now' parsed s
  | GetInvite now inviteId => getInvite now inviteId s
  | ClaimInviteEnd now inviteId parsed => claimInvite_end now inviteId parsed s
  | PostMessageBegin now ip => rateChecked (postMessage_begin now ip s)
  | PostMessageEnd now parsed => postMessage_end now parsed s
  | GetMessages now fingerprint => getMessages now fingerprint s
  | AckMessagesEnd parsed => ackMessages_end parsed s
  | SweepOtm now => silent (sweepOtm now s)
  | SweepFile now => silent (sweepFile now s)
  | SweepInvites now => silent (sweepInvites now s)
  | SweepMessages now => silent (sweepMessages now s)
  | Connection w query =>
      match sockets s !! w with
      | Some _ => silent s
      | None => connection w query s
      end
  | WsMessage w data isBinary =>
      match sockets s !! w with
      | Some (mkSocket st k) =>
          if bool_decide (st = 3) then silent s
          else
            match k with
            | RoomSocket roomId => roomMessage host w roomId data isBinary s
            | ChatSocket chatFingerprint => chatMessage host chatFingerprint data s
            | NoHandlers => silent s
            end
      | None => silent s
      end
  | WsClosing w => silent (ws_close w s)
  | WsClose w =>
      match sockets s !! w with
      | Some (mkSocket st k) =>
          if bool_decide (st = 3) then silent s
          else
            let s1 := set_sockets (<[w := mkSocket 3 k]> (sockets s)) s in
            match k with
            | RoomSocket roomId => roomClose w roomId s1
            | ChatSocket chatFingerprint => chatClose w chatFingerprint s1
            | NoHandlers => silent s1
            end
      | None => silent s
      end
  | TimerFired h => silent (timerFired h s)
  end.

(** The state after a sequence of events. *)
Definition run (host : Host) (evs : list Event) (s : Server) : Server :=
  fold_left (λ acc e, next (handle host e acc)) evs s.

(** The outcomes of a sequence of events, in order. *)
Fixpoint outcomes (host : Host) (evs : list Event) (s : Server) : list Outcome :=
  match evs with
  | [] => []
  | e :: rest => handle host e s :: outcomes host rest (next (handle host e s))
  end.

(** ** Specification vocabulary *)

(** What one call of a rate check does to the bucket of [ip] for
    [action], whose counter is [cnt] ([other] is the family's second
    counter) and whose threshold is [limit]: the first request, or the
    first one arriving more than 60 s after [windowStart], opens a window
    at [now] and is admitted; inside a window the counter goes up by one
    and the request is admitted unless the counter then exceeds [limit]. *)
Definition fixed_window_limiter {B : Type}
    (check : Z → string → string → gmap string B → bool * gmap string B)
    (start cnt other : B → Z) (action : string) (limit : Z) : Prop :=
  ∀ (now : Z) (ip : string) (buckets : gmap string B),
    let r := check now ip action buckets in
    (∀ ip', ip' ≠ ip → r.2 !! ip' = buckets !! ip') ∧
    ∃ b', r.2 !! ip = Some b' ∧
      match buckets !! ip with
      | Some b =>
          if bool_decide (60000 < now - start b)
          then start b' = now ∧ cnt b' = 1 ∧ other b' = 0 ∧ r.1 = true
          else start b' = start b ∧ cnt b' = cnt b + 1 ∧ other b' = other b
               ∧ r.1 = bool_decide (cnt b + 1 ≤ limit)
      | None => start b' = now ∧ cnt b' = 1 ∧ other b' = 0 ∧ r.1 = true
      end.

(** The answers of a rate check to a burst of requests of one client. *)
Fixpoint replay {B : Type}
    (check : Z → string → string → gmap string B → bool * gmap string B)
    (ip action : string) (times : list Z) (buckets : gmap string B) : list bool :=
  match times with
  | [] => []
  | now :: rest =>
      let r := check now ip action buckets in
      r.1 :: replay check ip action rest r.2
  end.

(** Events whose handler writes [otmStore]. *)
Definition touches_otmStore (e : Event) : bool :=
  match e with
  | PostOtmEnd _ _ _ | GetOtm _ _ _ _ | SweepOtm _ => true
  | _ => false
  end.

(** [POST /otm] callbacks that store their entry under [id]. *)
Definition stores_otm (id : string) (e : Event) : bool :=
  match e with
  | PostOtmEnd _ _ id' => String.eqb id' id
  | _ => false
  end.

(** Events whose handler writes [chatInviteStore]. *)
Definition touches_chatInviteStore (e : Event) : bool :=
  match e with
  | PostInviteEnd _ _ _ | GetInvite _ _ | ClaimInviteEnd _ _ _ | SweepInvites _ => true
  | _ => false
  end.

(** [POST /chat/invite] callbacks whose body names [inviteId]. *)
Definition stores_invite (inviteId : string) (e : Event) : bool :=
  match e with
  | PostInviteEnd _ _ (Some b) => bool_decide (ib_inviteId b = Some inviteId)
  | _ => false
  end.

(** The entry a successful claim with [bundle] leaves in place of [entry]. *)
Definition claimedBy (bundle : string) (entry : InviteEntry) : InviteEntry :=
  mkInviteEntry (publicKeyBundle entry) (expiresAt entry) (createdAt entry)
    true (Some bundle).

(** Sweeps of the invite store that run more than 24 h after [created]. *)
Definition late_sweep (created : Z) (e : Event) : bool :=
  match e with
  | SweepInvites now => bool_decide (CHAT_INVITE_TTL_MS < now - created)
  | _ => false
  end.

(** [messages.some(m => m.id === messageId)] on the mailbox of [to]
    (an absent mailbox holds no message). *)
Definition hasMessage (store : gmap string (list Message)) (to messageId : string) : bool :=
  existsb (λ m, String.eqb (m_id m) messageId) (default [] (store !! to)).

(** A [POST /chat/message] body that passes the required-field test. *)
Definition enqueues (b : MessageBody) (to encryptedMessage messageId : string) : Prop :=
  mb_to b = Some to ∧ to ≠ EmptyString
  ∧ mb_encryptedMessage b = Some encryptedMessage ∧ encryptedMessage ≠ EmptyString
  ∧ mb_messageId b = Some messageId ∧ messageId ≠ EmptyString.

(** The sockets of the room registered under [roomId], in joining order. *)
Definition members (s : Server) (roomId : string) : list nat :=
  match rooms s !! roomId with
  | Some room => clients room
  | None => []
  end.

(** A parsed frame of the shape
    [{type:"control", action:"burnRoom", roomId:<roomId>}]. *)
Definition burnShape (parsed : option json) (roomId : string) : Prop :=
  ∃ fields, parsed = Some (JObject fields)
    ∧ assoc "type" fields = Some (JString "control")
    ∧ assoc "action" fields = Some (JString "burnRoom")
    ∧ assoc "roomId" fields = Some (JString roomId).

(** The invariant of the room registry, on the five fields it relates:
    a burned room is not registered; a room socket whose ["close"] event
    is still to come is a member of its room unless the room is burned;
    a pending destruction timer belongs to a registered empty room that
    remembers it; timer handles are below the next handle; and a room
    holds each socket once. *)
Record registry_ok (rms : gmap string Room) (burned : gset string)
    (socks : gmap nat Socket) (tms : gmap nat string) (seq : nat) : Prop := {
  ok_burned : ∀ r, r ∈ burned → rms !! r = None;
  ok_member : ∀ w st r,
    socks !! w = Some (mkSocket st (RoomSocket r)) → st ≠ 3 →
    r ∈ burned ∨ ∃ room, rms !! r = Some room ∧ w ∈ clients room;
  ok_timer : ∀ h r,
    tms !! h = Some r →
    ∃ room, rms !! r = Some room ∧ clients room = [] ∧ timer room = Some h;
  ok_seq : ∀ h r, tms !! h = Some r → (h < seq)%nat;
  ok_nodup : ∀ r room, rms !! r = Some room → NoDup (clients room)
}.

Definition wf (s : Server) : Prop :=
  registry_ok (rooms s) (burnedRooms s) (sockets s) (timers s) (timerSeq s).

(** Events whose handler can write the room registry, the burned set,
    the sockets or the timers. *)
Definition touches_registry (e : Event) : bool :=
  match e with
  | Connection _ _ | WsMessage _ _ _ | WsClosing _ | WsClose _ | TimerFired _ => true
  | _ => false
  end.

(** [live_le socks socks'] : every room socket that can still emit
    events in [socks'] could in [socks], for the same room. *)
Definition live_le (socks socks' : gmap nat Socket) : Prop :=
  ∀ w st' r, socks' !! w = Some (mkSocket st' (RoomSocket r)) → st' ≠ 3 →
             ∃ st, socks !! w = Some (mkSocket st (RoomSocket r)) ∧ st ≠ 3.

(** ** Specification vocabulary: requests as the server sees them *)

(** Whether the request of an outcome was answered with [code]. *)
Definition answered (code : Z) (o : Outcome) : bool :=
  match response o with
  | Some r => bool_decide (statusCode r = code)
  | None => false
  end.

(** Whether a run creates an invite under [inviteId]: one of its
    [POST /chat/invite] callbacks names [inviteId] and is answered 201.
    (A callback naming a stored id is answered 409 and creates nothing.) *)
Fixpoint recreates (host : Host) (inviteId : string) (evs : list Event)
    (s : Server) : bool :=
  match evs with
  | [] => false
  | e :: evs =>
      let o := handle host e s in
      stores_invite inviteId e && answered 201 o
      || recreates host inviteId evs (next o)
  end.

(** The rate-checked requests, by the action their route passes to its
    check: [POST /otm], [GET /otm/{id}], [POST /file], [GET /file/{id}],
    [POST /chat/invite] and [POST /chat/invite/{id}/claim] (both pass
    ["invite"]), and [POST /chat/message].  A GET carries the second
    reading of the clock and the id it asks for. *)
Inductive Limited :=
| LimPostOtm
| LimGetOtm (now' : Z) (id : string)
| LimUpload
| LimDownload (now' : Z) (id : string)
| LimInvite
| LimMessage.

(** The event that runs the rate check of a request arriving at [now]
    from [ip]. *)
Definition limited_event (l : Limited) (now : Z) (ip : string) : Event :=
  match l with
  | LimPostOtm => PostOtmBegin now ip
  | LimGetOtm now' id => GetOtm now now' ip id
  | LimUpload => PostFileBegin now ip
  | LimDownload now' id => GetFile now now' ip id
  | LimInvite => ChatInviteBegin now ip
  | LimMessage => PostMessageBegin now ip
  end.

(** The threshold of the action. *)
Definition limit_of (l : Limited) : Z :=
  match l with
  | LimPostOtm => RateLimit.MAX_POST_OTM_PER_WINDOW
  | LimGetOtm _ _ => RateLimit.MAX_GET_OTM_PER_WINDOW
  | LimUpload => RateLimit.MAX_POST_FILE_PER_WINDOW
  | LimDownload _ _ => RateLimit.MAX_GET_FILE_PER_WINDOW
  | LimInvite => RateLimit.MAX_CHAT_INVITE_PER_WINDOW
  | LimMessage => RateLimit.MAX_CHAT_MESSAGE_PER_WINDOW
  end.

(** The start of the window of [ip] in the bucket map of the action's
    family, if [ip] has a bucket there. *)
Definition window_start (l : Limited) (ip : string) (s : Server) : option Z :=
  match l with
  | LimPostOtm | LimGetOtm _ _ => RateLimit.windowStart <$> rateBuckets s !! ip
  | LimUpload | LimDownload _ _ => RateLimit.fWindowStart <$> fileRateBuckets s !! ip
  | LimInvite | LimMessage => RateLimit.cWindowStart <$> chatRateBuckets s !! ip
  end.

(** A request arriving at [now] opens a window for [ip]: [ip] has no
    bucket in the family, or its window started more than 60 s ago. *)
Definition opens_window (l : Limited) (ip : string) (now : Z) (s : Server) : Prop :=
  match window_start l ip s with
  | None => True
  | Some start => 60000 < now - start
  end.

(** The server on a burst of requests of one client for one action, one
    request per clock reading: whether each was answered 429. *)
Fixpoint refusals (host : Host) (l : Limited) (ip : string) (times : list Z)
    (s : Server) : list bool :=
  match times with
  | [] => []
  | now :: rest =>
      let o := handle host (limited_event l now ip) s in
      answered 429 o :: refusals host l ip rest (next o)
  end.

(** ** Sample hosts and states for concrete runs *)

(** A host whose date parser rejects every string, whose [JSON.parse]
    always throws and whose decoder yields the empty string; used to run
    the handlers on requests that do not depend on them. *)
Definition quiet_host : Host := mkHost (λ _, NaN) (λ _, None) (λ _, EmptyString).

(** The state after [POST /otm] with [{"ciphertext":"A"}] drew the id ["q"]. *)
Definition otm_posted : Server :=
  next (postOtm_end 0 (Some (Some "A"%string)) "q" (initial None)).

(** The state after [POST /chat/invite] with
    [{"inviteId":"inv1","publicKeyBundle":"K1","expiresAt":100}]. *)
Definition invite_posted : Server :=
  next (postInvite_end quiet_host 0 0
          (Some (mkInviteBody (Some "inv1"%string) (Some "K1"%string) (ExpNumber 100)))
          (initial None)).

(** The state after [POST /chat/invite] at time 0 with
    [{"inviteId":"inv2","publicKeyBundle":"K1","expiresAt":172800000}]
    (an expiry 48 h ahead). *)
Definition invite_two_days : Server :=
  next (postInvite_end quiet_host 0 0
          (Some (mkInviteBody (Some "inv2"%string) (Some "K1"%string)
                   (ExpNumber 172800000)))
          (initial None)).

(** [{"to":to,"from":"fpA","encryptedMessage":"E1","messageId":id}] *)
Definition message_to (to id : string) : MessageBody :=
  mkMessageBody (Some to) (Some "fpA"%string) (Some "E1"%string) (Some id).

(** The state after [m1] and [m2] were posted to ["fpB"]. *)
Definition two_pending : Server :=
  next (postMessage_end 20 (Some (message_to "fpB" "m2"))
          (next (postMessage_end 10 (Some (message_to "fpB" "m1")) (initial None)))).

(** A host for the room scenarios: frames are decoded byte by byte, and
    the parser knows one document, the burn frame of room ["r1"]. *)
Definition quoted (v : string) : string :=
  String (Ascii.ascii_of_nat 34) (v ++ String (Ascii.ascii_of_nat 34) EmptyString).

Definition burn_r1_text : string :=
  "{" ++ quoted "type" ++ ":" ++ quoted "control" ++ ","
      ++ quoted "action" ++ ":" ++ quoted "burnRoom" ++ ","
      ++ quoted "roomId" ++ ":" ++ quoted "r1" ++ "}".

Definition parse_burn_r1 (text : string) : option json :=
  if String.eqb text burn_r1_text
  then Some (JObject [("type", JString "control"); ("action", JString "burnRoom");
                      ("roomId", JString "r1")]%string)
  else None.

Definition burn_r1 : list Byte.byte := String.list_byte_of_string burn_r1_text.
Definition hello : list Byte.byte := String.list_byte_of_string "hello".

Definition join_r1 (w : nat) : Event :=
  Connection w (Some (mkQuery (Some "r1"%string) None)).

Definition r1_host : Host := mkHost (λ _, NaN) parse_burn_r1 String.string_of_list_byte.
(** ** Further specification vocabulary: the one-time stores *)

(** Events that can take the OTM entry created at [created] under [id]
    out of the store, or replace it: a GET or a POST drawing that id, and
    a sweep running more than 7 days after [created]. *)
Definition removes_otm (id : string) (created : Z) (e : Event) : bool :=
  match e with
  | PostOtmEnd _ _ id' => String.eqb id' id
  | GetOtm _ _ _ id' => String.eqb id' id
  | SweepOtm now => bool_decide (OTM_TTL_MS < now - created)
  | _ => false
  end.

(** The same for the file created at [created] under [id] (24 hours). *)
Definition removes_file (id : string) (created : Z) (e : Event) : bool :=
  match e with
  | PostFileEnd _ _ id' => String.eqb id' id
  | GetFile _ _ _ id' => String.eqb id' id
  | SweepFile now => bool_decide (FILE_TTL_MS < now - created)
  | _ => false
  end.

(** Events whose handler writes [fileStore]. *)
Definition touches_fileStore (e : Event) : bool :=
  match e with
  | PostFileEnd _ _ _ | GetFile _ _ _ _ | SweepFile _ => true
  | _ => false
  end.

(** [POST /file] callbacks that store their entry under [id]. *)
Definition stores_file (id : string) (e : Event) : bool :=
  match e with
  | PostFileEnd _ _ id' => String.eqb id' id
  | _ => false
  end.

(** ** Further specification vocabulary: mailboxes *)

(** The invariant of the message store: no mailbox is empty and no two
    messages of a mailbox share an id. *)
Definition mailbox_ok (store : gmap string (list Message)) : Prop :=
  ∀ fp messages, store !! fp = Some messages →
                 messages ≠ [] ∧ NoDup (map m_id messages).

(** Events whose handler writes [chatMessageStore]. *)
Definition touches_chatMessageStore (e : Event) : bool :=
  match e with
  | PostMessageEnd _ _ | AckMessagesEnd _ | SweepMessages _ | WsMessage _ _ _ => true
  | _ => false
  end.

(** The messages a fetch at [now] shows: those younger than 7 days. *)
Definition young (now : Z) (messages : list Message) : list Message :=
  filter (λ m, now - m_timestamp m < CHAT_MESSAGE_TTL_MS) messages.

(** Events that can end the registration of socket [w] as the live chat
    socket of [fp]: a chat handshake for [fp], and the ["close"] event
    of [w]. *)
Definition unregisters (fp : string) (w : nat) (e : Event) : bool :=
  match e with
  | Connection _ (Some q) => bool_decide (q_chatFingerprint q = Some fp)
  | WsClose w' => bool_decide (w' = w)
  | _ => false
  end.

(** Events whose handler writes [chatConnections]. *)
Definition touches_chatConnections (e : Event) : bool :=
  match e with
  | Connection _ _ | WsClose _ => true
  | _ => false
  end.

(** ** Further specification vocabulary: the life of a room *)

(** A second invariant of the room registry: every member of a room is a
    socket that joined this room and whose ["close"] event is still to
    come; a registered room has a member or a pending destruction timer;
    and the timer handle a room remembers is below the next handle and,
    if still pending, is the timer of that room. *)
Record lifecycle_ok (rms : gmap string Room) (socks : gmap nat Socket)
    (tms : gmap nat string) (seq : nat) : Prop := {
  ok_known : ∀ r room c,
    rms !! r = Some room → c ∈ clients room →
    ∃ st, socks !! c = Some (mkSocket st (RoomSocket r)) ∧ st ≠ 3;
  ok_alive : ∀ r room,
    rms !! r = Some room →
    clients room ≠ [] ∨ ∃ h, timer room = Some h ∧ tms !! h = Some r;
  ok_handle : ∀ r room h,
    rms !! r = Some room → timer room = Some h →
    (h < seq)%nat ∧ ∀ r', tms !! h = Some r' → r' = r
}.

Definition wf_life (s : Server) : Prop :=
  lifecycle_ok (rooms s) (sockets s) (timers s) (timerSeq s).

(** [kept_live socks socks'] : every room socket that can still emit
    events in [socks] still can in [socks'], for the same room. *)
Definition kept_live (socks socks' : gmap nat Socket) : Prop :=
  ∀ w st r, socks !! w = Some (mkSocket st (RoomSocket r)) → st ≠ 3 →
            ∃ st', socks' !! w = Some (mkSocket st' (RoomSocket r)) ∧ st' ≠ 3.

(** ** Further specification vocabulary: the usage totals *)






(** ** 1. Helpers: the client address *)

(** What [getClientIp] reads of a request: the [x-forwarded-for] header
    ([None] when the request has none; Node joins repeated headers into
    one string) and [req.socket.remoteAddress] ([None] for [undefined]).
    Header values reach JavaScript as Latin-1 strings, one character per
    byte, so a string of bytes models them. *)
Record Request := mkRequest {
  x_forwarded_for : option string;
  remoteAddress : option string
}.

(** The characters below U+0100 that [String.prototype.trim] removes:
    TAB, LF, VT, FF, CR, SPACE and NBSP. *)
Definition is_space (a : Ascii.ascii) : bool :=
  let n := Ascii.nat_of_ascii a in
  bool_decide (n ∈ [9; 10; 11; 12; 13; 32; 160]%nat).

(** The comma, U+002C. *)
Definition comma : Ascii.ascii := Ascii.ascii_of_byte Byte.x2c.

Definition is_comma (a : Ascii.ascii) : bool := Ascii.eqb a comma.

(** [s.split(",")[0]] *)
Fixpoint beforeComma (s : string) : string :=
  match s with
  | EmptyString => EmptyString
  | String a s' => if is_comma a then EmptyString else String a (beforeComma s')
  end.

Fixpoint trimStart (s : string) : string :=
  match s with
  | EmptyString => EmptyString
  | String a s' => if is_space a then trimStart s' else s
  end.

Fixpoint trimEnd (s : string) : string :=
  match s with
  | EmptyString => EmptyString
  | String a s' =>
      match trimEnd s' with
      | EmptyString => if is_space a then EmptyString else String a EmptyString
      | t => String a t
      end
  end.

(** [s.trim()] *)
Definition trim (s : string) : string := trimEnd (trimStart s).

(** [getClientIp(req)] *)
Definition getClientIp (req : Request) : string :=
  match x_forwarded_for req with
  | Some xfwd =>
      if bool_decide (0 < String.length xfwd)%nat
      then trim (beforeComma xfwd)
      else or_default (remoteAddress req) "unknown"
  | None => or_default (remoteAddress req) "unknown"
  end.

(** Shapes of strings, for statements about [getClientIp]. *)
Fixpoint all_space (s : string) : bool :=
  match s with
  | EmptyString => true
  | String a s' => is_space a && all_space s'
  end.

Fixpoint has_comma (s : string) : bool :=
  match s with
  | EmptyString => false
  | String a s' => is_comma a || has_comma s'
  end.

Definition starts_with_space (s : string) : bool :=
  match s with
  | EmptyString => false
  | String a _ => is_space a
  end.

Fixpoint ends_with_space (s : string) : bool :=
  match s with
  | EmptyString => false
  | String a EmptyString => is_space a
  | String _ s' => ends_with_space s'
  end.

(** Nothing, or a comma and whatever follows it. *)
Definition comma_led (s : string) : bool :=
  match s with
  | EmptyString => true
  | String a _ => is_comma a
  end.

(** ** 7. HTTP server: the router *)

(** The slash, U+002F. *)
Definition slash : Ascii.ascii := Ascii.ascii_of_byte Byte.x2f.

Definition is_slash (a : Ascii.ascii) : bool := Ascii.eqb a slash.

(** [s.startsWith(pre)], with the rest of [s]. *)
Fixpoint strip_prefix (pre s : string) : option string :=
  match pre with
  | EmptyString => Some s
  | String a pre' =>
      match s with
      | EmptyString => None
      | String b s' => if Ascii.eqb a b then strip_prefix pre' s' else None
      end
  end.

Definition startsWith (s pre : string) : bool :=
  match strip_prefix pre s with
  | Some _ => true
  | None => false
  end.

Fixpoint has_slash (s : string) : bool :=
  match s with
  | EmptyString => false
  | String a s' => is_slash a || has_slash s'
  end.

(** The longest prefix without a slash, and what follows it: how
    [[^/]+] consumes its input. *)
Fixpoint take_segment (s : string) : string * string :=
  match s with
  | EmptyString => (EmptyString, EmptyString)
  | String a s' =>
      if is_slash a then (EmptyString, s)
      else let '(h, t) := take_segment s' in (String a h, t)
  end.

(** [s.split("/")] *)
Fixpoint split_slash (s : string) : list string :=
  match s with
  | EmptyString => [EmptyString]
  | String a s' =>
      if is_slash a then EmptyString :: split_slash s'
      else
        match split_slash s' with
        | h :: t => String a h :: t
        | [] => [String a EmptyString]
        end
  end.

(** [s.split("/")[k]]; [None] stands for [undefined]. *)
Definition segment (k : nat) (s : string) : option string := split_slash s !! k.

(** [/^\/chat\/invite\/[^/]+$/] *)
Definition re_invite (pathname : string) : bool :=
  match strip_prefix "/chat/invite/" pathname with
  | Some r => negb (String.eqb r EmptyString) && negb (has_slash r)
  | None => false
  end.

(** [/^\/chat\/invite\/[^/]+\/claim$/] *)
Definition re_claim (pathname : string) : bool :=
  match strip_prefix "/chat/invite/" pathname with
  | Some r =>
      let '(id, tail) := take_segment r in
      negb (String.eqb id EmptyString) && String.eqb tail "/claim"
  | None => false
  end.

(** [/^\/chat\/messages\/[^/]+$/] *)
Definition re_messages (pathname : string) : bool :=
  match strip_prefix "/chat/messages/" pathname with
  | Some r => negb (String.eqb r EmptyString) && negb (has_slash r)
  | None => false
  end.

(** The tests of the request handler, in the order of the source. *)
Definition is_health (method pathname : string) : bool :=
  String.eqb pathname "/health".
Definition is_metrics (method pathname : string) : bool :=
  String.eqb pathname "/metrics" && String.eqb method "GET".
Definition is_postOtm (method pathname : string) : bool :=
  String.eqb pathname "/otm" && String.eqb method "POST".
Definition is_getOtm (method pathname : string) : bool :=
  startsWith pathname "/otm/" && String.eqb method "GET".
Definition is_postFile (method pathname : string) : bool :=
  String.eqb pathname "/file" && String.eqb method "POST".
Definition is_getFile (method pathname : string) : bool :=
  startsWith pathname "/file/" && String.eqb method "GET".
Definition is_postInvite (method pathname : string) : bool :=
  String.eqb pathname "/chat/invite" && String.eqb method "POST".
Definition is_getInvite (method pathname : string) : bool :=
  re_invite pathname && String.eqb method "GET".
Definition is_claimInvite (method pathname : string) : bool :=
  re_claim pathname && String.eqb method "POST".
Definition is_postMessage (method pathname : string) : bool :=
  String.eqb pathname "/chat/message" && String.eqb method "POST".
Definition is_getMessages (method pathname : string) : bool :=
  re_messages pathname && String.eqb method "GET".
Definition is_ackMessages (method pathname : string) : bool :=
  String.eqb pathname "/chat/messages/ack" && String.eqb method "POST".

(** The branch of the request handler that serves a request, with the
    identifier it takes from the path. *)
Inductive Route :=
| ROptions
| RHealth
| RMetrics
| RPostOtm
| RGetOtm (id : option string)
| RPostFile
| RGetFile (id : option string)
| RPostInvite
| RGetInvite (inviteId : option string)
| RClaimInvite (inviteId : option string)
| RPostMessage
| RGetMessages (fingerprint : option string)
| RAckMessages
| RDefault.

(** The request handler of [createServer] down to the choice of its
    branch; [pathname] is [urlObj.pathname]. *)
Definition route (method pathname : string) : Route :=
  if String.eqb method "OPTIONS" then ROptions
  else if is_health method pathname then RHealth
  else if is_metrics method pathname then RMetrics
  else if is_postOtm method pathname then RPostOtm
  else if is_getOtm method pathname then RGetOtm (segment 2 pathname)
  else if is_postFile method pathname then RPostFile
  else if is_getFile method pathname then RGetFile (segment 2 pathname)
  else if is_postInvite method pathname then RPostInvite
  else if is_getInvite method pathname then RGetInvite (segment 3 pathname)
  else if is_claimInvite method pathname then RClaimInvite (segment 3 pathname)
  else if is_postMessage method pathname then RPostMessage
  else if is_getMessages method pathname then RGetMessages (segment 3 pathname)
  else if is_ackMessages method pathname then RAckMessages
  else RDefault.

(** The tests that come after the one for [OPTIONS]. *)
Definition conditions : list (string → string → bool) :=
  [is_health; is_metrics; is_postOtm; is_getOtm; is_postFile; is_getFile;
   is_postInvite; is_getInvite; is_claimInvite; is_postMessage; is_getMessages;
   is_ackMessages].

Section Properties.

Variable host : Host.

(** ** Rate limiting *)

(** One call of a rate check, by cases on the bucket found and on every
    comparison the check makes. *)
Ltac limiter_cases Hb :=
  cbn zeta;
  match goal with
  | |- context [?m !! ?ip] => destruct (m !! ip) as [[w c1 c2]|] eqn:Hb
  end;
  cbn -[Z.mul Z.add Z.sub]; repeat (case_bool_decide; cbn -[Z.mul Z.add Z.sub]);
  try done;
  (split; [intros ip' Hne; by rewrite lookup_insert_ne|]);
  (eexists; split; [apply lookup_insert_eq|]);
  cbn -[Z.mul Z.add Z.sub] in *;
  repeat case_bool_decide; repeat split; try done; try lia.

Lemma checkRateLimit_post :
  fixed_window_limiter RateLimit.checkRateLimit RateLimit.windowStart
    RateLimit.postCount RateLimit.getCount "post-otm" 30.
Proof.
  intros now ip buckets. unfold RateLimit.checkRateLimit,
    RateLimit.RATE_WINDOW_MS, RateLimit.MAX_POST_OTM_PER_WINDOW,
    RateLimit.MAX_GET_OTM_PER_WINDOW.
  limiter_cases Hb.
Qed.

Lemma checkRateLimit_get :
  fixed_window_limiter RateLimit.checkRateLimit RateLimit.windowStart
    RateLimit.getCount RateLimit.postCount "get-otm" 60.
Proof.
  intros now ip buckets. unfold RateLimit.checkRateLimit,
    RateLimit.RATE_WINDOW_MS, RateLimit.MAX_POST_OTM_PER_WINDOW,
    RateLimit.MAX_GET_OTM_PER_WINDOW.
  limiter_cases Hb.
Qed.

Lemma checkFileRateLimit_upload :
  fixed_window_limiter RateLimit.checkFileRateLimit RateLimit.fWindowStart
    RateLimit.uploadCount RateLimit.downloadCount "upload" 10.
Proof.
  intros now ip buckets. unfold RateLimit.checkFileRateLimit,
    RateLimit.FILE_RATE_WINDOW_MS, RateLimit.MAX_POST_FILE_PER_WINDOW,
    RateLimit.MAX_GET_FILE_PER_WINDOW.
  limiter_cases Hb.
Qed.

Lemma checkFileRateLimit_download :
  fixed_window_limiter RateLimit.checkFileRateLimit RateLimit.fWindowStart
    RateLimit.downloadCount RateLimit.uploadCount "download" 30.
Proof.
  intros now ip buckets. unfold RateLimit.checkFileRateLimit,
    RateLimit.FILE_RATE_WINDOW_MS, RateLimit.MAX_POST_FILE_PER_WINDOW,
    RateLimit.MAX_GET_FILE_PER_WINDOW.
  limiter_cases Hb.
Qed.

Lemma checkChatRateLimit_invite :
  fixed_window_limiter RateLimit.checkChatRateLimit RateLimit.cWindowStart
    RateLimit.inviteCount RateLimit.messageCount "invite" 10.
Proof.
  intros now ip buckets. unfold RateLimit.checkChatRateLimit,
    RateLimit.CHAT_RATE_WINDOW_MS, RateLimit.MAX_CHAT_INVITE_PER_WINDOW,
    RateLimit.MAX_CHAT_MESSAGE_PER_WINDOW.
  limiter_cases Hb.
Qed.

Lemma checkChatRateLimit_message :
  fixed_window_limiter RateLimit.checkChatRateLimit RateLimit.cWindowStart
    RateLimit.messageCount RateLimit.inviteCount "message" 60.
Proof.
  intros now ip buckets. unfold RateLimit.checkChatRateLimit,
    RateLimit.CHAT_RATE_WINDOW_MS, RateLimit.MAX_CHAT_INVITE_PER_WINDOW,
    RateLimit.MAX_CHAT_MESSAGE_PER_WINDOW.
  limiter_cases Hb.
Qed.

Section Burst.

Context {B : Type}
  (check : Z → string → string → gmap string B → bool * gmap string B)
  (start cnt other : B → Z) (action : string) (limit : Z).
Hypothesis Hcheck : fixed_window_limiter check start cnt other action limit.

(** Inside an open window the [k]-th further request is admitted exactly
    when the counter it reaches is at most the threshold. *)
Lemma replay_in_window (ip : string) (times : list Z) :
  ∀ (buckets : gmap string B) (b : B) (k : nat),
    buckets !! ip = Some b →
    Forall (λ t, t - start b ≤ 60000) times →
    (k < length times)%nat →
    replay check ip action times buckets !! k
    = Some (bool_decide (cnt b + Z.of_nat k + 1 ≤ limit)).
Proof.
  induction times as [|t times IH]; intros buckets b k Hb Hall Hk; cbn in Hk; [lia|].
  apply Forall_cons in Hall as [Ht Hall].
  destruct (Hcheck t ip buckets) as [_ (b' & Hb' & Hcase)].
  rewrite Hb in Hcase. rewrite bool_decide_eq_false_2 in Hcase by lia.
  destruct Hcase as (Hs & Hc & _ & Hr).
  destruct k as [|k]; cbn.
  - rewrite Hr. f_equal. apply bool_decide_ext. lia.
  - etrans; [apply (IH _ b' k Hb'); [by rewrite Hs | lia]|].
    f_equal. apply bool_decide_ext. lia.
Qed.

(** A client without a bucket opens a window with its first request; of
    the requests of that window the [k]-th is admitted exactly when
    [k ≤ limit]. *)
Lemma replay_fresh (ip : string) (t0 : Z) (times : list Z)
    (buckets : gmap string B) (k : nat) :
  1 ≤ limit →
  buckets !! ip = None →
  Forall (λ t, t - t0 ≤ 60000) times →
  (k ≤ length times)%nat →
  replay check ip action (t0 :: times) buckets !! k
  = Some (bool_decide (Z.of_nat k + 1 ≤ limit)).
Proof.
  intros Hlim Hb Hall Hk.
  destruct (Hcheck t0 ip buckets) as [_ (b' & Hb' & Hcase)].
  rewrite Hb in Hcase. destruct Hcase as (Hs & Hc & _ & Hr).
  destruct k as [|k]; cbn.
  - rewrite Hr. symmetry. f_equal. apply bool_decide_eq_true_2. lia.
  - etrans; [apply (replay_in_window ip times _ b' k Hb'); [by rewrite Hs | lia]|].
    f_equal. apply bool_decide_ext. lia.
Qed.

(** A request arriving more than 60 s after the window start is admitted
    and starts a new window. *)
Lemma limiter_reset (now : Z) (ip : string) (buckets : gmap string B) (b : B) :
  buckets !! ip = Some b →
  60000 < now - start b →
  (check now ip action buckets).1 = true
  ∧ ∃ b', (check now ip action buckets).2 !! ip = Some b'
          ∧ start b' = now ∧ cnt b' = 1.
Proof.
  intros Hb Hlate.
  destruct (Hcheck now ip buckets) as [_ (b' & Hb' & Hcase)].
  rewrite Hb in Hcase. rewrite bool_decide_eq_true_2 in Hcase by lia.
  destruct Hcase as (Hs & Hc & _ & Hr). split; [done|]. by exists b'.
Qed.

(** A request that opens a window (the client has no bucket, or its
    window started more than 60 s ago) is admitted, and of the requests
    of the new window the [k]-th is admitted exactly when [k ≤ limit]. *)
Lemma replay_new_window (ip : string) (t0 : Z) (times : list Z)
    (buckets : gmap string B) (k : nat) :
  1 ≤ limit →
  match buckets !! ip with
  | None => True
  | Some b => 60000 < t0 - start b
  end →
  Forall (λ t, t - t0 ≤ 60000) times →
  (k ≤ length times)%nat →
  replay check ip action (t0 :: times) buckets !! k
  = Some (bool_decide (Z.of_nat k + 1 ≤ limit)).
Proof.
  intros Hlim Hopen Hall Hk.
  destruct (buckets !! ip) as [b|] eqn:Hb; [|by apply replay_fresh].
  destruct (Hcheck t0 ip buckets) as [_ (b' & Hb' & Hcase)].
  rewrite Hb in Hcase. rewrite bool_decide_eq_true_2 in Hcase by lia.
  destruct Hcase as (Hs & Hc & _ & Hr).
  destruct k as [|k]; cbn.
  - rewrite Hr. symmetry. f_equal. apply bool_decide_eq_true_2. lia.
  - etrans; [apply (replay_in_window ip times _ b' k Hb'); [by rewrite Hs | lia]|].
    f_equal. apply bool_decide_ext. lia.
Qed.

End Burst.

(** *** The checks inside the server *)

(** What the handler of each rate-checked request does with its check:
    it answers 429 exactly when the check refuses, and the bucket map of
    the state it leaves is the one the check returned. *)
Lemma limited_step_otm_post (now : Z) (ip : string) (s : Server) :
  let o := handle host (limited_event LimPostOtm now ip) s in
  let r := RateLimit.checkRateLimit now ip "post-otm" (rateBuckets s) in
  answered 429 o = negb r.1 ∧ rateBuckets (next o) = r.2.
Proof.
  cbn [limited_event handle]. unfold rateChecked, postOtm_begin, answered.
  by destruct (RateLimit.checkRateLimit now ip "post-otm" _) as [[] ?].
Qed.

Lemma limited_step_otm_get (now now' : Z) (id ip : string) (s : Server) :
  let o := handle host (limited_event (LimGetOtm now' id) now ip) s in
  let r := RateLimit.checkRateLimit now ip "get-otm" (rateBuckets s) in
  answered 429 o = negb r.1 ∧ rateBuckets (next o) = r.2.
Proof.
  cbn [limited_event handle]. unfold getOtm, answered.
  destruct (RateLimit.checkRateLimit now ip "get-otm" _) as [[] ?]; [|done].
  cbn. destruct (_ !! id); [|done]. by case_bool_decide.
Qed.

Lemma limited_step_file_post (now : Z) (ip : string) (s : Server) :
  let o := handle host (limited_event LimUpload now ip) s in
  let r := RateLimit.checkFileRateLimit now ip "upload" (fileRateBuckets s) in
  answered 429 o = negb r.1 ∧ fileRateBuckets (next o) = r.2.
Proof.
  cbn [limited_event handle]. unfold rateChecked, postFile_begin, answered.
  by destruct (RateLimit.checkFileRateLimit now ip "upload" _) as [[] ?].
Qed.

Lemma limited_step_file_get (now now' : Z) (id ip : string) (s : Server) :
  let o := handle host (limited_event (LimDownload now' id) now ip) s in
  let r := RateLimit.checkFileRateLimit now ip "download" (fileRateBuckets s) in
  answered 429 o = negb r.1 ∧ fileRateBuckets (next o) = r.2.
Proof.
  cbn [limited_event handle]. unfold getFile, answered.
  destruct (RateLimit.checkFileRateLimit now ip "download" _) as [[] ?]; [|done].
  cbn. destruct (_ !! id); [|done]. by case_bool_decide.
Qed.

Lemma limited_step_invite (now : Z) (ip : string) (s : Server) :
  let o := handle host (limited_event LimInvite now ip) s in
  let r := RateLimit.checkChatRateLimit now ip "invite" (chatRateBuckets s) in
  answered 429 o = negb r.1 ∧ chatRateBuckets (next o) = r.2.
Proof.
  cbn [limited_event handle]. unfold rateChecked, chatInvite_begin, answered.
  by destruct (RateLimit.checkChatRateLimit now ip "invite" _) as [[] ?].
Qed.

Lemma limited_step_message (now : Z) (ip : string) (s : Server) :
  let o := handle host (limited_event LimMessage now ip) s in
  let r := RateLimit.checkChatRateLimit now ip "message" (chatRateBuckets s) in
  answered 429 o = negb r.1 ∧ chatRateBuckets (next o) = r.2.
Proof.
  cbn [limited_event handle]. unfold rateChecked, postMessage_begin, answered.
  by destruct (RateLimit.checkChatRateLimit now ip "message" _) as [[] ?].
Qed.

Section ServerBurst.

Context {B : Type}
  (check : Z → string → string → gmap string B → bool * gmap string B)
  (start cnt other : B → Z) (action : string) (limit : Z)
  (buckets_of : Server → gmap string B) (l : Limited).
Hypothesis Hcheck : fixed_window_limiter check start cnt other action limit.
Hypothesis Hstep : ∀ (now : Z) (ip : string) (s : Server),
  let o := handle host (limited_event l now ip) s in
  let r := check now ip action (buckets_of s) in
  answered 429 o = negb r.1 ∧ buckets_of (next o) = r.2.

(** The server refuses, in a burst of one client, exactly the requests
    its check refuses when it is fed its own results. *)
Lemma refusals_replay (ip : string) (times : list Z) :
  ∀ s, refusals host l ip times s
       = map negb (replay check ip action times (buckets_of s)).
Proof.
  induction times as [|now times IH]; intros s; [done|].
  cbn [refusals replay map]. destruct (Hstep now ip s) as [-> Hnext].
  by rewrite IH, Hnext.
Qed.

Lemma refusals_new_window (ip : string) (t0 : Z) (times : list Z) (s : Server)
    (k : nat) :
  1 ≤ limit →
  match buckets_of s !! ip with
  | None => True
  | Some b => 60000 < t0 - start b
  end →
  Forall (λ t, t - t0 ≤ 60000) times →
  (k ≤ length times)%nat →
  refusals host l ip (t0 :: times) s !! k
  = Some (bool_decide (limit < Z.of_nat k + 1)).
Proof.
  intros Hlim Hopen Hall Hk. rewrite refusals_replay, list_lookup_fmap.
  rewrite (replay_new_window check start cnt other action limit Hcheck) by done.
  cbn. f_equal. rewrite <- bool_decide_not. apply bool_decide_ext. lia.
Qed.

End ServerBurst.

(** C8. Every rate bucket is a fixed 60-second window opened by the
    first request of its client: each request adds one to its action's
    counter, a request whose counter exceeds the action's threshold (OTM
    post 30, get 60; file upload 10, download 30; chat invite 10,
    message 60) is refused, the refusal is answered with 429 "Rate limit
    exceeded", and the first request arriving more than 60 s after the
    window start opens a new window and is admitted.  This is stated
    three times: of the three checks as functions on a bucket map; of the
    six handlers, which answer 429 exactly when their check refuses and
    leave the bucket map the check returned in the state; and of the
    server on a burst of one client: the request that opens a window and
    the requests of the following 60 s are refused exactly from the one
    that brings the counter above the threshold on. *)
Theorem rate_limit_windows :
  (fixed_window_limiter RateLimit.checkRateLimit RateLimit.windowStart
     RateLimit.postCount RateLimit.getCount "post-otm" 30
   ∧ fixed_window_limiter RateLimit.checkRateLimit RateLimit.windowStart
       RateLimit.getCount RateLimit.postCount "get-otm" 60
   ∧ fixed_window_limiter RateLimit.checkFileRateLimit RateLimit.fWindowStart
       RateLimit.uploadCount RateLimit.downloadCount "upload" 10
   ∧ fixed_window_limiter RateLimit.checkFileRateLimit RateLimit.fWindowStart
       RateLimit.downloadCount RateLimit.uploadCount "download" 30
   ∧ fixed_window_limiter RateLimit.checkChatRateLimit RateLimit.cWindowStart
       RateLimit.inviteCount RateLimit.messageCount "invite" 10
   ∧ fixed_window_limiter RateLimit.checkChatRateLimit RateLimit.cWindowStart
       RateLimit.messageCount RateLimit.inviteCount "message" 60)
  ∧ (∀ (now now' : Z) (ip id : string) (s : Server),
      let too_many := Some (mkResponse 429 (BError "Rate limit exceeded")) in
      let answer (ok : bool) := if ok then None else too_many in
      response (handle host (PostOtmBegin now ip) s)
      = answer (RateLimit.checkRateLimit now ip "post-otm" (rateBuckets s)).1
      ∧ (response (handle host (GetOtm now now' ip id) s) = too_many
         ↔ (RateLimit.checkRateLimit now ip "get-otm" (rateBuckets s)).1 = false)
      ∧ response (handle host (PostFileBegin now ip) s)
        = answer (RateLimit.checkFileRateLimit now ip "upload" (fileRateBuckets s)).1
      ∧ (response (handle host (GetFile now now' ip id) s) = too_many
         ↔ (RateLimit.checkFileRateLimit now ip "download" (fileRateBuckets s)).1 = false)
      ∧ response (handle host (ChatInviteBegin now ip) s)
        = answer (RateLimit.checkChatRateLimit now ip "invite" (chatRateBuckets s)).1
      ∧ response (handle host (PostMessageBegin now ip) s)
        = answer (RateLimit.checkChatRateLimit now ip "message" (chatRateBuckets s)).1)
  ∧ (∀ (now now' : Z) (ip id : string) (s : Server),
      next (handle host (PostOtmBegin now ip) s)
      = set_rateBuckets
          (RateLimit.checkRateLimit now ip "post-otm" (rateBuckets s)).2 s
      ∧ rateBuckets (next (handle host (GetOtm now now' ip id) s))
        = (RateLimit.checkRateLimit now ip "get-otm" (rateBuckets s)).2
      ∧ next (handle host (PostFileBegin now ip) s)
        = set_fileRateBuckets
            (RateLimit.checkFileRateLimit now ip "upload" (fileRateBuckets s)).2 s
      ∧ fileRateBuckets (next (handle host (GetFile now now' ip id) s))
        = (RateLimit.checkFileRateLimit now ip "download" (fileRateBuckets s)).2
      ∧ next (handle host (ChatInviteBegin now ip) s)
        = set_chatRateBuckets
            (RateLimit.checkChatRateLimit now ip "invite" (chatRateBuckets s)).2 s
      ∧ next (handle host (PostMessageBegin now ip) s)
        = set_chatRateBuckets
            (RateLimit.checkChatRateLimit now ip "message" (chatRateBuckets s)).2 s)
  ∧ (∀ (l : Limited) (ip : string) (t0 : Z) (times : list Z) (s : Server) (k : nat),
      opens_window l ip t0 s →
      Forall (λ t, t - t0 ≤ 60000) times →
      (k ≤ length times)%nat →
      refusals host l ip (t0 :: times) s !! k
      = Some (bool_decide (limit_of l < Z.of_nat k + 1))).
Proof.
  split; [|split; [|split]].
  - repeat lazymatch goal with |- _ ∧ _ => split end.
    + apply checkRateLimit_post.
    + apply checkRateLimit_get.
    + apply checkFileRateLimit_upload.
    + apply checkFileRateLimit_download.
    + apply checkChatRateLimit_invite.
    + apply checkChatRateLimit_message.
  - intros now now' ip id s. cbn zeta.
    cbn [handle]. unfold rateChecked, postOtm_begin, postFile_begin, chatInvite_begin,
      postMessage_begin, getOtm, getFile.
    destruct (RateLimit.checkRateLimit now ip "post-otm" _) as [[] ?];
    destruct (RateLimit.checkRateLimit now ip "get-otm" _) as [[] ?];
    destruct (RateLimit.checkFileRateLimit now ip "upload" _) as [[] ?];
    destruct (RateLimit.checkFileRateLimit now ip "download" _) as [[] ?];
    destruct (RateLimit.checkChatRateLimit now ip "invite" _) as [[] ?];
    destruct (RateLimit.checkChatRateLimit now ip "message" _) as [[] ?];
    cbn; repeat split; try done;
    repeat match goal with
      | |- context [match ?m !! ?k with _ => _ end] => destruct (m !! k); cbn
      | |- context [bool_decide ?P] => destruct (bool_decide P); cbn
      end; done.
  - intros now now' ip id s.
    pose proof (limited_step_otm_get now now' id ip s) as [_ Hget].
    pose proof (limited_step_file_get now now' id ip s) as [_ Hdown].
    cbn [limited_event] in Hget, Hdown.
    repeat lazymatch goal with |- _ ∧ _ => split end; try done;
      cbn [handle]; unfold rateChecked, postOtm_begin, postFile_begin,
        chatInvite_begin, postMessage_begin;
      by repeat match goal with
                | |- context [let '(_, _) := ?x in _] => destruct x as [[] ?]
                end.
  - intros l ip t0 times s k Hopen Hall Hk. unfold opens_window in Hopen.
    destruct l; cbn [window_start limit_of] in *.
    + eapply (refusals_new_window _ _ _ _ _ _ rateBuckets LimPostOtm
                checkRateLimit_post); try done.
      * intros. apply limited_step_otm_post.
      * by destruct (rateBuckets s !! ip).
    + eapply (refusals_new_window _ _ _ _ _ _ rateBuckets (LimGetOtm now' id)
                checkRateLimit_get); try done.
      * intros. apply limited_step_otm_get.
      * by destruct (rateBuckets s !! ip).
    + eapply (refusals_new_window _ _ _ _ _ _ fileRateBuckets LimUpload
                checkFileRateLimit_upload); try done.
      * intros. apply limited_step_file_post.
      * by destruct (fileRateBuckets s !! ip).
    + eapply (refusals_new_window _ _ _ _ _ _ fileRateBuckets (LimDownload now' id)
                checkFileRateLimit_download); try done.
      * intros. apply limited_step_file_get.
      * by destruct (fileRateBuckets s !! ip).
    + eapply (refusals_new_window _ _ _ _ _ _ chatRateBuckets LimInvite
                checkChatRateLimit_invite); try done.
      * intros. apply limited_step_invite.
      * by destruct (chatRateBuckets s !! ip).
    + eapply (refusals_new_window _ _ _ _ _ _ chatRateBuckets LimMessage
                checkChatRateLimit_message); try done.
      * intros. apply limited_step_message.
      * by destruct (chatRateBuckets s !! ip).
Qed.

(** ** Which handler touches which store *)

Lemma incrementMetric_only (field : string) (s : Server) :
  incrementMetric field s = set_dbPool (dbPool (incrementMetric field s)) s.
Proof.
  unfold incrementMetric. destruct s as [? ? ? ? ? ? ? ? ? ? ? ? ? [row|]]; cbn; [|done].
  by case_bool_decide.
Qed.

Lemma ws_close_only (w : nat) (s : Server) :
  ws_close w s = set_sockets (sockets (ws_close w s)) s.
Proof.
  unfold ws_close. destruct s; cbn.
  repeat case_match; done.
Qed.

Lemma burnLoop_only (roomId : string) (cs : list nat) :
  ∀ s, (burnLoop roomId cs s).2 = set_sockets (sockets (burnLoop roomId cs s).2) s.
Proof.
  induction cs as [|c cs IH]; intros s; cbn.
  - by destruct s.
  - specialize (IH (ws_close c s)).
    destruct (burnLoop roomId cs (ws_close c s)) as [outs s'] eqn:E. cbn in *.
    rewrite IH. rewrite (ws_close_only c s). by destruct s.
Qed.

(** Unfolds a handler down to its case analysis. *)
Ltac unfold_handlers :=
  unfold rateChecked, silent, reply, postOtm_begin, postOtm_end, getOtm, postFile_begin,
    postFile_end, getFile, chatInvite_begin, postInvite_end, getInvite,
    claimInvite_end, postMessage_begin, postMessage_end, getMessages,
    ackMessages_end, sweepOtm, sweepFile, sweepInvites, sweepMessages,
    connection, roomMessage, chatMessage, roomClose, chatClose, timerFired,
    burnRoom, scheduleDestruction, clearRoomTimer, getRoom in *.

(** Splits on every test of a handler and reduces the store projections;
    the metric, close and burn steps change one field each, whose new
    value is abstracted. *)
Ltac handler_cases :=
  unfold_handlers;
  repeat first
    [ progress cbn [next response sent fst snd otmStore fileStore chatInviteStore
        chatMessageStore chatConnections rateBuckets fileRateBuckets
        chatRateBuckets rooms burnedRooms sockets timers timerSeq dbPool
        set_otmStore set_fileStore set_chatInviteStore set_chatMessageStore
        set_chatConnections set_rateBuckets set_fileRateBuckets
        set_chatRateBuckets set_rooms set_burnedRooms set_sockets set_timers
        set_timerSeq set_dbPool]
    | match goal with
      | |- context [incrementMetric ?f ?s] =>
          rewrite (incrementMetric_only f s);
          generalize (dbPool (incrementMetric f s)); intro
      | |- context [ws_close ?w ?s] =>
          rewrite (ws_close_only w s);
          generalize (sockets (ws_close w s)); intro
      | |- context [burnLoop ?r ?cs ?s] =>
          let E := fresh "Eburn" in
          pose proof (burnLoop_only r cs s) as E;
          destruct (burnLoop r cs s) as [? ?]; cbn [fst snd] in E; rewrite E;
          clear E
      | |- context [let '(_, _) := ?x in _] => destruct x eqn:?
      | |- context [match ?x with _ => _ end] => destruct x eqn:?
      | |- context [if ?x then _ else _] => destruct x eqn:?
      end ].

Lemma handle_otmStore_frame (e : Event) (s : Server) :
  touches_otmStore e = false → otmStore (next (handle host e s)) = otmStore s.
Proof.
  destruct e; cbn [touches_otmStore handle]; intros ?; try done; handler_cases; done.
Qed.

Lemma handle_chatInviteStore_frame (e : Event) (s : Server) :
  touches_chatInviteStore e = false →
  chatInviteStore (next (handle host e s)) = chatInviteStore s.
Proof.
  destruct e; cbn [touches_chatInviteStore handle]; intros ?; try done;
    handler_cases; done.
Qed.

Lemma handle_registry_frame (e : Event) (s : Server) :
  touches_registry e = false →
  rooms (next (handle host e s)) = rooms s
  ∧ burnedRooms (next (handle host e s)) = burnedRooms s
  ∧ sockets (next (handle host e s)) = sockets s
  ∧ timers (next (handle host e s)) = timers s
  ∧ timerSeq (next (handle host e s)) = timerSeq s.
Proof.
  destruct e; cbn [touches_registry handle]; intros ?; try done;
    handler_cases; done.
Qed.

(** ** One-time messages *)

Lemma getOtm_buckets (now_rl now : Z) (ip id : string) (s : Server) :
  rateBuckets (next (getOtm now_rl now ip id s))
  = (RateLimit.checkRateLimit now_rl ip "get-otm" (rateBuckets s)).2.
Proof. handler_cases; done. Qed.

(** An admitted [GET /otm/{id}] always leaves [id] absent, and answers
    200 only with the ciphertext that was stored under [id]. *)
Lemma getOtm_take (now_rl now : Z) (ip id : string) (s : Server) :
  (RateLimit.checkRateLimit now_rl ip "get-otm" (rateBuckets s)).1 = true →
  otmStore (next (getOtm now_rl now ip id s)) !! id = None
  ∧ ∀ c, response (getOtm now_rl now ip id s) = Some (mkResponse 200 (BCiphertext c)) →
         ∃ entry, otmStore s !! id = Some entry ∧ otm_ciphertext entry = c
                  ∧ ¬ (OTM_TTL_MS < now - otm_createdAt entry).
Proof.
  intros Hok. unfold getOtm.
  destruct (RateLimit.checkRateLimit now_rl ip "get-otm" (rateBuckets s)) as [ok b].
  cbn in Hok; subst ok. cbn.
  destruct (otmStore s !! id) as [entry|] eqn:He; cbn.
  - case_bool_decide; cbn; (split; [apply lookup_delete_eq|]); intros c Hc; [done|].
    exists entry. repeat split; [congruence | done].
  - split; [done|]. intros c Hc. done.
Qed.

Lemma getOtm_absent (now_rl now : Z) (ip id : string) (s : Server) :
  otmStore s !! id = None →
  response (getOtm now_rl now ip id s)
  = (if (RateLimit.checkRateLimit now_rl ip "get-otm" (rateBuckets s)).1
     then Some (mkResponse 404 BUsed)
     else Some (mkResponse 429 (BError "Rate limit exceeded")))
  ∧ otmStore (next (getOtm now_rl now ip id s)) !! id = None.
Proof.
  intros Hnone. unfold getOtm.
  destruct (RateLimit.checkRateLimit now_rl ip "get-otm" (rateBuckets s)) as [[] b];
    cbn; rewrite Hnone; done.
Qed.

(** No handler but the [POST /otm] callback drawing [id] can make [id]
    present. *)
Lemma handle_otm_absent (id : string) (e : Event) (s : Server) :
  stores_otm id e = false →
  otmStore s !! id = None →
  otmStore (next (handle host e s)) !! id = None.
Proof.
  intros Hst Hnone.
  destruct (touches_otmStore e) eqn:Ht.
  - destruct e; try done; cbn [handle].
    + cbn in Hst. apply String.eqb_neq in Hst.
      unfold postOtm_end. repeat case_match; cbn; try done.
      rewrite incrementMetric_only. cbn. by rewrite lookup_insert_ne.
    + unfold getOtm. repeat case_match; cbn; try done;
        destruct (decide (id0 = id)) as [->|Hne];
        by rewrite ?lookup_delete_eq, ?lookup_delete_ne.
    + cbn. apply map_lookup_filter_None. left. done.
  - by rewrite handle_otmStore_frame.
Qed.

Lemma run_otm_absent (id : string) (evs : list Event) :
  ∀ s, Forall (λ e, stores_otm id e = false) evs →
       otmStore s !! id = None →
       otmStore (run host evs s) !! id = None.
Proof.
  induction evs as [|e evs IH]; intros s Hall Hnone; [done|].
  apply Forall_cons in Hall as [He Hall]. cbn.
  apply IH; [done|]. by apply handle_otm_absent.
Qed.

(** C1 (amended). When a [GET /otm/{id}] answers 200, its ciphertext is
    the one stored under [id] and the entry is deleted by the same
    handler; whatever runs afterwards (as long as no [POST /otm] draws
    the same id again), a later GET for [id] answers 404 [{used:true}]
    when the rate limiter admits it and 429 when it does not, so no
    second GET observes the entry. *)
Theorem otm_take_at_most_once
    (s : Server) (id ip ip' c : string) (now_rl now now_rl' now' : Z)
    (evs : list Event) :
  response (handle host (GetOtm now_rl now ip id) s)
  = Some (mkResponse 200 (BCiphertext c)) →
  Forall (λ e, stores_otm id e = false) evs →
  let s' := run host evs (next (handle host (GetOtm now_rl now ip id) s)) in
  (∃ entry, otmStore s !! id = Some entry ∧ otm_ciphertext entry = c)
  ∧ otmStore (next (handle host (GetOtm now_rl now ip id) s)) !! id = None
  ∧ response (handle host (GetOtm now_rl' now' ip' id) s')
    = (if (RateLimit.checkRateLimit now_rl' ip' "get-otm" (rateBuckets s')).1
       then Some (mkResponse 404 BUsed)
       else Some (mkResponse 429 (BError "Rate limit exceeded")))
  ∧ ∀ c', response (handle host (GetOtm now_rl' now' ip' id) s')
          ≠ Some (mkResponse 200 (BCiphertext c')).
Proof.
  intros H200 Hall s'. cbn [handle] in *.
  assert (Hok : (RateLimit.checkRateLimit now_rl ip "get-otm" (rateBuckets s)).1 = true).
  { revert H200. unfold getOtm.
    destruct (RateLimit.checkRateLimit now_rl ip "get-otm" (rateBuckets s)) as [[] b];
      cbn; done. }
  destruct (getOtm_take now_rl now ip id s Hok) as [Hgone Hct].
  destruct (Hct c H200) as (entry & He & Hc & _).
  assert (Habs : otmStore s' !! id = None) by (by apply run_otm_absent).
  destruct (getOtm_absent now_rl' now' ip' id s' Habs) as [Hresp _].
  repeat split; [by exists entry | done | done |].
  intros c'. rewrite Hresp. by case_match.
Qed.

(** ** Invites *)

Lemma truthy_Some (f : option string) :
  truthy f = true → ∃ v, f = Some v ∧ v ≠ EmptyString ∧ default EmptyString f = v.
Proof.
  destruct f as [v|]; cbn; [|done]. intros Hv. exists v.
  split; [done|]. split; [|done]. intros ->. done.
Qed.

Lemma nonempty_truthy (v : string) : v ≠ EmptyString → truthy (Some v) = true.
Proof. intros Hv. cbn. by destruct (String.eqb_spec v EmptyString). Qed.

(** A claim answers 200 only on a stored, unexpired, unclaimed invite,
    and then replaces the entry by its claimed version. *)
Lemma claimInvite_end_success (now : Z) (inviteId creator : string)
    (parsed : option (option string)) (s : Server) :
  response (claimInvite_end now inviteId parsed s)
  = Some (mkResponse 200 (BClaimed creator)) →
  ∃ entry bundle,
    parsed = Some (Some bundle) ∧ bundle ≠ EmptyString
    ∧ chatInviteStore s !! inviteId = Some entry
    ∧ claimed entry = false
    ∧ js_gt now (expiresAt entry) = false
    ∧ publicKeyBundle entry = creator
    ∧ chatInviteStore (next (claimInvite_end now inviteId parsed s))
      = <[inviteId := claimedBy bundle entry]> (chatInviteStore s).
Proof.
  unfold claimInvite_end. destruct parsed as [bundle|]; [|done].
  destruct (truthy bundle) eqn:Ht; [|done]. cbn [negb].
  destruct (truthy_Some _ Ht) as (b & -> & Hb & Hd).
  destruct (chatInviteStore s !! inviteId) as [entry|] eqn:He; [|done].
  destruct (js_gt now (expiresAt entry)) eqn:Hx; [done|].
  destruct (claimed entry) eqn:Hc; [done|]. cbn. intros [= <-].
  exists entry, b. repeat split; done.
Qed.

(** One turn of the event loop leaves a claimed entry as it is, or
    removes it. *)
Lemma handle_claimed_entry (inviteId : string) (e1 : InviteEntry)
    (e : Event) (s : Server) :
  claimed e1 = true →
  chatInviteStore s !! inviteId = Some e1 →
  chatInviteStore (next (handle host e s)) !! inviteId = Some e1
  ∨ chatInviteStore (next (handle host e s)) !! inviteId = None.
Proof.
  intros Hcl Hst.
  destruct (touches_chatInviteStore e) eqn:Ht;
    [|left; by rewrite handle_chatInviteStore_frame].
  destruct e; try done; cbn [handle].
  - (* create *)
    unfold postInvite_end. destruct parsed as [b|]; [|by left].
    destruct (negb (truthy (ib_inviteId b)) || negb (truthy (ib_publicKeyBundle b)));
      [by left|].
    destruct (decide (default EmptyString (ib_inviteId b) = inviteId)) as [->|Hne].
    + rewrite Hst. by left.
    + destruct (chatInviteStore s !! default EmptyString (ib_inviteId b)); [by left|].
      cbn. rewrite incrementMetric_only. cbn. left. by rewrite lookup_insert_ne.
  - (* get *)
    unfold getInvite. destruct (decide (inviteId0 = inviteId)) as [->|Hne].
    + rewrite Hst. destruct (js_gt now (expiresAt e1)); cbn; [right|by left].
      apply lookup_delete_eq.
    + destruct (chatInviteStore s !! inviteId0) as [e0|]; [|by left].
      destruct (js_gt now (expiresAt e0)); cbn; [|by left].
      left. by rewrite lookup_delete_ne.
  - (* claim *)
    unfold claimInvite_end. destruct parsed as [bundle|]; [|by left].
    destruct (negb (truthy bundle)); [by left|].
    destruct (decide (inviteId0 = inviteId)) as [->|Hne].
    + rewrite Hst. destruct (js_gt now (expiresAt e1)); cbn.
      * right. apply lookup_delete_eq.
      * rewrite Hcl. by left.
    + destruct (chatInviteStore s !! inviteId0) as [e0|]; [|by left].
      destruct (js_gt now (expiresAt e0)); cbn; [left; by rewrite lookup_delete_ne|].
      destruct (claimed e0); cbn; [by left|]. left. by rewrite lookup_insert_ne.
  - (* sweep *)
    cbn.
    destruct (decide (CHAT_INVITE_TTL_MS < now - createdAt e1)) as [Hold|Hyoung].
    + right. apply map_lookup_filter_None. right. intros x Hx. cbn.
      rewrite Hst in Hx. injection Hx as <-. tauto.
    + left. apply map_lookup_filter_Some. split; [done|]. done.
Qed.

(** Only a [POST /chat/invite] naming [inviteId] makes an absent
    [inviteId] present. *)
Lemma handle_invite_absent (inviteId : string) (e : Event) (s : Server) :
  stores_invite inviteId e = false →
  chatInviteStore s !! inviteId = None →
  chatInviteStore (next (handle host e s)) !! inviteId = None.
Proof.
  intros Hns Hnone.
  destruct (touches_chatInviteStore e) eqn:Ht;
    [|by rewrite handle_chatInviteStore_frame].
  destruct e; try done; cbn [handle].
  - unfold postInvite_end. destruct parsed as [b|]; [|done].
    cbn in Hns. apply bool_decide_eq_false in Hns.
    destruct (truthy (ib_inviteId b)) eqn:Hid; [|done].
    destruct (truthy_Some _ Hid) as (v & Hv & _ & Hd). rewrite Hd.
    destruct (negb (truthy (ib_publicKeyBundle b))); [done|]. cbn.
    destruct (chatInviteStore s !! v); [done|]. cbn.
    rewrite incrementMetric_only. cbn. rewrite lookup_insert_ne; [done|].
    intros ->. congruence.
  - unfold getInvite. destruct (chatInviteStore s !! inviteId0) as [e0|]; [|done].
    destruct (js_gt now (expiresAt e0)); cbn; [|done].
    destruct (decide (inviteId0 = inviteId)) as [->|Hne];
      by rewrite ?lookup_delete_eq, ?lookup_delete_ne.
  - unfold claimInvite_end. destruct parsed as [bundle|]; [|done].
    destruct (negb (truthy bundle)); [done|].
    destruct (decide (inviteId0 = inviteId)) as [->|Hne]; [by rewrite Hnone|].
    destruct (chatInviteStore s !! inviteId0) as [e0|]; [|done].
    destruct (js_gt now (expiresAt e0)); cbn; [by rewrite lookup_delete_ne|].
    destruct (claimed e0); cbn; [done|]. by rewrite lookup_insert_ne.
  - cbn. apply map_lookup_filter_None. by left.
Qed.

(** A [POST /chat/invite] callback that is not answered 201 does not
    make an absent [inviteId] present either. *)
Lemma handle_invite_not_created (inviteId : string) (e : Event) (s : Server) :
  stores_invite inviteId e && answered 201 (handle host e s) = false →
  chatInviteStore s !! inviteId = None →
  chatInviteStore (next (handle host e s)) !! inviteId = None.
Proof.
  intros Hnc Hnone.
  destruct (stores_invite inviteId e) eqn:Hst; [|by apply handle_invite_absent].
  cbn [andb] in Hnc. destruct e; try done. destruct parsed as [b|]; [|done].
  cbn in Hst. apply bool_decide_eq_true in Hst.
  revert Hnc. cbn [handle]. unfold postInvite_end, answered. rewrite Hst.
  destruct (truthy (Some inviteId)) eqn:Hid; [|done].
  destruct (truthy (ib_publicKeyBundle b)); [|done].
  cbn [negb orb default from_option]. unfold id. rewrite Hnone. cbn.
  by rewrite bool_decide_eq_true_2.
Qed.

Lemma run_app (evs evs' : list Event) (s : Server) :
  run host (evs ++ evs') s = run host evs' (run host evs s).
Proof. unfold run. apply fold_left_app. Qed.

(** Until an invite is created anew under its id, a claimed entry is
    still stored, unchanged, or gone. *)
Lemma run_claimed_entry (inviteId : string) (e1 : InviteEntry) (evs : list Event) :
  ∀ s, claimed e1 = true →
       recreates host inviteId evs s = false →
       chatInviteStore s !! inviteId = Some e1 ∨ chatInviteStore s !! inviteId = None →
       chatInviteStore (run host evs s) !! inviteId = Some e1
       ∨ chatInviteStore (run host evs s) !! inviteId = None.
Proof.
  induction evs as [|e evs IH]; intros s Hcl Hall Hst; [done|].
  cbn [recreates] in Hall. apply orb_false_iff in Hall as [He Hall].
  cbn. apply IH; [done|done|].
  destruct Hst as [Hst|Hst].
  - by apply handle_claimed_entry.
  - right. by apply handle_invite_not_created.
Qed.

(** C2 (amended). A claim answers 200 only on a stored, unexpired and
    unclaimed invite; it then sets [claimed], stores the claimer's bundle
    and returns the creator's bundle.  Afterwards, whatever runs (a
    [POST /chat/invite] for the same id that is answered 409 included),
    and until a [POST /chat/invite] for the id is answered 201, the
    entry is either still stored, unchanged (claimed, with that same
    claimer bundle), or gone.  A later claim request first meets the
    rate check of its route: when the check refuses, the request is
    answered 429 and only the client's rate bucket changes; its ["end"]
    callback never answers 200 again, whatever its body is, and with a
    claimer bundle it answers 409 while the entry is stored and
    unexpired and 404 once it has expired or was removed; a GET of the
    stored unexpired entry shows the claimer's bundle and leaves the
    store as it is. *)
Theorem invite_claim_once
    (s : Server) (inviteId creator bundle' ip : string) (now now' now_rl : Z)
    (parsed parsed' : option (option string)) (evs evs2 : list Event) :
  response (handle host (ClaimInviteEnd now inviteId parsed) s)
  = Some (mkResponse 200 (BClaimed creator)) →
  let s1 := next (handle host (ClaimInviteEnd now inviteId parsed) s) in
  recreates host inviteId (evs ++ ChatInviteBegin now_rl ip :: evs2) s1 = false →
  bundle' ≠ EmptyString →
  let s' := run host evs s1 in
  let check := RateLimit.checkChatRateLimit now_rl ip "invite" (chatRateBuckets s') in
  let request := handle host (ChatInviteBegin now_rl ip) s' in
  let s'' := run host evs2 (next request) in
  let again := handle host (ClaimInviteEnd now' inviteId (Some (Some bundle'))) s'' in
  let get := handle host (GetInvite now' inviteId) s'' in
  ∃ entry bundle,
    parsed = Some (Some bundle) ∧ bundle ≠ EmptyString
    ∧ chatInviteStore s !! inviteId = Some entry
    ∧ claimed entry = false
    ∧ js_gt now (expiresAt entry) = false
    ∧ publicKeyBundle entry = creator
    ∧ chatInviteStore s1 !! inviteId = Some (claimedBy bundle entry)
    ∧ response request
      = (if check.1 then None
         else Some (mkResponse 429 (BError "Rate limit exceeded")))
    ∧ next request = set_chatRateBuckets check.2 s'
    ∧ (∀ c, response (handle host (ClaimInviteEnd now' inviteId parsed') s'')
            ≠ Some (mkResponse 200 (BClaimed c)))
    ∧ match chatInviteStore s'' !! inviteId with
      | Some e' =>
          e' = claimedBy bundle entry
          ∧ response again
            = Some (if js_gt now' (expiresAt entry)
                    then mkResponse 404 (BError "Invite expired")
                    else mkResponse 409 (BError "Invite already claimed"))
          ∧ response get
            = Some (if js_gt now' (expiresAt entry)
                    then mkResponse 404 (BError "Invite expired")
                    else mkResponse 200
                           (BInviteView inviteId creator true (Some bundle)))
          ∧ (js_gt now' (expiresAt entry) = false →
             chatInviteStore (next get) = chatInviteStore s''
             ∧ chatInviteStore (next again) = chatInviteStore s'')
      | None =>
          response again = Some (mkResponse 404 (BError "Invite not found"))
          ∧ response get = Some (mkResponse 404 (BError "Invite not found"))
      end.
Proof.
  intros H200 s1 Hall Hb' s' check request s'' again get. cbn [handle] in H200.
  destruct (claimInvite_end_success _ _ _ _ _ H200)
    as (entry & bundle & -> & Hb & He & Hcl & Hx & Hpk & Hst).
  exists entry, bundle.
  assert (Hs1 : chatInviteStore s1 !! inviteId = Some (claimedBy bundle entry)).
  { subst s1. cbn [handle]. rewrite Hst. apply lookup_insert_eq. }
  repeat (split; [done|]).
  assert (Hrequest : response request
                     = (if check.1 then None
                        else Some (mkResponse 429 (BError "Rate limit exceeded")))
                     ∧ next request = set_chatRateBuckets check.2 s').
  { subst request check. cbn [handle]. unfold rateChecked, chatInvite_begin.
    by destruct (RateLimit.checkChatRateLimit now_rl ip "invite" _) as [[] ?]. }
  destruct Hrequest as [Hresp Hnext]. split; [done|]. split; [done|].
  assert (Htruthy : truthy (Some bundle') = true) by (by apply nonempty_truthy).
  assert (Hrun : recreates host inviteId (evs ++ [ChatInviteBegin now_rl ip] ++ evs2) s1
                 = false) by done.
  rewrite app_assoc in Hrun.
  assert (Hs'' : s'' = run host ((evs ++ [ChatInviteBegin now_rl ip]) ++ evs2) s1).
  { subst s'' request s'. by rewrite !run_app. }
  destruct (run_claimed_entry inviteId (claimedBy bundle entry) _ s1
              eq_refl Hrun (or_introl Hs1)) as [Hst''|Hst''];
    rewrite <- Hs'' in Hst''; rewrite Hst''.
  - split.
    { intros c. cbn [handle]. unfold claimInvite_end.
      destruct parsed' as [bundle2|]; [|done].
      destruct (negb (truthy bundle2)); [done|]. rewrite Hst''.
      cbn [claimedBy expiresAt claimed]. by destruct (js_gt now' (expiresAt entry)). }
    split; [done|]. subst again get. cbn [handle]. unfold claimInvite_end, getInvite.
    rewrite Htruthy, Hst''. cbn [negb claimedBy expiresAt claimed publicKeyBundle
      claimerBundle].
    destruct (js_gt now' (expiresAt entry)); cbn; rewrite ?Hpk; repeat split; done.
  - split.
    { intros c. cbn [handle]. unfold claimInvite_end.
      destruct parsed' as [bundle2|]; [|done].
      destruct (negb (truthy bundle2)); [done|]. by rewrite Hst''. }
    subst again get. cbn [handle]. unfold claimInvite_end, getInvite.
    rewrite Htruthy, Hst''. done.
Qed.

(** The sweep keeps exactly the entries created at most 24 h ago; it
    does not read [expiresAt]. *)
Lemma sweepInvites_by_age (now : Z) (inviteId : string) (entry : InviteEntry)
    (s : Server) :
  chatInviteStore (sweepInvites now s) !! inviteId = Some entry
  ↔ chatInviteStore s !! inviteId = Some entry
    ∧ now - createdAt entry ≤ CHAT_INVITE_TTL_MS.
Proof.
  unfold sweepInvites. cbn. rewrite map_lookup_filter_Some. cbn. split.
  - intros [? ?]. split; [done|lia].
  - intros [? ?]. split; [done|lia].
Qed.

(** One turn of the event loop, other than a sweep running more than
    24 h after its creation, keeps an entry whose expiry is [NaN] in the
    store, with its expiry, creation time and creator bundle. *)
Lemma handle_nan_entry (inviteId : string) (e0 : InviteEntry) (e : Event) (s : Server) :
  expiresAt e0 = NaN →
  late_sweep (createdAt e0) e = false →
  chatInviteStore s !! inviteId = Some e0 →
  ∃ e1, chatInviteStore (next (handle host e s)) !! inviteId = Some e1
        ∧ expiresAt e1 = NaN ∧ createdAt e1 = createdAt e0
        ∧ publicKeyBundle e1 = publicKeyBundle e0.
Proof.
  intros Hnan Hlate Hst.
  destruct (touches_chatInviteStore e) eqn:Ht;
    [|exists e0; by rewrite handle_chatInviteStore_frame].
  destruct e; try done; cbn [handle].
  - unfold postInvite_end. destruct parsed as [b|]; [|by exists e0].
    destruct (negb (truthy (ib_inviteId b)) || negb (truthy (ib_publicKeyBundle b)));
      [by exists e0|].
    destruct (decide (default EmptyString (ib_inviteId b) = inviteId)) as [->|Hne].
    + rewrite Hst. by exists e0.
    + destruct (chatInviteStore s !! default EmptyString (ib_inviteId b)); [by exists e0|].
      cbn. rewrite incrementMetric_only. cbn. exists e0. by rewrite lookup_insert_ne.
  - unfold getInvite. destruct (decide (inviteId0 = inviteId)) as [->|Hne].
    + rewrite Hst, Hnan. cbn. by exists e0.
    + destruct (chatInviteStore s !! inviteId0) as [e'|]; [|by exists e0].
      destruct (js_gt now (expiresAt e')); cbn; [|by exists e0].
      exists e0. by rewrite lookup_delete_ne.
  - unfold claimInvite_end. destruct parsed as [bundle|]; [|by exists e0].
    destruct (negb (truthy bundle)); [by exists e0|].
    destruct (decide (inviteId0 = inviteId)) as [->|Hne].
    + rewrite Hst, Hnan. cbn. destruct (claimed e0); cbn; [by exists e0|].
      eexists. rewrite lookup_insert_eq. split; [done|]. by cbn.
    + destruct (chatInviteStore s !! inviteId0) as [e'|]; [|by exists e0].
      destruct (js_gt now (expiresAt e')); cbn;
        [exists e0; by rewrite lookup_delete_ne|].
      destruct (claimed e'); cbn; [by exists e0|].
      exists e0. by rewrite lookup_insert_ne.
  - cbn in Hlate. apply bool_decide_eq_false in Hlate.
    exists e0. split; [|done]. apply sweepInvites_by_age. split; [done|lia].
Qed.

Lemma run_nan_entry (inviteId : string) (created : Z) (pk : string)
    (evs : list Event) :
  ∀ s e0,
    Forall (λ e, late_sweep created e = false) evs →
    chatInviteStore s !! inviteId = Some e0 →
    expiresAt e0 = NaN → createdAt e0 = created → publicKeyBundle e0 = pk →
    ∃ e1, chatInviteStore (run host evs s) !! inviteId = Some e1
          ∧ expiresAt e1 = NaN ∧ createdAt e1 = created ∧ publicKeyBundle e1 = pk.
Proof.
  induction evs as [|e evs IH]; intros s e0 Hall Hst Hnan Hc Hpk; [by exists e0|].
  apply Forall_cons in Hall as [He Hall]. cbn.
  destruct (handle_nan_entry inviteId e0 e s Hnan) as (e1 & Hst1 & Hnan1 & Hc1 & Hpk1);
    [by rewrite Hc | done |].
  apply (IH _ e1); [done | done | done | congruence | congruence].
Qed.

(** C10 (amended). A truthy [expiresAt] (not [0], not the empty
    string) that is not a date, one whose
    [new Date(expiresAt).getTime()] is [NaN], gives the stored invite a
    [NaN] expiry; neither GET nor claim then ever report
    the invite expired (GET answers 200, claim never 404) or delete it,
    whatever the clock reads, and the entry stays in the store until a
    sweep that runs more than 24 h after its [createdAt], which removes
    it. *)
Theorem invite_nan_expiry
    (s : Server) (now now' : Z) (b : InviteBody) (inviteId pk : string)
    (evs : list Event) :
  ib_inviteId b = Some inviteId → inviteId ≠ EmptyString →
  ib_publicKeyBundle b = Some pk → pk ≠ EmptyString →
  expiresTruthy (ib_expiresAt b) = true →
  dateGetTime host (ib_expiresAt b) = NaN →
  chatInviteStore s !! inviteId = None →
  Forall (λ e, late_sweep now' e = false) evs →
  let s1 := next (handle host (PostInviteEnd now now' (Some b)) s) in
  let s' := run host evs s1 in
  chatInviteStore s1 !! inviteId = Some (mkInviteEntry pk NaN now' false None)
  ∧ ∃ e1, chatInviteStore s' !! inviteId = Some e1
      ∧ expiresAt e1 = NaN ∧ createdAt e1 = now'
      ∧ (∀ t, response (handle host (GetInvite t inviteId) s')
              = Some (mkResponse 200
                        (BInviteView inviteId pk (claimed e1) (claimerBundle e1)))
              ∧ next (handle host (GetInvite t inviteId) s') = s')
      ∧ (∀ t parsed,
           (∀ msg, response (handle host (ClaimInviteEnd t inviteId parsed) s')
                   ≠ Some (mkResponse 404 (BError msg)))
           ∧ is_Some (chatInviteStore
                        (next (handle host (ClaimInviteEnd t inviteId parsed) s'))
                      !! inviteId))
      ∧ (∀ t, chatInviteStore (next (handle host (SweepInvites t) s')) !! inviteId
              = if bool_decide (CHAT_INVITE_TTL_MS < t - now') then None else Some e1).
Proof.
  intros Hid Hidne Hpk Hpkne Hexp Hparse Hfree Hall s1 s'.
  assert (Hs1 : chatInviteStore s1 !! inviteId
                = Some (mkInviteEntry pk NaN now' false None)).
  { subst s1. cbn [handle]. unfold postInvite_end.
    rewrite Hid, Hpk, !nonempty_truthy by done. unfold inviteExpiry.
    rewrite Hexp, Hparse. cbn [default from_option negb orb]. unfold id.
    rewrite Hfree. cbn. rewrite incrementMetric_only. cbn.
    apply lookup_insert_eq. }
  split; [done|].
  assert (∃ e1, chatInviteStore s' !! inviteId = Some e1
                ∧ expiresAt e1 = NaN ∧ createdAt e1 = now' ∧ publicKeyBundle e1 = pk)
    as (e1 & Hs' & Hnan & Hc & Hpk1)
    by exact (run_nan_entry inviteId now' pk evs s1 _ Hall Hs1 eq_refl eq_refl eq_refl).
  clearbody s'. exists e1. repeat (split; [done|]). split; [|split].
  - intros t. cbn [handle]. unfold getInvite. rewrite Hs', Hnan. cbn.
    by rewrite Hpk1.
  - intros t parsed. cbn [handle]. unfold claimInvite_end, reply.
    destruct parsed as [bundle|];
      [|cbn; rewrite Hs'; split; [intros msg; congruence | by eexists]].
    destruct (negb (truthy bundle));
      [cbn; rewrite Hs'; split; [intros msg; congruence | by eexists]|].
    rewrite Hs', Hnan. cbn.
    destruct (claimed e1); cbn;
      [rewrite Hs'; split; [intros msg; congruence | by eexists]|].
    split; [intros msg; congruence|]. rewrite lookup_insert_eq. by eexists.
  - intros t. cbn [handle silent next]. case_bool_decide as Hage.
    + destruct (chatInviteStore (sweepInvites t s') !! inviteId) as [e2|] eqn:E;
        [|done].
      apply sweepInvites_by_age in E as [E Hyoung].
      rewrite Hs' in E. injection E as <-. lia.
    + apply sweepInvites_by_age. split; [done|lia].
Qed.

(** ** Mailboxes *)


(** A repeated [messageId] makes the enqueue return before it touches
    anything. *)
Lemma postMessage_end_duplicate (now : Z) (b : MessageBody)
    (to enc messageId : string) (s : Server) :
  enqueues b to enc messageId →
  hasMessage (chatMessageStore s) to messageId = true →
  postMessage_end now (Some b) s = mkOutcome (Some (mkResponse 200 BDuplicate)) [] s.
Proof.
  intros (Hto & Hto' & Henc & Henc' & Hid & Hid') Hdup.
  unfold postMessage_end. rewrite Hto, Henc, Hid.
  rewrite !nonempty_truthy by done. cbn [negb orb default from_option]. unfold id.
  unfold hasMessage in Hdup.
  destruct (chatMessageStore s !! to) as [messages|] eqn:Hbox; [|done].
  rewrite Hbox. cbn [default from_option] in *. unfold id in *. by rewrite Hdup.
Qed.

(** A new [messageId] is appended to the mailbox of [to], which is
    created when absent; no other mailbox changes. *)
Lemma postMessage_end_fresh (now : Z) (b : MessageBody)
    (to enc messageId : string) (s : Server) :
  enqueues b to enc messageId →
  hasMessage (chatMessageStore s) to messageId = false →
  response (postMessage_end now (Some b) s) = Some (mkResponse 201 BSuccess)
  ∧ chatMessageStore (next (postMessage_end now (Some b) s))
    = <[to := default [] (chatMessageStore s !! to)
              ++ [mkMessage messageId (or_default (mb_from b) "unknown") enc now]]>
        (chatMessageStore s).
Proof.
  intros (Hto & Hto' & Henc & Henc' & Hid & Hid') Hnew.
  unfold postMessage_end. rewrite Hto, Henc, Hid.
  rewrite !nonempty_truthy by done. cbn [negb orb default from_option]. unfold id.
  unfold hasMessage in Hnew.
  destruct (chatMessageStore s !! to) as [messages|] eqn:Hbox.
  - rewrite Hbox. cbn [default from_option] in *. unfold id in *. rewrite Hnew.
    cbn. rewrite incrementMetric_only. done.
  - cbn [chatMessageStore set_chatMessageStore]. rewrite lookup_insert_eq.
    cbn [default from_option existsb]. unfold id.
    cbn. rewrite incrementMetric_only. cbn. by rewrite insert_insert_eq.
Qed.

(** C4. A [POST /chat/message] whose [messageId] is already in the
    mailbox of its recipient answers 200 with [duplicate:true], sends no
    frame on any socket and leaves the whole state as it was: the
    mailbox (size and contents) and the [chat_messages_sent] total
    included. *)
Theorem enqueue_duplicate_noop (now : Z) (b : MessageBody)
    (to enc messageId : string) (s : Server) :
  enqueues b to enc messageId →
  hasMessage (chatMessageStore s) to messageId = true →
  let o := handle host (PostMessageEnd now (Some b)) s in
  response o = Some (mkResponse 200 BDuplicate)
  ∧ sent o = []
  ∧ next o = s
  ∧ chatMessageStore (next o) !! to = chatMessageStore s !! to
  ∧ dbPool (next o) = dbPool s.
Proof.
  intros Hb Hdup o. subst o. cbn [handle].
  rewrite (postMessage_end_duplicate now b to enc messageId s Hb Hdup). done.
Qed.

Lemma hasMessage_insert_ne (store : gmap string (list Message))
    (to to' messageId : string) (messages : list Message) :
  to ≠ to' →
  hasMessage (<[to := messages]> store) to' messageId = hasMessage store to' messageId.
Proof. intros Hne. unfold hasMessage. by rewrite lookup_insert_ne. Qed.

(** C9. Deduplication is per recipient: the same [messageId] sent to two
    different recipients whose mailboxes do not hold it is stored in both
    mailboxes, both requests answering 201; sending it once more to
    either of them answers 200 with [duplicate:true]. *)
Theorem dedup_is_per_recipient (now1 now2 now3 : Z) (b1 b2 : MessageBody)
    (to1 to2 enc1 enc2 messageId : string) (s : Server) :
  enqueues b1 to1 enc1 messageId →
  enqueues b2 to2 enc2 messageId →
  to1 ≠ to2 →
  hasMessage (chatMessageStore s) to1 messageId = false →
  hasMessage (chatMessageStore s) to2 messageId = false →
  let o1 := handle host (PostMessageEnd now1 (Some b1)) s in
  let o2 := handle host (PostMessageEnd now2 (Some b2)) (next o1) in
  let m1 := mkMessage messageId (or_default (mb_from b1) "unknown") enc1 now1 in
  let m2 := mkMessage messageId (or_default (mb_from b2) "unknown") enc2 now2 in
  response o1 = Some (mkResponse 201 BSuccess)
  ∧ response o2 = Some (mkResponse 201 BSuccess)
  ∧ chatMessageStore (next o2) !! to1
    = Some (default [] (chatMessageStore s !! to1) ++ [m1])
  ∧ chatMessageStore (next o2) !! to2
    = Some (default [] (chatMessageStore s !! to2) ++ [m2])
  ∧ response (handle host (PostMessageEnd now3 (Some b1)) (next o2))
    = Some (mkResponse 200 BDuplicate)
  ∧ response (handle host (PostMessageEnd now3 (Some b2)) (next o2))
    = Some (mkResponse 200 BDuplicate).
Proof.
  intros Hb1 Hb2 Hne Hnew1 Hnew2 o1 o2 m1 m2. subst o1 o2. cbn [handle].
  destruct (postMessage_end_fresh now1 b1 to1 enc1 messageId s Hb1 Hnew1)
    as [Hr1 Hs1].
  assert (Hnew2' : hasMessage
            (chatMessageStore (next (postMessage_end now1 (Some b1) s))) to2 messageId
          = false).
  { rewrite Hs1. by rewrite hasMessage_insert_ne. }
  destruct (postMessage_end_fresh now2 b2 to2 enc2 messageId _ Hb2 Hnew2')
    as [Hr2 Hs2].
  assert (Hbox1 : chatMessageStore (next (postMessage_end now2 (Some b2)
                     (next (postMessage_end now1 (Some b1) s)))) !! to1
                  = Some (default [] (chatMessageStore s !! to1) ++ [m1])).
  { rewrite Hs2, Hs1. rewrite lookup_insert_ne by done. apply lookup_insert_eq. }
  assert (Hbox2 : chatMessageStore (next (postMessage_end now2 (Some b2)
                     (next (postMessage_end now1 (Some b1) s)))) !! to2
                  = Some (default [] (chatMessageStore s !! to2) ++ [m2])).
  { rewrite Hs2, Hs1. rewrite lookup_insert_eq. by rewrite lookup_insert_ne. }
  repeat (split; [done|]). split.
  - erewrite postMessage_end_duplicate; [done | exact Hb1 |].
    unfold hasMessage. rewrite Hbox1. cbn. rewrite existsb_app. cbn.
    rewrite String.eqb_refl. by rewrite orb_true_r.
  - erewrite postMessage_end_duplicate; [done | exact Hb2 |].
    unfold hasMessage. rewrite Hbox2. cbn. rewrite existsb_app. cbn.
    rewrite String.eqb_refl. by rewrite orb_true_r.
Qed.

(** The filter of the acknowledgement keeps the messages whose id is not
    in [messageIds]. *)
Lemma ack_filter (messageIds : list string) (messages : list Message) :
  filter (λ m, negb (existsb (String.eqb (m_id m)) messageIds) = true) messages
  = filter (λ m, m_id m ∉ messageIds) messages.
Proof.
  apply list_filter_iff. intros m. rewrite negb_true_iff.
  split.
  - intros Hex Hin. apply list_elem_of_In in Hin.
    assert (existsb (String.eqb (m_id m)) messageIds = true); [|congruence].
    apply existsb_exists. exists (m_id m). split; [done|apply String.eqb_refl].
  - intros Hnin. destruct (existsb _ _) eqn:Hex; [|done].
    apply existsb_exists in Hex as (x & Hin & Heq).
    apply String.eqb_eq in Heq as <-. apply list_elem_of_In in Hin. done.
Qed.

(** What [ackMailbox] leaves under every key. *)
Lemma ackMailbox_lookup (fingerprint fp : string) (messageIds : list string)
    (store : gmap string (list Message)) :
  ackMailbox fingerprint messageIds store !! fp
  = if decide (fp = fingerprint)
    then match filter (λ m, m_id m ∉ messageIds) (default [] (store !! fingerprint)) with
         | [] => None
         | remaining => Some remaining
         end
    else store !! fp.
Proof.
  unfold ackMailbox. destruct (store !! fingerprint) as [messages|] eqn:Hbox.
  - rewrite ack_filter. cbn [default from_option]. unfold id.
    destruct (filter _ messages) as [|m rest] eqn:Hrem; cbn [length].
    + rewrite bool_decide_eq_true_2 by done. case_decide as Hfp.
      * subst. apply lookup_delete_eq.
      * by rewrite lookup_delete_ne.
    + rewrite bool_decide_eq_false_2 by done. case_decide as Hfp.
      * subst. apply lookup_insert_eq.
      * by rewrite lookup_insert_ne.
  - cbn. case_decide; [by subst|done].
Qed.

(** C7. An acknowledgement for [fingerprint] with the array
    [messageIds] answers 200 [{success:true}] whether or not the mailbox
    exists; it removes from that mailbox exactly the messages whose id
    is in [messageIds], keeping the others in their order, drops the key
    when nothing remains, and leaves every other mailbox and the rest of
    the state alone.  The ["ack"] frame of a chat socket does the same
    to the mailbox of its fingerprint. *)
Theorem ack_removes_exactly (b : AckBody) (fingerprint : string)
    (messageIds : list string) (s : Server) :
  ab_fingerprint b = Some fingerprint → fingerprint ≠ EmptyString →
  ab_messageIds b = Some messageIds →
  let o := handle host (AckMessagesEnd (Some b)) s in
  let old := default [] (chatMessageStore s !! fingerprint) in
  let remaining := filter (λ m, m_id m ∉ messageIds) old in
  response o = Some (mkResponse 200 BSuccess)
  ∧ sent o = []
  ∧ next o = set_chatMessageStore (chatMessageStore (next o)) s
  ∧ chatMessageStore (next o) !! fingerprint
    = match remaining with [] => None | _ => Some remaining end
  ∧ (∀ m, m ∈ remaining ↔ m ∈ old ∧ m_id m ∉ messageIds)
  ∧ remaining `sublist_of` old
  ∧ (∀ fp, fp ≠ fingerprint →
           chatMessageStore (next o) !! fp = chatMessageStore s !! fp)
  ∧ ∀ (w : nat) (data : list Byte.byte) (st : Z) (fields : list (string * json))
      (items : list json),
      sockets s !! w = Some (mkSocket st (ChatSocket fingerprint)) → st ≠ 3 →
      JSON_parse host (toString_utf8 host data) = Some (JObject fields) →
      assoc "type" fields = Some (JString "ack") →
      assoc "messageIds" fields = Some (JArray items) →
      stringItems items = messageIds →
      handle host (WsMessage w data false) s = mkOutcome None [] (next o).
Proof.
  intros Hfp Hne Hids o old remaining. subst o. cbn [handle].
  unfold ackMessages_end. rewrite Hids, Hfp, (nonempty_truthy _ Hne).
  cbn [default from_option reply response sent next chatMessageStore
       set_chatMessageStore]. unfold id.
  split; [done|]. split; [done|]. split; [reflexivity|].
  split; [|split; [|split; [|split]]].
  - rewrite ackMailbox_lookup. rewrite decide_True by done.
    subst remaining old. by destruct (filter _ _).
  - intros m. subst remaining. rewrite list_elem_of_filter. tauto.
  - apply sublist_filter.
  - intros fp Hfp'. rewrite ackMailbox_lookup. by rewrite decide_False.
  - intros w data st fields items Hw Hst Hparse Htype Hitems Hstr.
    rewrite Hw. rewrite bool_decide_eq_false_2 by done.
    unfold chatMessage. rewrite Hparse. cbn [prop]. rewrite Hitems, Htype.
    cbn [is_string]. rewrite String.eqb_refl. by rewrite Hstr.
Qed.

(** ** Rooms *)

Lemma is_string_spec (v : option json) (lit : string) :
  is_string v lit = true ↔ v = Some (JString lit).
Proof.
  destruct v as [[| | |x| |]|]; cbn; try (split; [done|congruence]).
  rewrite String.eqb_eq. split; [by intros -> | congruence].
Qed.

(** The guard of the burn branch holds exactly for the control-frame
    shape. *)
Lemma isBurnFrame_spec (parsed : option json) (roomId : string) :
  isBurnFrame parsed roomId = true ↔ burnShape parsed roomId.
Proof.
  unfold isBurnFrame, burnShape. destruct parsed as [j|].
  - rewrite !andb_true_iff, !is_string_spec. split.
    + intros [[[Ht Htype] Haction] Hroom].
      destruct j; cbn in Htype; try done. by exists fields.
    + intros (fields & [= ->] & Htype & Haction & Hroom). cbn. done.
  - split; [done|]. by intros (fields & ? & _).
Qed.

Lemma list_elem_of_map_pair (f : Frame) (g : Frame) (c : nat) (cs : list nat) :
  (c, g) ∈ map (λ x, (x, f)) cs ↔ g = f ∧ c ∈ cs.
Proof.
  rewrite list_elem_of_In, in_map_iff. split.
  - intros (x & [= -> ->] & Hin). split; [done|]. by apply list_elem_of_In.
  - intros [-> Hin]. exists c. split; [done|]. by apply list_elem_of_In.
Qed.


(** ** The registry invariant *)

Lemma live_le_refl (socks : gmap nat Socket) : live_le socks socks.
Proof. intros w st r Hw Hst. by exists st. Qed.

Lemma live_le_trans (a b c : gmap nat Socket) :
  live_le a b → live_le b c → live_le a c.
Proof.
  intros Hab Hbc w st r Hw Hst.
  destruct (Hbc w st r Hw Hst) as (st1 & Hw1 & Hst1). by apply (Hab w st1 r).
Qed.

Lemma ws_close_lookup (w w' : nat) (s : Server) :
  sockets (ws_close w s) !! w'
  = match sockets s !! w' with
    | Some sock =>
        Some (if bool_decide (w' = w ∧ (readyState sock = 0 ∨ readyState sock = 1))
              then mkSocket 2 (kind sock) else sock)
    | None => None
    end.
Proof.
  unfold ws_close. destruct (decide (w' = w)) as [->|Hne].
  - destruct (sockets s !! w) as [sock|] eqn:Hw; [|by rewrite Hw].
    case_bool_decide as Hst.
    + cbn. rewrite lookup_insert_eq. by rewrite bool_decide_eq_true_2.
    + rewrite Hw. rewrite bool_decide_eq_false_2; [done|]. tauto.
  - destruct (sockets s !! w) as [sock|] eqn:Hw.
    + case_bool_decide; cbn; rewrite ?lookup_insert_ne by done;
        destruct (sockets s !! w') as [sock'|]; try done;
        rewrite bool_decide_eq_false_2; try done; tauto.
    + destruct (sockets s !! w') as [sock'|]; [|done].
      rewrite bool_decide_eq_false_2; [done|]. tauto.
Qed.

Lemma ws_close_live (w : nat) (s : Server) :
  live_le (sockets s) (sockets (ws_close w s)).
Proof.
  intros w' st' r Hw' Hst'. rewrite ws_close_lookup in Hw'.
  destruct (sockets s !! w') as [[st0 k0]|]; [|done].
  case_bool_decide as Hc; cbn in *.
  - injection Hw' as <- ->. exists st0. split; [done|]. lia.
  - injection Hw' as -> ->. by exists st'.
Qed.

Lemma isOpen_ws_close (w w' : nat) (s : Server) :
  isOpen (ws_close w s) w' = isOpen s w' && negb (bool_decide (w' = w)).
Proof.
  unfold isOpen. rewrite ws_close_lookup.
  destruct (sockets s !! w') as [[st0 k0]|]; [|done]. cbn.
  destruct (decide (w' = w)) as [->|Hne].
  - rewrite (bool_decide_eq_true_2 (w = w)) by done. cbn. rewrite andb_false_r.
    destruct (decide (st0 = 0 ∨ st0 = 1)) as [Hc|Hc].
    + rewrite (bool_decide_eq_true_2 (w = w ∧ _)) by done. cbn.
      apply bool_decide_eq_false_2. lia.
    + rewrite (bool_decide_eq_false_2 (w = w ∧ _)) by tauto. cbn.
      apply bool_decide_eq_false_2. intros ->. tauto.
  - rewrite (bool_decide_eq_false_2 (w' = w)) by done. cbn. rewrite andb_true_r.
    rewrite (bool_decide_eq_false_2 (w' = w ∧ _)) by tauto. done.
Qed.

Lemma burnLoop_live (roomId : string) (cs : list nat) :
  ∀ s, live_le (sockets s) (sockets (burnLoop roomId cs s).2).
Proof.
  induction cs as [|c cs IH]; intros s; cbn; [apply live_le_refl|].
  specialize (IH (ws_close c s)).
  destruct (burnLoop roomId cs (ws_close c s)) as [outs s']. cbn in *.
  eapply live_le_trans; [apply ws_close_live | exact IH].
Qed.

(** The burn loop sends [roomDestroyed], and nothing else, to the
    clients that are open when the loop starts. *)
Lemma burnLoop_sent (roomId : string) (cs : list nat) :
  ∀ s c f, (c, f) ∈ (burnLoop roomId cs s).1
           ↔ f = FRoomDestroyed roomId ∧ c ∈ cs ∧ isOpen s c = true.
Proof.
  induction cs as [|c0 cs IH]; intros s c f; cbn.
  - split; [by intros ?%elem_of_nil | by intros (_ & ?%elem_of_nil & _)].
  - specialize (IH (ws_close c0 s) c f).
    destruct (burnLoop roomId cs (ws_close c0 s)) as [outs s']. cbn in *.
    rewrite elem_of_app, IH, isOpen_ws_close, elem_of_cons. unfold ws_send.
    destruct (decide (c = c0)) as [->|Hne].
    + rewrite (bool_decide_eq_true_2 (c0 = c0)) by done. cbn. rewrite andb_false_r.
      destruct (isOpen s c0).
      * rewrite list_elem_of_singleton. split; [|intros (-> & _ & _); by left].
        intros [[= ->]|(_ & _ & ?)]; [by repeat split; try left | done].
      * split; [|by intros (_ & _ & ?)].
        intros [?%elem_of_nil|(_ & _ & ?)]; done.
    + rewrite (bool_decide_eq_false_2 (c = c0)) by done. cbn. rewrite andb_true_r.
      split.
      * intros [Hin|(-> & Hin & Ho)]; [|by repeat split; try right].
        destruct (isOpen s c0); [|by apply elem_of_nil in Hin].
        apply list_elem_of_singleton in Hin. congruence.
      * intros (-> & [?|Hin] & Ho); [done|]. by right.
Qed.

Lemma filter_isOpen_ws_close (c0 : nat) (cs : list nat) (s : Server) :
  c0 ∉ cs →
  filter (λ c, isOpen (ws_close c0 s) c = true) cs
  = filter (λ c, isOpen s c = true) cs.
Proof.
  induction cs as [|c cs IH]; intros Hnotin; [done|].
  apply not_elem_of_cons in Hnotin as [Hne Hnotin].
  rewrite !filter_cons, IH by done. rewrite isOpen_ws_close.
  rewrite (bool_decide_eq_false_2 (c = c0)) by done. cbn. by rewrite andb_true_r.
Qed.

(** With each client listed once, these are the frames in order. *)
Lemma burnLoop_sent_NoDup (roomId : string) (cs : list nat) :
  ∀ s, NoDup cs →
       (burnLoop roomId cs s).1
       = map (λ c, (c, FRoomDestroyed roomId)) (filter (λ c, isOpen s c = true) cs).
Proof.
  induction cs as [|c0 cs IH]; intros s Hnd; [done|].
  apply NoDup_cons in Hnd as [Hnotin Hnd].
  specialize (IH (ws_close c0 s) Hnd). cbn [burnLoop].
  destruct (burnLoop roomId cs (ws_close c0 s)) as [outs s']. cbn [fst snd] in *.
  rewrite IH.
  rewrite filter_isOpen_ws_close by done. unfold ws_send. rewrite filter_cons.
  destruct (isOpen s c0); [by rewrite decide_True | by rewrite decide_False].
Qed.

Lemma burnLoop_stays_closed (roomId : string) (cs : list nat) :
  ∀ s c, isOpen s c = false → isOpen (burnLoop roomId cs s).2 c = false.
Proof.
  induction cs as [|c0 cs IH]; intros s c Hc; cbn; [done|].
  specialize (IH (ws_close c0 s) c).
  destruct (burnLoop roomId cs (ws_close c0 s)) as [outs s']. cbn in *.
  apply IH. by rewrite isOpen_ws_close, Hc.
Qed.

(** After the loop no client is open. *)
Lemma burnLoop_closed (roomId : string) (cs : list nat) :
  ∀ s c, c ∈ cs → isOpen (burnLoop roomId cs s).2 c = false.
Proof.
  induction cs as [|c0 cs IH]; intros s c Hin; [by apply elem_of_nil in Hin|].
  cbn. pose proof (IH (ws_close c0 s) c) as IHc.
  pose proof (burnLoop_stays_closed roomId cs (ws_close c0 s) c) as Hstay.
  destruct (burnLoop roomId cs (ws_close c0 s)) as [outs s']. cbn in *.
  apply elem_of_cons in Hin as [->|Hin]; [|by apply IHc].
  apply Hstay. rewrite isOpen_ws_close.
  rewrite (bool_decide_eq_true_2 (c0 = c0)) by done. apply andb_false_r.
Qed.

Lemma addClient_elem (w c : nat) (cs : list nat) :
  c ∈ addClient w cs ↔ c = w ∨ c ∈ cs.
Proof.
  unfold addClient. case_bool_decide as Hin.
  - split; [by right|]. intros [->|?]; done.
  - rewrite elem_of_app, list_elem_of_singleton. tauto.
Qed.

Lemma addClient_NoDup (w : nat) (cs : list nat) : NoDup cs → NoDup (addClient w cs).
Proof.
  intros Hnd. unfold addClient. case_bool_decide as Hin; [done|].
  apply NoDup_app. split; [done|]. split; [|apply NoDup_singleton].
  intros x Hx ->%list_elem_of_singleton. done.
Qed.

Section Registry.

Context (rms : gmap string Room) (burned : gset string)
  (socks : gmap nat Socket) (tms : gmap nat string) (seq : nat).
Hypothesis Hok : registry_ok rms burned socks tms seq.

(** Sockets may stop being live. *)
Lemma ok_live (socks' : gmap nat Socket) :
  live_le socks socks' → registry_ok rms burned socks' tms seq.
Proof.
  intros Hle. destruct Hok as [Hb Hm Ht Hs Hn]. split; try done.
  intros w st r Hw Hst. destruct (Hle w st r Hw Hst) as (st0 & Hw0 & Hst0).
  by apply (Hm w st0 r).
Qed.

(** A room with a live socket has no destruction timer pending. *)
Lemma live_no_timer (w : nat) (st : Z) (r : string) :
  socks !! w = Some (mkSocket st (RoomSocket r)) → st ≠ 3 →
  ∀ h, tms !! h = Some r → False.
Proof.
  intros Hw Hst h Hh. destruct Hok as [Hb Hm Ht Hs Hn].
  destruct (Ht h r Hh) as (room & Hroom & Hempty & _).
  destruct (Hm w st r Hw Hst) as [Hburned|(room' & Hroom' & Hin)].
  - rewrite (Hb r Hburned) in Hroom. done.
  - rewrite Hroom in Hroom'. injection Hroom' as <-. rewrite Hempty in Hin.
    by apply elem_of_nil in Hin.
Qed.

(** The burn requested by a live room socket. *)
Lemma ok_burn (w : nat) (st : Z) (r : string) :
  socks !! w = Some (mkSocket st (RoomSocket r)) → st ≠ 3 →
  registry_ok (delete r rms) ({[r]} ∪ burned) socks tms seq.
Proof.
  intros Hw Hst. pose proof (live_no_timer w st r Hw Hst) as Hnot.
  destruct Hok as [Hb Hm Ht Hs Hn]. split.
  - intros r' [->%elem_of_singleton|Hin]%elem_of_union.
    + apply lookup_delete_eq.
    + destruct (decide (r' = r)) as [->|Hne]; [apply lookup_delete_eq|].
      rewrite lookup_delete_ne by done. by apply Hb.
  - intros w' st' r' Hw' Hst'.
    destruct (decide (r' = r)) as [->|Hne]; [left; set_solver|].
    destruct (Hm w' st' r' Hw' Hst') as [?|(room & Hroom & Hin)]; [left; set_solver|].
    right. exists room. by rewrite lookup_delete_ne.
  - intros h r' Hh. destruct (decide (r' = r)) as [->|Hne].
    + exfalso. by apply (Hnot h).
    + destruct (Ht h r' Hh) as (room & Hroom & ?). exists room.
      by rewrite lookup_delete_ne.
  - done.
  - intros r' room Hroom. apply lookup_delete_Some in Hroom as [_ Hroom].
    by apply (Hn r').
Qed.

(** The destruction timer [h] fires. *)
Lemma ok_timer_fired (h : nat) (r : string) :
  tms !! h = Some r →
  registry_ok (delete r rms) burned socks (delete h tms) seq.
Proof.
  intros Hh. pose proof live_no_timer as Hnot.
  destruct Hok as [Hb Hm Ht Hs Hn]. split.
  - intros r' Hin. destruct (decide (r' = r)) as [->|Hne]; [apply lookup_delete_eq|].
    rewrite lookup_delete_ne by done. by apply Hb.
  - intros w st r' Hw Hst. destruct (decide (r' = r)) as [->|Hne].
    + exfalso. by apply (Hnot w st r Hw Hst h).
    + destruct (Hm w st r' Hw Hst) as [?|(room & Hroom & Hin)]; [by left|].
      right. exists room. by rewrite lookup_delete_ne.
  - intros h' r' Hh'. apply lookup_delete_Some in Hh' as [Hne Hh'].
    destruct (Ht h' r' Hh') as (room & Hroom & Hempty & Htimer).
    destruct (decide (r' = r)) as [->|Hner].
    + destruct (Ht h r Hh) as (room0 & Hroom0 & _ & Htimer0).
      rewrite Hroom in Hroom0. injection Hroom0 as <-. congruence.
    + exists room. by rewrite lookup_delete_ne.
  - intros h' r' Hh'. apply lookup_delete_Some in Hh' as [_ Hh']. by apply (Hs h' r').
  - intros r' room Hroom. apply lookup_delete_Some in Hroom as [_ Hroom].
    by apply (Hn r').
Qed.

(** A live room socket [w] of room [r] delivers its ["close"] event while
    other members remain. *)
Lemma ok_leave_some (w : nat) (st : Z) (r : string) (room : Room) :
  socks !! w = Some (mkSocket st (RoomSocket r)) → st ≠ 3 →
  rms !! r = Some room →
  registry_ok (<[r := mkRoom (filter (λ c, c ≠ w) (clients room)) (timer room)]> rms)
    burned (<[w := mkSocket 3 (RoomSocket r)]> socks) tms seq.
Proof.
  intros Hw Hst Hroom. pose proof (live_no_timer w st r Hw Hst) as Hnot.
  destruct Hok as [Hb Hm Ht Hs Hn]. split.
  - intros r' Hin. destruct (decide (r' = r)) as [->|Hne].
    + rewrite (Hb r Hin) in Hroom. done.
    + rewrite lookup_insert_ne by done. by apply Hb.
  - intros w' st' r' Hw' Hst'. destruct (decide (w' = w)) as [->|Hnew].
    + rewrite lookup_insert_eq in Hw'. injection Hw' as <- _. done.
    + rewrite lookup_insert_ne in Hw' by done.
      destruct (Hm w' st' r' Hw' Hst') as [?|(room' & Hroom' & Hin)]; [by left|].
      right. destruct (decide (r' = r)) as [->|Hne].
      * rewrite Hroom in Hroom'. injection Hroom' as <-.
        eexists. rewrite lookup_insert_eq. split; [done|]. cbn.
        apply list_elem_of_filter. done.
      * exists room'. by rewrite lookup_insert_ne.
  - intros h r' Hh. destruct (decide (r' = r)) as [->|Hne].
    + exfalso. by apply (Hnot h).
    + destruct (Ht h r' Hh) as (room' & Hroom' & ?). exists room'.
      by rewrite lookup_insert_ne.
  - done.
  - intros r' room' Hroom'. destruct (decide (r' = r)) as [->|Hne].
    + rewrite lookup_insert_eq in Hroom'. injection Hroom' as <-. cbn.
      apply NoDup_filter. by apply (Hn r).
    + rewrite lookup_insert_ne in Hroom' by done. by apply (Hn r').
Qed.

(** The last member [w] of room [r] delivers its ["close"] event and the
    destruction timer [seq] is armed. *)
Lemma ok_leave_last (w : nat) (st : Z) (r : string) (room : Room) :
  socks !! w = Some (mkSocket st (RoomSocket r)) → st ≠ 3 →
  rms !! r = Some room →
  filter (λ c, c ≠ w) (clients room) = [] →
  registry_ok (<[r := mkRoom [] (Some seq)]> rms)
    burned (<[w := mkSocket 3 (RoomSocket r)]> socks) (<[seq := r]> tms) (S seq).
Proof.
  intros Hw Hst Hroom Hlast. pose proof (live_no_timer w st r Hw Hst) as Hnot.
  destruct Hok as [Hb Hm Ht Hs Hn]. split.
  - intros r' Hin. destruct (decide (r' = r)) as [->|Hne].
    + rewrite (Hb r Hin) in Hroom. done.
    + rewrite lookup_insert_ne by done. by apply Hb.
  - intros w' st' r' Hw' Hst'. destruct (decide (w' = w)) as [->|Hnew].
    + rewrite lookup_insert_eq in Hw'. injection Hw' as <- _. done.
    + rewrite lookup_insert_ne in Hw' by done.
      destruct (Hm w' st' r' Hw' Hst') as [?|(room' & Hroom' & Hin)]; [by left|].
      right. destruct (decide (r' = r)) as [->|Hne].
      * rewrite Hroom in Hroom'. injection Hroom' as <-. exfalso.
        assert (w' ∈ filter (λ c, c ≠ w) (clients room)) as Hin'
          by (by apply list_elem_of_filter).
        rewrite Hlast in Hin'. by apply elem_of_nil in Hin'.
      * exists room'. by rewrite lookup_insert_ne.
  - intros h r' Hh. destruct (decide (h = seq)) as [->|Hneh].
    + rewrite lookup_insert_eq in Hh. injection Hh as <-.
      eexists. rewrite lookup_insert_eq. done.
    + rewrite lookup_insert_ne in Hh by done.
      destruct (decide (r' = r)) as [->|Hne]; [exfalso; by apply (Hnot h)|].
      destruct (Ht h r' Hh) as (room' & Hroom' & ?). exists room'.
      by rewrite lookup_insert_ne.
  - intros h r' Hh. destruct (decide (h = seq)) as [->|Hneh]; [lia|].
    rewrite lookup_insert_ne in Hh by done. specialize (Hs h r' Hh). lia.
  - intros r' room' Hroom'. destruct (decide (r' = r)) as [->|Hne].
    + rewrite lookup_insert_eq in Hroom'. injection Hroom' as <-. apply NoDup_nil_2.
    + rewrite lookup_insert_ne in Hroom' by done. by apply (Hn r').
Qed.

(** A new socket [w] joins the room [r], which is not burned; a pending
    destruction timer of the room is cancelled. *)
Lemma ok_join (w : nat) (r : string) :
  socks !! w = None → r ∉ burned →
  let room0 := default (mkRoom [] None) (rms !! r) in
  registry_ok (<[r := mkRoom (addClient w (clients room0)) (timer room0)]> rms)
    burned (<[w := mkSocket 1 (RoomSocket r)]> socks)
    (match timer room0 with Some h => delete h tms | None => tms end) seq.
Proof.
  intros Hw Hnb room0. destruct Hok as [Hb Hm Ht Hs Hn].
  assert (Hsub : ∀ h r', (match timer room0 with Some h0 => delete h0 tms | None => tms end)
                         !! h = Some r' → tms !! h = Some r').
  { intros h r'. destruct (timer room0); [|done]. by intros [_ ?]%lookup_delete_Some. }
  split.
  - intros r' Hin. destruct (decide (r' = r)) as [->|Hne]; [done|].
    rewrite lookup_insert_ne by done. by apply Hb.
  - intros w' st' r' Hw' Hst'. destruct (decide (w' = w)) as [->|Hnew].
    + rewrite lookup_insert_eq in Hw'. injection Hw' as <- <-. right.
      eexists. rewrite lookup_insert_eq. split; [done|]. cbn.
      apply addClient_elem. by left.
    + rewrite lookup_insert_ne in Hw' by done.
      destruct (Hm w' st' r' Hw' Hst') as [?|(room' & Hroom' & Hin)]; [by left|].
      right. destruct (decide (r' = r)) as [->|Hne].
      * eexists. rewrite lookup_insert_eq. split; [done|]. cbn.
        apply addClient_elem. right. subst room0. by rewrite Hroom'.
      * exists room'. by rewrite lookup_insert_ne.
  - intros h r' Hh. pose proof (Hsub h r' Hh) as Hh0.
    destruct (Ht h r' Hh0) as (room' & Hroom' & Hempty & Htimer).
    destruct (decide (r' = r)) as [->|Hne].
    + exfalso. subst room0. rewrite Hroom' in Hh. cbn in Hh. rewrite Htimer in Hh.
      by rewrite lookup_delete_eq in Hh.
    + exists room'. by rewrite lookup_insert_ne.
  - intros h r' Hh. apply (Hs h r'). by apply Hsub.
  - intros r' room' Hroom'. destruct (decide (r' = r)) as [->|Hne].
    + rewrite lookup_insert_eq in Hroom'. injection Hroom' as <-. cbn.
      apply addClient_NoDup. subst room0.
      destruct (rms !! r) as [room|] eqn:Hroom; cbn; [by apply (Hn r)|apply NoDup_nil_2].
    + rewrite lookup_insert_ne in Hroom' by done. by apply (Hn r').
Qed.

(** A new socket that joins no room. *)
Lemma ok_new_socket (w : nat) (sock : Socket) :
  socks !! w = None → (∀ r, kind sock ≠ RoomSocket r) →
  registry_ok rms burned (<[w := sock]> socks) tms seq.
Proof.
  intros Hw Hk. apply ok_live. intros w' st' r Hw' Hst'.
  destruct (decide (w' = w)) as [->|Hne].
  - rewrite lookup_insert_eq in Hw'. injection Hw' as ->. by destruct (Hk r).
  - rewrite lookup_insert_ne in Hw' by done. by exists st'.
Qed.

End Registry.

(** *** Every handler keeps the invariant *)

Lemma initial_wf (pool : option (gmap string Z)) : wf (initial pool).
Proof. split; cbn; try done; intros *; by rewrite ?lookup_empty. Qed.

Lemma ws_close_wf (w : nat) (s : Server) : wf s → wf (ws_close w s).
Proof.
  intros Hwf. unfold wf. rewrite ws_close_only. cbn.
  eapply ok_live; [exact Hwf | apply ws_close_live].
Qed.

Lemma timerFired_wf (h : nat) (s : Server) : wf s → wf (timerFired h s).
Proof.
  intros Hwf. unfold timerFired. destruct (timers s !! h) as [r|] eqn:Hh; [|done].
  unfold wf. cbn. by apply ok_timer_fired.
Qed.

Lemma burnRoom_wf (w : nat) (st : Z) (roomId : string) (s : Server) :
  sockets s !! w = Some (mkSocket st (RoomSocket roomId)) → st ≠ 3 →
  wf s → wf (next (burnRoom w roomId s)).
Proof.
  intros Hw Hst Hwf. pose proof (ok_burn _ _ _ _ _ Hwf w st roomId Hw Hst) as Hb.
  unfold burnRoom. cbn [rooms set_burnedRooms].
  destruct (rooms s !! roomId) as [r|] eqn:Hr.
  - pose proof (burnLoop_only roomId (clients r)
                  (set_burnedRooms ({[roomId]} ∪ burnedRooms s) s)) as Hs2.
    pose proof (burnLoop_live roomId (clients r)
                  (set_burnedRooms ({[roomId]} ∪ burnedRooms s) s)) as Hlive.
    destruct (burnLoop roomId (clients r) _) as [out s2]. cbn in Hs2, Hlive.
    unfold wf. cbn [next]. rewrite Hs2. cbn. eapply ok_live; [exact Hb | exact Hlive].
  - cbn [next]. apply ws_close_wf. unfold wf. cbn.
    rewrite <- (delete_id (rooms s) roomId) by done. done.
Qed.

Lemma roomClose_wf (w : nat) (st : Z) (roomId : string) (s : Server) :
  sockets s !! w = Some (mkSocket st (RoomSocket roomId)) → st ≠ 3 →
  wf s →
  wf (next (roomClose w roomId
              (set_sockets (<[w := mkSocket 3 (RoomSocket roomId)]> (sockets s)) s))).
Proof.
  intros Hw Hst Hwf. unfold roomClose. cbn [rooms set_sockets].
  destruct (rooms s !! roomId) as [room|] eqn:Hroom.
  - pose proof (ok_leave_some _ _ _ _ _ Hwf w st roomId room Hw Hst Hroom) as Hsome.
    case_bool_decide as Hlen.
    + apply nil_length_inv in Hlen.
      pose proof (ok_leave_last _ _ _ _ _ Hwf w st roomId room Hw Hst Hroom Hlen) as Hl.
      unfold scheduleDestruction. cbn [next rooms set_rooms].
      rewrite lookup_insert_eq. unfold wf. cbn. rewrite Hlen.
      by rewrite insert_insert_eq.
    + unfold wf. cbn. done.
  - unfold wf. cbn. eapply ok_live; [exact Hwf|].
    intros w' st' r Hw' Hst'. destruct (decide (w' = w)) as [->|Hne].
    + rewrite lookup_insert_eq in Hw'. injection Hw' as <- _. done.
    + rewrite lookup_insert_ne in Hw' by done. by exists st'.
Qed.

Lemma connection_wf (w : nat) (query : option Query) (s : Server) :
  sockets s !! w = None → wf s → wf (next (connection w query s)).
Proof.
  intros Hw Hwf.
  assert (Hrejected :
    wf (ws_close w (set_sockets (<[w := mkSocket 1 NoHandlers]> (sockets s)) s))).
  { apply ws_close_wf. unfold wf. cbn. by apply ok_new_socket. }
  unfold connection. destruct query as [q|]; [|done].
  destruct (truthy (q_chatFingerprint q)).
  { unfold wf. cbn. rewrite insert_insert_eq. by apply ok_new_socket. }
  destruct (negb (truthy (q_roomId q))); [done|].
  cbn [burnedRooms set_sockets]. case_bool_decide as Hburned; [done|].
  pose proof (ok_join _ _ _ _ _ Hwf w (default EmptyString (q_roomId q)) Hw Hburned)
    as Hjoin.
  set (roomId := default EmptyString (q_roomId q)) in *. cbn zeta in Hjoin.
  unfold getRoom, clearRoomTimer. cbn [rooms set_sockets].
  destruct (rooms s !! roomId) as [room|] eqn:Hroom.
  - rewrite bool_decide_eq_false_2 by done.
    cbn [rooms set_sockets]. rewrite Hroom.
    cbn [rooms set_rooms set_sockets]. rewrite lookup_insert_eq.
    cbn [default from_option] in Hjoin. unfold id in Hjoin.
    unfold wf. destruct (timer room); cbn; rewrite insert_insert_eq; exact Hjoin.
  - rewrite bool_decide_eq_true_2 by done.
    rewrite incrementMetric_only. cbn [rooms set_rooms set_sockets set_dbPool].
    rewrite lookup_insert_eq. cbn [rooms set_rooms set_sockets set_dbPool clients timer].
    rewrite lookup_insert_eq.
    cbn [default from_option clients timer] in Hjoin.
    unfold wf. cbn. rewrite !insert_insert_eq. exact Hjoin.
Qed.

(** One turn of the event loop keeps the registry invariant. *)
Lemma handle_wf (e : Event) (s : Server) : wf s → wf (next (handle host e s)).
Proof.
  intros Hwf. destruct (touches_registry e) eqn:Ht.
  - destruct e; try done; cbn [handle].
    + destruct (sockets s !! w) eqn:Hw; [done|]. by apply connection_wf.
    + destruct (sockets s !! w) as [[st k]|] eqn:Hw; [|done].
      case_bool_decide as Hst; [done|]. destruct k as [roomId|fp|]; [| |done].
      * unfold roomMessage. destruct isBinary.
        { by destruct (rooms s !! roomId). }
        destruct (isBurnFrame _ roomId); [by apply (burnRoom_wf w st)|].
        by destruct (rooms s !! roomId).
      * unfold chatMessage. repeat case_match; done.
    + by apply ws_close_wf.
    + destruct (sockets s !! w) as [[st k]|] eqn:Hw; [|done].
      case_bool_decide as Hst; [done|]. destruct k as [roomId|fp|].
      * by apply (roomClose_wf w st).
      * assert (Hdead : wf (set_sockets (<[w := mkSocket 3 (ChatSocket fp)]> (sockets s)) s)).
        { unfold wf. cbn. eapply ok_live; [exact Hwf|].
          intros w' st' r Hw' Hst'. destruct (decide (w' = w)) as [->|Hne].
          - by rewrite lookup_insert_eq in Hw'.
          - rewrite lookup_insert_ne in Hw' by done. by exists st'. }
        unfold chatClose. by case_bool_decide.
      * cbn. unfold wf. cbn. eapply ok_live; [exact Hwf|].
        intros w' st' r Hw' Hst'. destruct (decide (w' = w)) as [->|Hne].
        -- by rewrite lookup_insert_eq in Hw'.
        -- rewrite lookup_insert_ne in Hw' by done. by exists st'.
    + by apply timerFired_wf.
  - destruct (handle_registry_frame e s Ht) as (Hr & Hb & Hs & Htm & Hq).
    unfold wf. by rewrite Hr, Hb, Hs, Htm, Hq.
Qed.

Lemma run_wf (evs : list Event) : ∀ s, wf s → wf (run host evs s).
Proof.
  induction evs as [|e evs IH]; intros s Hwf; [done|].
  cbn. apply IH. by apply handle_wf.
Qed.

(** *** Burning a room *)

(** No handler removes a room id from the burned set. *)
Lemma handle_burned_mono (e : Event) (s : Server) :
  burnedRooms s ⊆ burnedRooms (next (handle host e s)).
Proof.
  destruct (touches_registry e) eqn:Ht.
  - destruct e; try done; cbn [handle]; handler_cases; set_solver.
  - destruct (handle_registry_frame e s Ht) as (_ & -> & _). done.
Qed.

Lemma run_burned_mono (evs : list Event) :
  ∀ s, burnedRooms s ⊆ burnedRooms (run host evs s).
Proof.
  induction evs as [|e evs IH]; intros s; [done|]. cbn.
  etrans; [apply (handle_burned_mono e)|apply IH].
Qed.

(** C5 (amended). In every state the server can reach: (1) a burned
    room id stays burned and is never registered again, so the room has
    no member for the rest of the run; (2) a room handshake (no
    [chatFingerprint]) for a burned room id is sent [roomDestroyed] and
    closed, and the registry is left as it was; (3) when a room socket
    sends the burn frame of its room, the room id is burned, the room is
    removed from the registry, [roomDestroyed] is sent to exactly the
    members whose socket is open (the sender included), and afterwards
    no member socket is open. *)
Theorem burn_is_final (pool : option (gmap string Z)) (evs0 : list Event) :
  let s := run host evs0 (initial pool) in
  (∀ (roomId : string) (evs : list Event),
     roomId ∈ burnedRooms s →
     roomId ∈ burnedRooms (run host evs s)
     ∧ rooms (run host evs s) !! roomId = None
     ∧ members (run host evs s) roomId = [])
  ∧ (∀ (roomId : string) (w : nat) (q : Query),
       roomId ∈ burnedRooms s → roomId ≠ EmptyString →
       sockets s !! w = None →
       q_roomId q = Some roomId → truthy (q_chatFingerprint q) = false →
       let o := handle host (Connection w (Some q)) s in
       sent o = [(w, FRoomDestroyed roomId)]
       ∧ sockets (next o) !! w = Some (mkSocket 2 NoHandlers)
       ∧ rooms (next o) = rooms s)
  ∧ (∀ (w : nat) (st : Z) (roomId : string) (data : list Byte.byte),
       sockets s !! w = Some (mkSocket st (RoomSocket roomId)) → st ≠ 3 →
       burnShape (JSON_parse host (toString_utf8 host data)) roomId →
       let o := handle host (WsMessage w data false) s in
       roomId ∈ burnedRooms (next o)
       ∧ rooms (next o) = delete roomId (rooms s)
       ∧ (roomId ∈ burnedRooms s ∨ w ∈ members s roomId)
       ∧ (∀ c f, (c, f) ∈ sent o
                 ↔ f = FRoomDestroyed roomId ∧ isOpen s c = true
                   ∧ (c ∈ members s roomId ∨ c = w))
       ∧ (is_Some (rooms s !! roomId) →
          sent o = map (λ c, (c, FRoomDestroyed roomId))
                     (filter (λ c, isOpen s c = true) (members s roomId)))
       ∧ (∀ c, c ∈ members s roomId ∨ c = w → isOpen (next o) c = false)).
Proof.
  intros s.
  assert (Hwf : wf s) by (apply run_wf, initial_wf).
  split; [|split].
  - intros roomId evs Hb.
    assert (Hb' : roomId ∈ burnedRooms (run host evs s)) by (by apply run_burned_mono).
    assert (Hwf' : wf (run host evs s)) by (by apply run_wf).
    pose proof (ok_burned _ _ _ _ _ Hwf' roomId Hb') as Hnone.
    unfold members. by rewrite Hnone.
  - intros roomId w q Hb Hne Hw Hq Hchat o. subst o. cbn [handle].
    rewrite Hw. unfold connection. rewrite Hchat, Hq, (nonempty_truthy _ Hne).
    cbn [negb default from_option burnedRooms set_sockets]. unfold id.
    rewrite bool_decide_eq_true_2 by done. cbn [sent next].
    split; [|split].
    + unfold ws_send, isOpen. cbn. by rewrite lookup_insert_eq.
    + rewrite ws_close_lookup. cbn. rewrite lookup_insert_eq. cbn.
      rewrite bool_decide_eq_true_2; [done|]. split; [done|by right].
    + rewrite ws_close_only. done.
  - intros w st roomId data Hw Hst Hshape o. subst o. cbn [handle].
    rewrite Hw. rewrite bool_decide_eq_false_2 by done. unfold roomMessage.
    apply isBurnFrame_spec in Hshape. rewrite Hshape. clear Hshape.
    pose proof (ok_member _ _ _ _ _ Hwf w st roomId Hw Hst) as Hmem.
    pose proof (ok_burned _ _ _ _ _ Hwf roomId) as Hburned.
    pose proof (ok_nodup _ _ _ _ _ Hwf roomId) as Hnodup.
    unfold burnRoom, members. cbn [rooms set_burnedRooms].
    destruct (rooms s !! roomId) as [room|] eqn:Hroom.
    + assert (Hin : w ∈ clients room).
      { destruct Hmem as [Hb|(room' & Hroom' & Hin)]; [by specialize (Hburned Hb)|].
        congruence. }
      set (s1 := set_burnedRooms ({[roomId]} ∪ burnedRooms s) s).
      pose proof (burnLoop_only roomId (clients room) s1) as Hs2.
      pose proof (burnLoop_sent roomId (clients room) s1) as Hsent.
      pose proof (burnLoop_sent_NoDup roomId (clients room) s1 (Hnodup room eq_refl))
        as Hexact.
      pose proof (burnLoop_closed roomId (clients room) s1) as Hclosed.
      destruct (burnLoop roomId (clients room) s1) as [out s2].
      cbn [fst snd] in *. cbn [next sent]. rewrite Hs2. cbn.
      split; [apply elem_of_union; left; by apply elem_of_singleton|].
      split; [done|]. split; [by right|].
      split; [|split].
      * intros c f. rewrite Hsent. change (isOpen s1 c) with (isOpen s c).
        split; [intros (-> & ? & ?); by repeat split; try left|].
        intros (-> & ? & [?| ->]); done.
      * intros _. exact Hexact.
      * intros c Hc.
        assert (Hc' : c ∈ clients room) by (by destruct Hc as [?| ->]).
        specialize (Hclosed c Hc'). rewrite Hs2 in Hclosed. exact Hclosed.
    + cbn [next sent]. rewrite ws_close_only. cbn.
      split; [apply elem_of_union; left; by apply elem_of_singleton|].
      split; [by rewrite delete_id|].
      split; [destruct Hmem as [?|(room' & ? & _)]; [by left|done]|].
      split; [|split].
      * intros c f. unfold ws_send. change (isOpen (set_burnedRooms _ s) w) with (isOpen s w).
        destruct (isOpen s w) eqn:Ho.
        -- rewrite list_elem_of_singleton. split.
           ++ intros [= -> ->]. repeat split; [done|by right].
           ++ intros (-> & _ & [?%elem_of_nil| ->]); done.
        -- split; [by intros ?%elem_of_nil|].
           intros (_ & Hoc & [?%elem_of_nil| ->]); [done|congruence].
      * by intros [? ?].
      * intros c [?%elem_of_nil| ->]; [done|].
        change (isOpen (ws_close w (set_burnedRooms ({[roomId]} ∪ burnedRooms s) s)) w = false).
        rewrite isOpen_ws_close. rewrite bool_decide_eq_true_2 by done.
        apply andb_false_r.
Qed.
(** ** One-time messages and files: storing, reading, expiring *)

Lemma handle_fileStore_frame (e : Event) (s : Server) :
  touches_fileStore e = false → fileStore (next (handle host e s)) = fileStore s.
Proof.
  destruct e; cbn [touches_fileStore handle]; intros ?; try done; handler_cases; done.
Qed.

(** An OTM entry stays where it is until it is read, replaced or swept. *)
Lemma handle_otm_kept (id : string) (entry : OtmEntry) (e : Event) (s : Server) :
  removes_otm id (otm_createdAt entry) e = false →
  otmStore s !! id = Some entry →
  otmStore (next (handle host e s)) !! id = Some entry.
Proof.
  intros Hrm Hst.
  destruct (touches_otmStore e) eqn:Ht; [|by rewrite handle_otmStore_frame].
  destruct e; try done; cbn [handle]; cbn in Hrm.
  - apply String.eqb_neq in Hrm. unfold postOtm_end.
    repeat case_match; cbn; try done.
    rewrite incrementMetric_only. cbn. by rewrite lookup_insert_ne.
  - apply String.eqb_neq in Hrm. unfold getOtm.
    repeat case_match; cbn; try done; by rewrite lookup_delete_ne.
  - apply bool_decide_eq_false in Hrm. cbn.
    apply map_lookup_filter_Some. split; [done|]. cbn. lia.
Qed.

Lemma run_otm_kept (id : string) (entry : OtmEntry) (evs : list Event) :
  ∀ s, Forall (λ e, removes_otm id (otm_createdAt entry) e = false) evs →
       otmStore s !! id = Some entry →
       otmStore (run host evs s) !! id = Some entry.
Proof.
  induction evs as [|e evs IH]; intros s Hall Hst; [done|].
  apply Forall_cons in Hall as [He Hall]. cbn. apply IH; [done|].
  by apply handle_otm_kept.
Qed.

(** X1. A one-time message is stored until it is read or expires: after
    a [POST /otm] with a non-empty ciphertext answered 201 with the id,
    and whatever else happens in between (but no GET of that id, no POST
    drawing it again and no sweep later than 7 days after the POST), a
    GET that the rate limiter admits answers 200 with that ciphertext
    when at most 7 days have passed, 404 [{used:true}] otherwise, and
    leaves the id absent either way. *)
Theorem otm_put_take (s : Server) (id ip c : string) (t0 now_rl now : Z)
    (evs : list Event) :
  c ≠ EmptyString →
  Forall (λ e, removes_otm id t0 e = false) evs →
  let put := handle host (PostOtmEnd t0 (Some (Some c)) id) s in
  let s' := run host evs (next put) in
  (RateLimit.checkRateLimit now_rl ip "get-otm" (rateBuckets s')).1 = true →
  let get := handle host (GetOtm now_rl now ip id) s' in
  response put = Some (mkResponse 201 (BId id))
  ∧ response get
    = Some (if bool_decide (OTM_TTL_MS < now - t0)
            then mkResponse 404 BUsed
            else mkResponse 200 (BCiphertext c))
  ∧ otmStore (next get) !! id = None.
Proof.
  intros Hc Hall put s' Hok get.
  assert (Hput : response put = Some (mkResponse 201 (BId id))
                 ∧ otmStore (next put) !! id = Some (mkOtmEntry c t0)).
  { subst put. cbn [handle]. unfold postOtm_end. rewrite (nonempty_truthy _ Hc).
    cbn. rewrite incrementMetric_only. cbn. split; [done|]. apply lookup_insert_eq. }
  destruct Hput as [Hr Hst]. split; [done|].
  assert (Hs' : otmStore s' !! id = Some (mkOtmEntry c t0))
    by (by apply run_otm_kept).
  clearbody s'. subst get. cbn [handle]. unfold getOtm.
  destruct (RateLimit.checkRateLimit now_rl ip "get-otm" (rateBuckets s')) as [ok b].
  cbn in Hok. subst ok. cbn. rewrite Hs'. cbn.
  case_bool_decide; cbn; (split; [done|]); apply lookup_delete_eq.
Qed.

(** X2. The OTM sweep and the OTM read agree on expiry: a sweep at time
    [now] keeps a stored entry exactly when an admitted GET at [now]
    would still answer 200 for it; an entry aged exactly 7 days is kept
    and readable. *)
Theorem otm_sweep_agrees_with_get (s : Server) (id ip : string) (entry : OtmEntry)
    (now_rl now : Z) :
  otmStore s !! id = Some entry →
  (RateLimit.checkRateLimit now_rl ip "get-otm" (rateBuckets s)).1 = true →
  (otmStore (next (handle host (SweepOtm now) s)) !! id = Some entry
   ↔ response (handle host (GetOtm now_rl now ip id) s)
     = Some (mkResponse 200 (BCiphertext (otm_ciphertext entry))))
  ∧ (otmStore (next (handle host (SweepOtm now) s)) !! id = None
     ↔ OTM_TTL_MS < now - otm_createdAt entry)
  ∧ ∀ id' entry', otmStore (next (handle host (SweepOtm now) s)) !! id' = Some entry'
                  → otmStore s !! id' = Some entry'.
Proof.
  intros Hst Hok. cbn [handle silent next]. unfold sweepOtm, getOtm.
  destruct (RateLimit.checkRateLimit now_rl ip "get-otm" (rateBuckets s)) as [ok b].
  cbn in Hok. subst ok. cbn. rewrite Hst.
  split; [|split].
  - rewrite map_lookup_filter_Some. cbn. case_bool_decide; cbn.
    + split; [tauto|done].
    + split; [done|]. intros _. by split.
  - rewrite map_lookup_filter_None. cbn. split.
    + intros [Hnone|Hall]; [congruence|].
      destruct (decide (OTM_TTL_MS < now - otm_createdAt entry)); [done|].
      by destruct (Hall entry Hst).
    + intros Hold. right. intros x Hx. assert (x = entry) as -> by congruence. tauto.
  - intros id' entry' Hin. by apply map_lookup_filter_Some in Hin as [? _].
Qed.
(** ** File drop *)

Lemma handle_file_kept (id : string) (entry : FileEntry) (e : Event) (s : Server) :
  removes_file id (file_createdAt entry) e = false →
  fileStore s !! id = Some entry →
  fileStore (next (handle host e s)) !! id = Some entry.
Proof.
  intros Hrm Hst.
  destruct (touches_fileStore e) eqn:Ht; [|by rewrite handle_fileStore_frame].
  destruct e; try done; cbn [handle]; cbn in Hrm.
  - apply String.eqb_neq in Hrm. unfold postFile_end. cbn.
    rewrite incrementMetric_only. cbn. by rewrite lookup_insert_ne.
  - apply String.eqb_neq in Hrm. unfold getFile.
    repeat case_match; cbn; try done; by rewrite lookup_delete_ne.
  - apply bool_decide_eq_false in Hrm. cbn.
    apply map_lookup_filter_Some. split; [done|]. cbn. lia.
Qed.

Lemma run_file_kept (id : string) (entry : FileEntry) (evs : list Event) :
  ∀ s, Forall (λ e, removes_file id (file_createdAt entry) e = false) evs →
       fileStore s !! id = Some entry →
       fileStore (run host evs s) !! id = Some entry.
Proof.
  induction evs as [|e evs IH]; intros s Hall Hst; [done|].
  apply Forall_cons in Hall as [He Hall]. cbn. apply IH; [done|].
  by apply handle_file_kept.
Qed.

Lemma handle_file_absent (id : string) (e : Event) (s : Server) :
  stores_file id e = false →
  fileStore s !! id = None →
  fileStore (next (handle host e s)) !! id = None.
Proof.
  intros Hst Hnone.
  destruct (touches_fileStore e) eqn:Ht; [|by rewrite handle_fileStore_frame].
  destruct e; try done; cbn [handle].
  - cbn in Hst. apply String.eqb_neq in Hst. unfold postFile_end. cbn.
    rewrite incrementMetric_only. cbn. by rewrite lookup_insert_ne.
  - unfold getFile. repeat case_match; cbn; try done;
      destruct (decide (id0 = id)) as [->|Hne];
      by rewrite ?lookup_delete_eq, ?lookup_delete_ne.
  - cbn. apply map_lookup_filter_None. by left.
Qed.

Lemma run_file_absent (id : string) (evs : list Event) :
  ∀ s, Forall (λ e, stores_file id e = false) evs →
       fileStore s !! id = None →
       fileStore (run host evs s) !! id = None.
Proof.
  induction evs as [|e evs IH]; intros s Hall Hnone; [done|].
  apply Forall_cons in Hall as [He Hall]. cbn.
  apply IH; [done|]. by apply handle_file_absent.
Qed.

(** X3. An uploaded file is stored, whatever its bytes (the empty upload
    included), until it is downloaded or expires: after [POST /file]
    answered 201 with the id, and whatever else happens in between (but
    no download of that id, no upload drawing it again and no sweep
    later than 24 hours after the upload), a download that the rate
    limiter admits answers 200 with exactly the uploaded bytes when at
    most 24 hours have passed, 404 [{used:true}] otherwise, and leaves
    the id absent either way. *)
Theorem file_put_take (s : Server) (id ip : string) (bytes : list Byte.byte)
    (t0 now_rl now : Z) (evs : list Event) :
  Forall (λ e, removes_file id t0 e = false) evs →
  let put := handle host (PostFileEnd t0 bytes id) s in
  let s' := run host evs (next put) in
  (RateLimit.checkFileRateLimit now_rl ip "download" (fileRateBuckets s')).1 = true →
  let get := handle host (GetFile now_rl now ip id) s' in
  response put = Some (mkResponse 201 (BId id))
  ∧ response get
    = Some (if bool_decide (FILE_TTL_MS < now - t0)
            then mkResponse 404 BUsed
            else mkResponse 200 (BBytes bytes))
  ∧ fileStore (next get) !! id = None.
Proof.
  intros Hall put s' Hok get.
  assert (Hst : fileStore (next put) !! id = Some (mkFileEntry bytes t0)).
  { subst put. cbn [handle]. unfold postFile_end. cbn.
    rewrite incrementMetric_only. cbn. apply lookup_insert_eq. }
  split; [done|].
  assert (Hs' : fileStore s' !! id = Some (mkFileEntry bytes t0))
    by (by apply run_file_kept).
  clearbody s'. subst get. cbn [handle]. unfold getFile.
  destruct (RateLimit.checkFileRateLimit now_rl ip "download" (fileRateBuckets s'))
    as [ok b].
  cbn in Hok. subst ok. cbn. rewrite Hs'. cbn.
  case_bool_decide; cbn; (split; [done|]); apply lookup_delete_eq.
Qed.

(** X4. A file is downloaded at most once: when a [GET /file/{id}]
    answers 200, its bytes are the stored ones and the entry is deleted
    by the same handler; whatever runs afterwards (as long as no upload
    draws the same id again), a later download of [id] answers 404
    [{used:true}] when the rate limiter admits it and 429 when it does
    not. *)
Theorem file_take_at_most_once
    (s : Server) (id ip ip' : string) (bytes : list Byte.byte)
    (now_rl now now_rl' now' : Z) (evs : list Event) :
  response (handle host (GetFile now_rl now ip id) s)
  = Some (mkResponse 200 (BBytes bytes)) →
  Forall (λ e, stores_file id e = false) evs →
  let s' := run host evs (next (handle host (GetFile now_rl now ip id) s)) in
  (∃ entry, fileStore s !! id = Some entry ∧ file_ciphertext entry = bytes)
  ∧ fileStore (next (handle host (GetFile now_rl now ip id) s)) !! id = None
  ∧ response (handle host (GetFile now_rl' now' ip' id) s')
    = (if (RateLimit.checkFileRateLimit now_rl' ip' "download" (fileRateBuckets s')).1
       then Some (mkResponse 404 BUsed)
       else Some (mkResponse 429 (BError "Rate limit exceeded"))).
Proof.
  intros H200 Hall s'. cbn [handle] in *.
  assert (Hfirst : (∃ entry, fileStore s !! id = Some entry
                             ∧ file_ciphertext entry = bytes)
                   ∧ fileStore (next (getFile now_rl now ip id s)) !! id = None).
  { revert H200. unfold getFile.
    destruct (RateLimit.checkFileRateLimit now_rl ip "download" (fileRateBuckets s))
      as [[] b]; cbn; [|done].
    destruct (fileStore s !! id) as [entry|] eqn:He; cbn; [|done].
    case_bool_decide; cbn; [done|]. intros [= <-].
    split; [by exists entry|]. apply lookup_delete_eq. }
  destruct Hfirst as [Hentry Hgone]. split; [done|]. split; [done|].
  assert (Habs : fileStore s' !! id = None) by (by apply run_file_absent).
  clearbody s'. unfold getFile.
  destruct (RateLimit.checkFileRateLimit now_rl' ip' "download" (fileRateBuckets s'))
    as [[] b]; cbn; [|done]. by rewrite Habs.
Qed.
(** ** A refused request *)

(** X5. A download or an OTM read that the rate limiter refuses changes
    nothing but the rate bucket: the entry it asked for is neither
    returned nor consumed, and is still there for a later request. *)
Theorem refused_get_consumes_nothing (s : Server) (id ip : string) (now_rl now : Z) :
  ((RateLimit.checkRateLimit now_rl ip "get-otm" (rateBuckets s)).1 = false →
   handle host (GetOtm now_rl now ip id) s
   = mkOutcome (Some (mkResponse 429 (BError "Rate limit exceeded"))) []
       (set_rateBuckets
          (RateLimit.checkRateLimit now_rl ip "get-otm" (rateBuckets s)).2 s))
  ∧ ((RateLimit.checkFileRateLimit now_rl ip "download" (fileRateBuckets s)).1 = false →
     handle host (GetFile now_rl now ip id) s
     = mkOutcome (Some (mkResponse 429 (BError "Rate limit exceeded"))) []
         (set_fileRateBuckets
            (RateLimit.checkFileRateLimit now_rl ip "download" (fileRateBuckets s)).2 s)).
Proof.
  split; intros Hno; cbn [handle]; unfold getOtm, getFile.
  - destruct (RateLimit.checkRateLimit now_rl ip "get-otm" (rateBuckets s)) as [ok b].
    cbn in Hno. by subst ok.
  - destruct (RateLimit.checkFileRateLimit now_rl ip "download" (fileRateBuckets s))
      as [ok b].
    cbn in Hno. by subst ok.
Qed.
(** ** Invites: creation and expiry *)

(** The ["end"] callback of [POST /chat/invite] for an id that is not
    in the store. *)
Lemma postInvite_end_stored (s : Server) (now now' : Z) (b : InviteBody)
    (inviteId pk : string) :
  ib_inviteId b = Some inviteId → inviteId ≠ EmptyString →
  ib_publicKeyBundle b = Some pk → pk ≠ EmptyString →
  chatInviteStore s !! inviteId = None →
  let o := handle host (PostInviteEnd now now' (Some b)) s in
  let expiry := inviteExpiry host now (ib_expiresAt b) in
  response o = Some (mkResponse 201 (BInviteCreated inviteId))
  ∧ chatInviteStore (next o)
    = <[inviteId := mkInviteEntry pk expiry now' false None]> (chatInviteStore s)
  ∧ ∀ t, response (handle host (GetInvite t inviteId) (next o))
         = Some (if js_gt t expiry
                 then mkResponse 404 (BError "Invite expired")
                 else mkResponse 200 (BInviteView inviteId pk false None)).
Proof.
  intros Hid Hidne Hpk Hpkne Hst o expiry. subst o. cbn [handle]. unfold postInvite_end.
  rewrite Hid, Hpk, !nonempty_truthy by done.
  cbn [default from_option negb orb]. unfold id. rewrite Hst.
  cbn [reply response next]. rewrite incrementMetric_only.
  cbn [chatInviteStore set_chatInviteStore set_dbPool].
  split; [done|]. split; [done|]. intros t. cbn [handle]. unfold getInvite.
  cbn [chatInviteStore set_chatInviteStore set_dbPool]. rewrite lookup_insert_eq. cbn.
  fold expiry. by destruct (js_gt t expiry).
Qed.

(** X6. [POST /chat/invite] never replaces a stored invite.  The
    request handler runs the chat rate check first: it changes nothing
    but the client's rate bucket, and answers 429 when the check refuses
    (the body is then not read).  When the body of an admitted request
    has arrived, whatever ran in between, its ["end"] callback finds the
    invite id in the store or not: if it is there, even expired but not
    yet removed, the answer is 409 and the callback leaves the state as
    it found it; otherwise the answer is 201 and the invite is stored
    unclaimed, with no claimer bundle, the creator's bundle and the
    computed expiry, so that a GET answers 200 with [claimed:false] and
    [claimerBundle:null] until the expiry has passed. *)
Theorem invite_create (s : Server) (now_rl now now' : Z) (ip : string)
    (b : InviteBody) (inviteId pk : string) (evs : list Event) :
  ib_inviteId b = Some inviteId → inviteId ≠ EmptyString →
  ib_publicKeyBundle b = Some pk → pk ≠ EmptyString →
  let check := RateLimit.checkChatRateLimit now_rl ip "invite" (chatRateBuckets s) in
  let request := handle host (ChatInviteBegin now_rl ip) s in
  let s' := run host evs (next request) in
  let o := handle host (PostInviteEnd now now' (Some b)) s' in
  let expiry := inviteExpiry host now (ib_expiresAt b) in
  response request
  = (if check.1 then None else Some (mkResponse 429 (BError "Rate limit exceeded")))
  ∧ next request = set_chatRateBuckets check.2 s
  ∧ match chatInviteStore s' !! inviteId with
    | Some _ =>
        response o = Some (mkResponse 409 (BError "Invite ID already exists"))
        ∧ next o = s'
    | None =>
        response o = Some (mkResponse 201 (BInviteCreated inviteId))
        ∧ chatInviteStore (next o)
          = <[inviteId := mkInviteEntry pk expiry now' false None]> (chatInviteStore s')
        ∧ ∀ t, response (handle host (GetInvite t inviteId) (next o))
               = Some (if js_gt t expiry
                       then mkResponse 404 (BError "Invite expired")
                       else mkResponse 200 (BInviteView inviteId pk false None))
    end.
Proof.
  intros Hid Hidne Hpk Hpkne check request s' o expiry.
  split; [|split].
  - subst request check. cbn [handle]. unfold rateChecked, chatInvite_begin.
    by destruct (RateLimit.checkChatRateLimit now_rl ip "invite" _) as [[] ?].
  - subst request check. cbn [handle]. unfold rateChecked, chatInvite_begin.
    by destruct (RateLimit.checkChatRateLimit now_rl ip "invite" _) as [[] ?].
  - clearbody s'. destruct (chatInviteStore s' !! inviteId) as [e|] eqn:Hst.
    + subst o. cbn [handle]. unfold postInvite_end.
      rewrite Hid, Hpk, !nonempty_truthy by done.
      cbn [default from_option negb orb]. unfold id. by rewrite Hst.
    + by apply postInvite_end_stored.
Qed.

(** X7. An invite created without a (truthy) [expiresAt] expires 24
    hours after the clock reading [now] of its creation: a GET at [t]
    answers 200 and changes nothing while [t ≤ now + 24 h]; afterwards
    it answers 404 "Invite expired" and deletes the entry, so that the
    next GET answers 404 "Invite not found".  With a clock that does not
    run backwards, the sweep removes such an invite only when it has
    expired. *)
Theorem invite_default_expiry (s : Server) (now now' t : Z) (b : InviteBody)
    (inviteId pk : string) :
  ib_inviteId b = Some inviteId → inviteId ≠ EmptyString →
  ib_publicKeyBundle b = Some pk → pk ≠ EmptyString →
  expiresTruthy (ib_expiresAt b) = false →
  chatInviteStore s !! inviteId = None →
  let s1 := next (handle host (PostInviteEnd now now' (Some b)) s) in
  let get := handle host (GetInvite t inviteId) s1 in
  (t ≤ now + 24 * 60 * 60 * 1000 →
   response get = Some (mkResponse 200 (BInviteView inviteId pk false None))
   ∧ next get = s1)
  ∧ (now + 24 * 60 * 60 * 1000 < t →
     response get = Some (mkResponse 404 (BError "Invite expired"))
     ∧ chatInviteStore (next get) !! inviteId = None
     ∧ ∀ t', response (handle host (GetInvite t' inviteId) (next get))
             = Some (mkResponse 404 (BError "Invite not found")))
  ∧ (now ≤ now' →
     chatInviteStore (next (handle host (SweepInvites t) s1)) !! inviteId = None →
     now + 24 * 60 * 60 * 1000 < t).
Proof.
  intros Hid Hidne Hpk Hpkne Hexp Hfree s1 get.
  destruct (postInvite_end_stored s now now' b inviteId pk Hid Hidne Hpk Hpkne Hfree)
    as (_ & Hst & Hget).
  fold s1 in Hst, Hget. unfold inviteExpiry in Hst, Hget. rewrite Hexp in Hst, Hget.
  assert (Hs1 : chatInviteStore s1 !! inviteId
                = Some (mkInviteEntry pk (Num (now + CHAT_INVITE_TTL_MS)) now' false None))
    by (rewrite Hst; apply lookup_insert_eq).
  clearbody s1. subst get. unfold CHAT_INVITE_TTL_MS in *.
  split; [|split].
  - intros Hle. rewrite Hget. cbn. rewrite bool_decide_eq_false_2 by lia.
    split; [done|]. cbn [handle]. unfold getInvite. rewrite Hs1. cbn.
    by rewrite bool_decide_eq_false_2 by lia.
  - intros Hlt. rewrite Hget. cbn. rewrite bool_decide_eq_true_2 by lia.
    split; [done|]. cbn [handle]. unfold getInvite. rewrite Hs1.
    cbn [expiresAt js_gt]. rewrite bool_decide_eq_true_2 by lia.
    cbn [reply response next chatInviteStore set_chatInviteStore].
    rewrite lookup_delete_eq. done.
  - intros Hclock Hgone. cbn [handle silent next] in Hgone.
    destruct (decide (now + 24 * 60 * 60 * 1000 < t)) as [|Hyoung]; [done|].
    exfalso.
    assert (Hkept : chatInviteStore (sweepInvites t s1) !! inviteId
                    = Some (mkInviteEntry pk (Num (now + 24 * 60 * 60 * 1000)) now'
                              false None)).
    { apply sweepInvites_by_age. split; [done|]. cbn. unfold CHAT_INVITE_TTL_MS. lia. }
    congruence.
Qed.
(** ** Mailboxes: fetching, sweeping, well-formedness *)

Lemma handle_chatMessageStore_frame (e : Event) (s : Server) :
  touches_chatMessageStore e = false →
  chatMessageStore (next (handle host e s)) = chatMessageStore s.
Proof.
  destruct e; cbn [touches_chatMessageStore handle]; intros ?; try done;
    handler_cases; done.
Qed.

(** What the sweep leaves under every key. *)
Lemma sweepMessages_lookup (now : Z) (fp : string) (s : Server) :
  chatMessageStore (sweepMessages now s) !! fp
  = match young now (default [] (chatMessageStore s !! fp)) with
    | [] => None
    | remaining => Some remaining
    end.
Proof.
  unfold sweepMessages, young. cbn. rewrite lookup_omap.
  destruct (chatMessageStore s !! fp) as [messages|]; cbn; [|done].
  destruct (filter _ messages) as [|m rest]; cbn; [done|done].
Qed.

(** X8. A fetch shows exactly what a sweep at the same instant would
    keep, in mailbox order, and deletes nothing itself: expired messages
    are hidden from the reader although they stay stored until the
    sweep; a fingerprint without mailbox gets the empty list. *)
Theorem fetch_matches_sweep (s : Server) (now : Z) (fp : string) :
  let o := handle host (GetMessages now fp) s in
  response o
  = Some (mkResponse 200
            (BMessages (default []
                          (chatMessageStore (next (handle host (SweepMessages now) s))
                           !! fp))))
  ∧ next o = s
  ∧ sent o = []
  ∧ (chatMessageStore s !! fp = None → response o = Some (mkResponse 200 (BMessages [])))
  ∧ ∀ messages m, chatMessageStore s !! fp = Some messages →
      (In m messages ∧ now - m_timestamp m < 7 * 24 * 60 * 60 * 1000
       ↔ ∃ shown, response o = Some (mkResponse 200 (BMessages shown)) ∧ In m shown).
Proof.
  intros o. subst o. cbn [handle silent next]. rewrite sweepMessages_lookup.
  unfold getMessages, young. cbn [reply response next sent].
  split; [|split; [done|split; [done|split]]].
  - by destruct (filter _ _).
  - by intros ->.
  - intros messages m ->. cbn. split.
    + intros [Hin Hage]. eexists. split; [done|].
      apply list_elem_of_In, list_elem_of_filter. split; [done|].
      by apply list_elem_of_In.
    + intros (shown & [= <-] & Hin).
      apply list_elem_of_In, list_elem_of_filter in Hin as [Hage Hin].
      split; [by apply list_elem_of_In|done].
Qed.

Lemma hasMessage_false_notin (store : gmap string (list Message))
    (to messageId : string) :
  hasMessage store to messageId = false →
  messageId ∉ map m_id (default [] (store !! to)).
Proof.
  unfold hasMessage. intros Hno Hin.
  apply list_elem_of_In, in_map_iff in Hin as (m & Hid & Hin).
  assert (existsb (λ m, String.eqb (m_id m) messageId) (default [] (store !! to)) = true);
    [|congruence].
  apply existsb_exists. exists m. split; [done|]. by apply String.eqb_eq.
Qed.

Lemma NoDup_map_filter (P : Message → Prop) `{!∀ m, Decision (P m)}
    (messages : list Message) :
  NoDup (map m_id messages) → NoDup (map m_id (filter P messages)).
Proof.
  induction messages as [|m rest IH]; [done|]. cbn [map].
  intros [Hnotin Hnd]%NoDup_cons. rewrite filter_cons.
  case_decide; [|by apply IH]. cbn [map]. apply NoDup_cons. split; [|by apply IH].
  intros Hin. apply Hnotin.
  apply list_elem_of_In, in_map_iff in Hin as (m' & Hid & Hin).
  apply list_elem_of_In, in_map_iff. exists m'. split; [done|].
  apply list_elem_of_In. apply list_elem_of_In in Hin.
  by apply list_elem_of_filter in Hin as [_ ?].
Qed.

Lemma ackMailbox_ok (fp : string) (ids : list string)
    (store : gmap string (list Message)) :
  mailbox_ok store → mailbox_ok (ackMailbox fp ids store).
Proof.
  intros Hok fp' messages. rewrite ackMailbox_lookup. case_decide as Hfp.
  - destruct (store !! fp) as [old|] eqn:Hold; cbn; [|done].
    destruct (filter _ old) as [|m rest] eqn:Hrem; [done|]. intros [= <-].
    split; [done|]. rewrite <- Hrem. apply NoDup_map_filter. by apply (Hok fp old).
  - apply Hok.
Qed.

(** One turn of the event loop keeps the mailboxes well formed. *)
Lemma handle_mailbox_ok (e : Event) (s : Server) :
  mailbox_ok (chatMessageStore s) →
  mailbox_ok (chatMessageStore (next (handle host e s))).
Proof.
  intros Hok.
  destruct (touches_chatMessageStore e) eqn:Ht;
    [|by rewrite handle_chatMessageStore_frame].
  destruct e; try done; cbn [handle].
  - (* enqueue *)
    unfold postMessage_end. destruct parsed as [b|]; [|done].
    destruct (negb (truthy (mb_to b)) || negb (truthy (mb_encryptedMessage b))
              || negb (truthy (mb_messageId b))); [done|].
    generalize (default EmptyString (mb_to b)) as to.
    generalize (default EmptyString (mb_messageId b)) as mid. intros mid to.
    destruct (chatMessageStore s !! to) as [old|] eqn:Hold.
    + rewrite Hold. cbn [default from_option]. unfold id.
      destruct (existsb _ old) eqn:Hdup; [done|].
      cbn [next]. rewrite incrementMetric_only.
      cbn [chatMessageStore set_chatMessageStore set_dbPool].
      intros fp messages Hfp. destruct (decide (fp = to)) as [->|Hne].
      * rewrite lookup_insert_eq in Hfp. injection Hfp as <-.
        split; [by destruct old|]. rewrite map_app. cbn.
        apply NoDup_app. split; [by apply (Hok to old)|].
        split; [|apply NoDup_singleton].
        intros x Hx ->%list_elem_of_singleton.
        apply (hasMessage_false_notin (chatMessageStore s) to mid); [|by rewrite Hold].
        unfold hasMessage. by rewrite Hold.
      * rewrite lookup_insert_ne in Hfp by done. by apply (Hok fp).
    + cbn [chatMessageStore set_chatMessageStore]. rewrite lookup_insert_eq.
      cbn [default from_option]. unfold id. simpl (existsb _ []). cbv iota.
      cbn [next]. rewrite incrementMetric_only.
      cbn [chatMessageStore set_chatMessageStore set_dbPool].
      rewrite insert_insert_eq.
      intros fp messages Hfp. destruct (decide (fp = to)) as [->|Hne].
      * rewrite lookup_insert_eq in Hfp. injection Hfp as <-.
        split; [done|]. cbn. apply NoDup_singleton.
      * rewrite lookup_insert_ne in Hfp by done. by apply (Hok fp).
  - (* HTTP acknowledgement *)
    unfold ackMessages_end. repeat case_match; cbn; try done. by apply ackMailbox_ok.
  - (* sweep *)
    cbn [silent next]. intros fp messages. rewrite sweepMessages_lookup.
    destruct (chatMessageStore s !! fp) as [old|] eqn:Hold; cbn; [|done].
    unfold young. destruct (filter _ old) as [|m rest] eqn:Hrem; [done|].
    intros [= <-]. split; [done|]. rewrite <- Hrem. apply NoDup_map_filter.
    by apply (Hok fp old).
  - (* socket frames *)
    destruct (sockets s !! w) as [[st k]|]; [|done].
    case_bool_decide; [done|]. destruct k as [roomId|fp|]; [| |done].
    + unfold roomMessage, burnRoom. handler_cases; done.
    + unfold chatMessage. repeat case_match; cbn; try done. by apply ackMailbox_ok.
Qed.
Lemma run_mailbox_ok (evs : list Event) :
  ∀ s, mailbox_ok (chatMessageStore s) →
       mailbox_ok (chatMessageStore (run host evs s)).
Proof.
  induction evs as [|e evs IH]; intros s Hok; [done|].
  cbn. apply IH. by apply handle_mailbox_ok.
Qed.

(** X9. In every state the server can reach, no mailbox is empty and no
    two messages of a mailbox share an id, whatever requests, frames,
    acknowledgements and sweeps have run. *)
Theorem mailboxes_wellformed (pool : option (gmap string Z)) (evs : list Event)
    (fp : string) (messages : list Message) :
  chatMessageStore (run host evs (initial pool)) !! fp = Some messages →
  messages ≠ [] ∧ NoDup (map m_id messages).
Proof.
  apply (run_mailbox_ok evs (initial pool)). intros fp' ms Hfp'. cbn in Hfp'.
  by rewrite lookup_empty in Hfp'.
Qed.

(** X10. Enqueue, fetch and acknowledge compose as a queue: a message
    with a new id is appended to what a fetch showed before (when fetched
    within 7 days of its timestamp), and after an acknowledgement a fetch
    shows the earlier list without the acknowledged ids. *)
Theorem enqueue_fetch_ack (s : Server) (now t : Z) (b : MessageBody)
    (to enc messageId : string) (ids : list string) :
  enqueues b to enc messageId →
  hasMessage (chatMessageStore s) to messageId = false →
  t - now < 7 * 24 * 60 * 60 * 1000 →
  let msg := mkMessage messageId (or_default (mb_from b) "unknown") enc now in
  let before := young t (default [] (chatMessageStore s !! to)) in
  let s1 := next (handle host (PostMessageEnd now (Some b)) s) in
  let s2 := next (handle host
                    (AckMessagesEnd (Some (mkAckBody (Some to) (Some ids)))) s1) in
  response (handle host (GetMessages t to) s1)
  = Some (mkResponse 200 (BMessages (before ++ [msg])))
  ∧ response (handle host (GetMessages t to) s2)
    = Some (mkResponse 200
              (BMessages (filter (λ m, m_id m ∉ ids) (before ++ [msg]))))
  ∧ (messageId ∈ ids →
     ∀ shown, response (handle host (GetMessages t to) s2)
              = Some (mkResponse 200 (BMessages shown)) →
              msg ∉ shown).
Proof.
  intros Hb Hnew Hyoung msg before s1 s2.
  destruct (postMessage_end_fresh now b to enc messageId s Hb Hnew) as [_ Hs1].
  assert (Hbox1 : chatMessageStore s1 !! to
                  = Some (default [] (chatMessageStore s !! to) ++ [msg])).
  { subst s1. cbn [handle]. rewrite Hs1. apply lookup_insert_eq. }
  assert (Hfetch1 : young t (default [] (chatMessageStore s !! to) ++ [msg])
                    = before ++ [msg]).
  { unfold young, before. rewrite filter_app. f_equal.
    rewrite filter_cons, filter_nil. rewrite decide_True; [done|].
    cbn. unfold CHAT_MESSAGE_TTL_MS. lia. }
  destruct Hb as (_ & Hto & _).
  assert (Hbox2 : default [] (chatMessageStore s2 !! to)
                  = filter (λ m, m_id m ∉ ids)
                      (default [] (chatMessageStore s !! to) ++ [msg])).
  { subst s2. cbn [handle]. unfold ackMessages_end.
    cbn [ab_messageIds ab_fingerprint]. rewrite (nonempty_truthy _ Hto).
    cbn [default from_option reply next chatMessageStore set_chatMessageStore].
    unfold id. rewrite ackMailbox_lookup, decide_True by done. rewrite Hbox1.
    cbn [default from_option]. unfold id. by destruct (filter _ _). }
  assert (Hfetch2 : response (handle host (GetMessages t to) s2)
                    = Some (mkResponse 200
                              (BMessages (filter (λ m, m_id m ∉ ids) (before ++ [msg]))))).
  { cbn [handle]. unfold getMessages. cbn [reply response]. rewrite Hbox2.
    rewrite <- Hfetch1. unfold young. do 3 f_equal.
    rewrite !list_filter_filter. apply list_filter_iff. tauto. }
  split; [|split].
  - cbn [handle]. unfold getMessages. cbn [reply response]. rewrite Hbox1.
    exact (f_equal (λ l, Some (mkResponse 200 (BMessages l))) Hfetch1).
  - exact Hfetch2.
  - intros Hin shown Hshown. rewrite Hfetch2 in Hshown. injection Hshown as <-.
    intros Hmsg%list_elem_of_filter. by destruct Hmsg as [Hn _].
Qed.

(** X11. The live push is an addition to the queue, not a replacement:
    a message with a new id is stored in the mailbox whether or not
    anyone is connected, and exactly one [newMessage] frame, carrying its
    id, payload and sender (["unknown"] when the sender is missing or
    empty), goes to the socket registered for the recipient when that
    socket is open; no frame is sent otherwise. *)
Theorem live_push (s : Server) (now : Z) (b : MessageBody)
    (to enc messageId : string) :
  enqueues b to enc messageId →
  hasMessage (chatMessageStore s) to messageId = false →
  let o := handle host (PostMessageEnd now (Some b)) s in
  let sender := or_default (mb_from b) "unknown" in
  chatMessageStore (next o) !! to
  = Some (default [] (chatMessageStore s !! to)
          ++ [mkMessage messageId sender enc now])
  ∧ sent o
    = match chatConnections s !! to with
      | Some w => if isOpen s w then [(w, FNewMessage messageId sender enc)] else []
      | None => []
      end
  ∧ (truthy (mb_from b) = false → sender = "unknown"%string)
  ∧ chatConnections (next o) = chatConnections s
  ∧ sockets (next o) = sockets s.
Proof.
  intros Hb Hnew o sender.
  destruct (postMessage_end_fresh now b to enc messageId s Hb Hnew) as [_ Hs1].
  split; [subst o; cbn [handle]; rewrite Hs1; apply lookup_insert_eq|].
  clear Hs1. destruct Hb as (Hto & Hto' & Henc & Henc' & Hid & Hid').
  subst o. cbn [handle]. unfold postMessage_end. rewrite Hto, Henc, Hid.
  rewrite !nonempty_truthy by done. cbn [negb orb default from_option]. unfold id.
  unfold hasMessage in Hnew.
  assert (Hmid : (if existsb (λ m, String.eqb (m_id m) messageId)
                       (default [] (chatMessageStore s !! to)) then true else false)
                 = false) by (by rewrite Hnew).
  split; [|split; [|split]].
  - destruct (chatMessageStore s !! to) as [old|] eqn:Hold.
    + rewrite Hold. cbn [default from_option] in *. unfold id in *. rewrite Hnew.
      cbn [sent]. rewrite incrementMetric_only.
      cbn [chatConnections set_chatMessageStore set_dbPool].
      destruct (chatConnections s !! to); [|done]. unfold ws_send, isOpen. by cbn.
    + cbn [chatMessageStore set_chatMessageStore]. rewrite lookup_insert_eq.
      cbn [default from_option]. unfold id. simpl (existsb _ []). cbv iota.
      cbn [sent]. rewrite incrementMetric_only.
      cbn [chatConnections set_chatMessageStore set_dbPool].
      destruct (chatConnections s !! to); [|done]. unfold ws_send, isOpen. by cbn.
  - subst sender. destruct (mb_from b) as [f|]; cbn; [|done].
    destruct (String.eqb f EmptyString); [done|]. by intros [=].
  - destruct (chatMessageStore s !! to) as [old|] eqn:Hold.
    + rewrite Hold. cbn [default from_option] in *. unfold id in *. rewrite Hnew.
      cbn [next]. rewrite incrementMetric_only. done.
    + cbn [chatMessageStore set_chatMessageStore]. rewrite lookup_insert_eq.
      cbn [default from_option]. unfold id. simpl (existsb _ []). cbv iota.
      cbn [next]. rewrite incrementMetric_only. done.
  - destruct (chatMessageStore s !! to) as [old|] eqn:Hold.
    + rewrite Hold. cbn [default from_option] in *. unfold id in *. rewrite Hnew.
      cbn [next]. rewrite incrementMetric_only. done.
    + cbn [chatMessageStore set_chatMessageStore]. rewrite lookup_insert_eq.
      cbn [default from_option]. unfold id. simpl (existsb _ []). cbv iota.
      cbn [next]. rewrite incrementMetric_only. done.
Qed.
(** ** Chat sockets *)

Lemma handle_chatConnections_frame (e : Event) (s : Server) :
  touches_chatConnections e = false →
  chatConnections (next (handle host e s)) = chatConnections s.
Proof.
  destruct e; cbn [touches_chatConnections handle]; intros ?; try done;
    handler_cases; done.
Qed.

(** A registration stays until the socket closes or another handshake
    names the fingerprint. *)
Lemma handle_registration_kept (fp : string) (w : nat) (e : Event) (s : Server) :
  unregisters fp w e = false →
  chatConnections s !! fp = Some w →
  chatConnections (next (handle host e s)) !! fp = Some w.
Proof.
  intros Hun Hreg.
  destruct (touches_chatConnections e) eqn:Ht;
    [|by rewrite handle_chatConnections_frame].
  destruct e; try done; cbn [handle].
  - destruct (sockets s !! w0); [done|]. unfold connection.
    destruct query as [q|]; [|by rewrite ws_close_only].
    cbn in Hun. apply bool_decide_eq_false in Hun.
    destruct (truthy (q_chatFingerprint q)) eqn:Hchat.
    + destruct (truthy_Some _ Hchat) as (v & Hv & _ & ->). cbn.
      rewrite lookup_insert_ne; [done|]. intros ->. congruence.
    + handler_cases; done.
  - cbn in Hun. apply bool_decide_eq_false in Hun.
    destruct (sockets s !! w0) as [[st k]|]; [|done].
    case_bool_decide; [done|]. destruct k as [roomId|fp'|]; [| |done].
    + unfold roomClose, scheduleDestruction. handler_cases; done.
    + unfold chatClose. cbn [chatConnections set_sockets].
      case_bool_decide as Hmap; [|done]. cbn.
      destruct (decide (fp' = fp)) as [->|Hne]; [congruence|].
      by rewrite lookup_delete_ne.
Qed.

Lemma run_registration_kept (fp : string) (w : nat) (evs : list Event) :
  ∀ s, Forall (λ e, unregisters fp w e = false) evs →
       chatConnections s !! fp = Some w →
       chatConnections (run host evs s) !! fp = Some w.
Proof.
  induction evs as [|e evs IH]; intros s Hall Hreg; [done|].
  apply Forall_cons in Hall as [He Hall]. cbn. apply IH; [done|].
  by apply handle_registration_kept.
Qed.

(** X12. The live chat socket of a fingerprint is the one that
    registered last.  A chat handshake (a non-empty [chatFingerprint],
    whatever [roomId] says) on a new socket is sent [connected] and
    takes the registration over from any earlier socket, which is
    neither closed nor told; the registration then survives everything
    but the socket's own ["close"] event and a later handshake for the
    fingerprint, the ["close"] event of an earlier socket of that
    fingerprint included; the socket's own ["close"] event removes it. *)
Theorem chat_registration_last_wins (s : Server) (w : nat) (q : Query) (fp : string)
    (evs : list Event) :
  sockets s !! w = None →
  q_chatFingerprint q = Some fp → fp ≠ EmptyString →
  Forall (λ e, unregisters fp w e = false) evs →
  let o := handle host (Connection w (Some q)) s in
  let s' := run host evs (next o) in
  sent o = [(w, FConnected fp)]
  ∧ chatConnections (next o) !! fp = Some w
  ∧ sockets (next o) = <[w := mkSocket 1 (ChatSocket fp)]> (sockets s)
  ∧ rooms (next o) = rooms s
  ∧ chatConnections s' !! fp = Some w
  ∧ (∀ w', w' ≠ w → chatConnections (next (handle host (WsClose w') s')) !! fp = Some w)
  ∧ (∀ st, sockets s' !! w = Some (mkSocket st (ChatSocket fp)) → st ≠ 3 →
           chatConnections (next (handle host (WsClose w) s')) !! fp = None).
Proof.
  intros Hw Hq Hfp Hall o s'.
  assert (Ho : sent o = [(w, FConnected fp)]
               ∧ chatConnections (next o) = <[fp := w]> (chatConnections s)
               ∧ sockets (next o) = <[w := mkSocket 1 (ChatSocket fp)]> (sockets s)
               ∧ rooms (next o) = rooms s).
  { subst o. cbn [handle]. rewrite Hw. unfold connection.
    rewrite Hq, (nonempty_truthy _ Hfp). cbn [default from_option]. unfold id.
    cbn [sent next chatConnections set_chatConnections sockets set_sockets rooms].
    split; [|by rewrite insert_insert_eq].
    unfold ws_send, isOpen. cbn. by rewrite lookup_insert_eq. }
  destruct Ho as (Hsent & Hreg & Hsock & Hrooms).
  assert (Hreg' : chatConnections (next o) !! fp = Some w)
    by (rewrite Hreg; apply lookup_insert_eq).
  assert (Hs' : chatConnections s' !! fp = Some w) by (by apply run_registration_kept).
  repeat (split; [done|]). clearbody s'. split.
  - intros w' Hne. apply handle_registration_kept; [|done].
    cbn. by apply bool_decide_eq_false_2.
  - intros st Hsw Hst. cbn [handle]. rewrite Hsw.
    rewrite bool_decide_eq_false_2 by done. unfold chatClose.
    cbn [chatConnections set_sockets]. rewrite bool_decide_eq_true_2 by done.
    cbn. apply lookup_delete_eq.
Qed.
(** ** Frames *)

(** X13. A binary frame on a room socket is never parsed: whatever its
    bytes, and whatever the host's decoder and [JSON.parse] would make
    of them (the burn frame included), the state is left alone and the
    bytes go, unchanged and as a binary frame, to every open member of
    the room other than the sender, and to no other socket. *)
Theorem binary_frame_forwarded (w : nat) (roomId : string)
    (data : list Byte.byte) (st : Z) (s : Server) :
  sockets s !! w = Some (mkSocket st (RoomSocket roomId)) → st ≠ 3 →
  let o := handle host (WsMessage w data true) s in
  next o = s
  ∧ sent o = map (λ c, (c, FBinary data))
               (filter (λ c, c ≠ w ∧ isOpen s c = true) (members s roomId))
  ∧ (∀ c f, (c, f) ∈ sent o
            ↔ f = FBinary data ∧ c ≠ w ∧ c ∈ members s roomId ∧ isOpen s c = true)
  ∧ ∀ host', handle host' (WsMessage w data true) s = o.
Proof.
  intros Hw Hst o. subst o. cbn [handle]. rewrite Hw.
  rewrite bool_decide_eq_false_2 by done. unfold roomMessage, members, sendToOthers.
  destruct (rooms s !! roomId) as [r|]; cbn.
  - repeat (split; [done|]). split; [|done]. intros c f.
    rewrite list_elem_of_map_pair, list_elem_of_filter. tauto.
  - repeat (split; [done|]). split; [|done]. intros c f.
    split; [by intros ?%elem_of_nil|]. by intros (_ & _ & ?%elem_of_nil & _).
Qed.

(** X14. A frame on a chat socket never produces a frame in return and
    can change nothing but the mailbox of the socket's own fingerprint;
    a frame that does not parse, parses to [null] or is not an ["ack"]
    with an array of ids changes nothing at all; and the binary flag of
    the frame makes no difference. *)
Theorem chat_frame_effects (w : nat) (fp : string) (data : list Byte.byte)
    (isBinary : bool) (st : Z) (s : Server) :
  sockets s !! w = Some (mkSocket st (ChatSocket fp)) → st ≠ 3 →
  let o := handle host (WsMessage w data isBinary) s in
  sent o = [] ∧ response o = None
  ∧ next o = set_chatMessageStore (chatMessageStore (next o)) s
  ∧ (∀ fp', fp' ≠ fp → chatMessageStore (next o) !! fp' = chatMessageStore s !! fp')
  ∧ handle host (WsMessage w data (negb isBinary)) s = o
  ∧ ((∀ fields items,
        JSON_parse host (toString_utf8 host data) = Some (JObject fields) →
        assoc "type" fields = Some (JString "ack") →
        assoc "messageIds" fields = Some (JArray items) → False) →
     next o = s).
Proof.
  intros Hw Hst o. subst o. cbn [handle]. rewrite Hw.
  rewrite bool_decide_eq_false_2 by done. unfold chatMessage.
  destruct (JSON_parse host (toString_utf8 host data)) as [j|];
    [|repeat split; try done; by destruct s].
  assert (Hsame : ∀ t : Server, t = set_chatMessageStore (chatMessageStore t) t)
    by (by intros []).
  destruct j as [| | | | |fields]; cbn [prop];
    try (repeat split; try done; apply Hsame).
  destruct (assoc "messageIds" fields) as [[| | | |items|]|] eqn:Hitems;
    try (repeat split; try done; apply Hsame).
  destruct (is_string (assoc "type" fields) "ack") eqn:Htype;
    [|repeat split; try done; apply Hsame].
  cbn [sent response next chatMessageStore set_chatMessageStore].
  apply is_string_spec in Htype.
  repeat (split; [done|]). split; [|split; [done|]].
  - intros fp' Hne. rewrite ackMailbox_lookup. by rewrite decide_False.
  - intros Hnot. by destruct (Hnot fields items).
Qed.
(** ** The life of a room *)

Lemma kept_live_refl (socks : gmap nat Socket) : kept_live socks socks.
Proof. intros w st r Hw Hst. by exists st. Qed.

Lemma kept_live_trans (a b c : gmap nat Socket) :
  kept_live a b → kept_live b c → kept_live a c.
Proof.
  intros Hab Hbc w st r Hw Hst.
  destruct (Hab w st r Hw Hst) as (st1 & Hw1 & Hst1). by apply (Hbc w st1 r).
Qed.

Lemma ws_close_kept (w : nat) (s : Server) :
  kept_live (sockets s) (sockets (ws_close w s)).
Proof.
  intros w' st r Hw' Hst. rewrite ws_close_lookup, Hw'. cbn.
  case_bool_decide; eexists; (split; [done|]); [lia|done].
Qed.

Lemma burnLoop_kept (roomId : string) (cs : list nat) :
  ∀ s, kept_live (sockets s) (sockets (burnLoop roomId cs s).2).
Proof.
  induction cs as [|c cs IH]; intros s; cbn; [apply kept_live_refl|].
  specialize (IH (ws_close c s)).
  destruct (burnLoop roomId cs (ws_close c s)) as [outs s']. cbn in *.
  eapply kept_live_trans; [apply ws_close_kept | exact IH].
Qed.

Lemma insert_fresh_kept (w : nat) (sock : Socket) (socks : gmap nat Socket) :
  socks !! w = None → kept_live socks (<[w := sock]> socks).
Proof.
  intros Hw w' st r Hw' Hst. exists st. split; [|done].
  rewrite lookup_insert_ne; [done|]. intros ->. congruence.
Qed.

Section Lifecycle.

Context (rms : gmap string Room) (burned : gset string)
  (socks : gmap nat Socket) (tms : gmap nat string) (seq : nat).
Hypothesis Hok : registry_ok rms burned socks tms seq.
Hypothesis Hlife : lifecycle_ok rms socks tms seq.

(** Sockets may change as long as the live ones stay live. *)
Lemma life_kept (socks' : gmap nat Socket) :
  kept_live socks socks' → lifecycle_ok rms socks' tms seq.
Proof.
  intros Hk. destruct Hlife as [Hkn Ha Hh]. split; try done.
  intros r room c Hroom Hin. destruct (Hkn r room c Hroom Hin) as (st & Hc & Hst).
  by apply (Hk c st r).
Qed.

(** A room leaves the registry. *)
Lemma life_room_deleted (r : string) :
  lifecycle_ok (delete r rms) socks tms seq.
Proof.
  destruct Hlife as [Hkn Ha Hh]. split.
  - intros r' room c [_ Hroom]%lookup_delete_Some. by apply Hkn.
  - intros r' room [_ Hroom]%lookup_delete_Some. by apply Ha.
  - intros r' room h [_ Hroom]%lookup_delete_Some. by apply Hh.
Qed.

(** The destruction timer [h] fires. *)
Lemma life_timer_fired (h : nat) (r : string) :
  tms !! h = Some r →
  lifecycle_ok (delete r rms) socks (delete h tms) seq.
Proof.
  intros Hh0. destruct Hlife as [Hkn Ha Hh]. split.
  - intros r' room c [_ Hroom]%lookup_delete_Some. by apply Hkn.
  - intros r' room [Hne Hroom]%lookup_delete_Some.
    destruct (Ha r' room Hroom) as [?|(h' & Ht & Hp)]; [by left|].
    right. exists h'. split; [done|]. rewrite lookup_delete_ne; [done|].
    intros <-. congruence.
  - intros r' room h' [_ Hroom]%lookup_delete_Some Ht.
    destruct (Hh r' room h' Hroom Ht) as [Hlt Huniq]. split; [done|].
    intros r'' [_ Hp]%lookup_delete_Some. by apply Huniq.
Qed.

(** A live room socket [w] of room [r] delivers its ["close"] event while
    other members remain. *)
Lemma life_leave_some (w : nat) (st : Z) (r : string) (room : Room) :
  socks !! w = Some (mkSocket st (RoomSocket r)) →
  rms !! r = Some room →
  filter (λ c, c ≠ w) (clients room) ≠ [] →
  lifecycle_ok (<[r := mkRoom (filter (λ c, c ≠ w) (clients room)) (timer room)]> rms)
    (<[w := mkSocket 3 (RoomSocket r)]> socks) tms seq.
Proof.
  intros Hw Hroom Hsome. destruct Hlife as [Hkn Ha Hh]. split.
  - intros r' room' c Hroom' Hin. destruct (decide (r' = r)) as [->|Hne].
    + rewrite lookup_insert_eq in Hroom'. injection Hroom' as <-. cbn in Hin.
      apply list_elem_of_filter in Hin as [Hcw Hin].
      rewrite lookup_insert_ne by done. by apply (Hkn r room).
    + rewrite lookup_insert_ne in Hroom' by done.
      destruct (Hkn r' room' c Hroom' Hin) as (st' & Hc & Hst').
      exists st'. split; [|done]. rewrite lookup_insert_ne; [done|].
      intros ->. congruence.
  - intros r' room' Hroom'. destruct (decide (r' = r)) as [->|Hne].
    + rewrite lookup_insert_eq in Hroom'. injection Hroom' as <-. by left.
    + rewrite lookup_insert_ne in Hroom' by done. by apply Ha.
  - intros r' room' h Hroom' Ht. destruct (decide (r' = r)) as [->|Hne].
    + rewrite lookup_insert_eq in Hroom'. injection Hroom' as <-. by apply (Hh r room).
    + rewrite lookup_insert_ne in Hroom' by done. by apply (Hh r' room').
Qed.

(** The last member [w] of room [r] delivers its ["close"] event and the
    destruction timer [seq] is armed. *)
Lemma life_leave_last (w : nat) (st : Z) (r : string) (room : Room) :
  socks !! w = Some (mkSocket st (RoomSocket r)) →
  rms !! r = Some room →
  lifecycle_ok (<[r := mkRoom [] (Some seq)]> rms)
    (<[w := mkSocket 3 (RoomSocket r)]> socks) (<[seq := r]> tms) (S seq).
Proof.
  intros Hw Hroom. destruct Hlife as [Hkn Ha Hh].
  pose proof (ok_seq _ _ _ _ _ Hok) as Hseq. split.
  - intros r' room' c Hroom' Hin. destruct (decide (r' = r)) as [->|Hne].
    + rewrite lookup_insert_eq in Hroom'. injection Hroom' as <-.
      by apply elem_of_nil in Hin.
    + rewrite lookup_insert_ne in Hroom' by done.
      destruct (Hkn r' room' c Hroom' Hin) as (st' & Hc & Hst').
      exists st'. split; [|done]. rewrite lookup_insert_ne; [done|].
      intros ->. congruence.
  - intros r' room' Hroom'. destruct (decide (r' = r)) as [->|Hne].
    + rewrite lookup_insert_eq in Hroom'. injection Hroom' as <-. right.
      exists seq. split; [done|]. apply lookup_insert_eq.
    + rewrite lookup_insert_ne in Hroom' by done.
      destruct (Ha r' room' Hroom') as [?|(h & Ht & Hp)]; [by left|].
      right. exists h. split; [done|]. rewrite lookup_insert_ne; [done|].
      intros <-. specialize (Hseq _ _ Hp). lia.
  - intros r' room' h Hroom' Ht. destruct (decide (r' = r)) as [->|Hne].
    + rewrite lookup_insert_eq in Hroom'. injection Hroom' as <-. cbn in Ht.
      injection Ht as <-. split; [lia|]. intros r'. rewrite lookup_insert_eq.
      congruence.
    + rewrite lookup_insert_ne in Hroom' by done.
      destruct (Hh r' room' h Hroom' Ht) as [Hlt Huniq]. split; [lia|].
      intros r''. rewrite lookup_insert_ne by lia. apply Huniq.
Qed.

(** A new socket [w] joins the room [r]; a pending destruction timer of
    the room is cancelled. *)
Lemma life_join (w : nat) (r : string) :
  socks !! w = None →
  let room0 := default (mkRoom [] None) (rms !! r) in
  lifecycle_ok (<[r := mkRoom (addClient w (clients room0)) (timer room0)]> rms)
    (<[w := mkSocket 1 (RoomSocket r)]> socks)
    (match timer room0 with Some h => delete h tms | None => tms end) seq.
Proof.
  intros Hw room0. destruct Hlife as [Hkn Ha Hh].
  assert (Hother : ∀ c st r', socks !! c = Some (mkSocket st (RoomSocket r')) →
                   <[w := mkSocket 1 (RoomSocket r)]> socks !! c
                   = Some (mkSocket st (RoomSocket r'))).
  { intros c st r' Hc. rewrite lookup_insert_ne; [done|]. intros ->. congruence. }
  split.
  - intros r' room' c Hroom' Hin. destruct (decide (r' = r)) as [->|Hne].
    + rewrite lookup_insert_eq in Hroom'. injection Hroom' as <-. cbn in Hin.
      apply addClient_elem in Hin as [->|Hin].
      * exists 1. by rewrite lookup_insert_eq.
      * subst room0. destruct (rms !! r) as [room|] eqn:Hroom; cbn in Hin;
          [|by apply elem_of_nil in Hin].
        destruct (Hkn r room c Hroom Hin) as (st' & Hc & Hst').
        exists st'. split; [by apply Hother|done].
    + rewrite lookup_insert_ne in Hroom' by done.
      destruct (Hkn r' room' c Hroom' Hin) as (st' & Hc & Hst').
      exists st'. split; [by apply Hother|done].
  - intros r' room' Hroom'. destruct (decide (r' = r)) as [->|Hne].
    + rewrite lookup_insert_eq in Hroom'. injection Hroom' as <-. left. cbn.
      intros Hnil. assert (w ∈ addClient w (clients room0)) as Hin
        by (apply addClient_elem; by left).
      rewrite Hnil in Hin. by apply elem_of_nil in Hin.
    + rewrite lookup_insert_ne in Hroom' by done.
      destruct (Ha r' room' Hroom') as [?|(h & Ht & Hp)]; [by left|].
      right. exists h. split; [done|].
      destruct (timer room0) as [h0|] eqn:Ht0; [|done].
      rewrite lookup_delete_ne; [done|]. intros ->.
      subst room0. destruct (rms !! r) as [room|] eqn:Hroom; cbn in Ht0; [|done].
      destruct (Hh r room h Hroom Ht0) as [_ Huniq]. by destruct (Hne (Huniq r' Hp)).
  - intros r' room' h Hroom' Ht.
    assert (Hsub : ∀ h' r'', (match timer room0 with
                              | Some h0 => delete h0 tms | None => tms end) !! h'
                             = Some r'' → tms !! h' = Some r'').
    { intros h' r''. destruct (timer room0); [|done].
      by intros [_ ?]%lookup_delete_Some. }
    destruct (decide (r' = r)) as [->|Hne].
    + rewrite lookup_insert_eq in Hroom'. injection Hroom' as <-. cbn in Ht.
      subst room0. destruct (rms !! r) as [room|] eqn:Hroom; cbn in Ht; [|done].
      destruct (Hh r room h Hroom Ht) as [Hlt Huniq]. split; [done|].
      intros r'' Hp. apply Huniq. by apply Hsub in Hp.
    + rewrite lookup_insert_ne in Hroom' by done.
      destruct (Hh r' room' h Hroom' Ht) as [Hlt Huniq]. split; [done|].
      intros r'' Hp. apply Huniq. by apply Hsub.
Qed.

End Lifecycle.
Lemma initial_wf_life (pool : option (gmap string Z)) : wf_life (initial pool).
Proof. split; cbn; intros *; by rewrite ?lookup_empty. Qed.

Lemma ws_close_wf_life (w : nat) (s : Server) : wf_life s → wf_life (ws_close w s).
Proof.
  intros Hl. unfold wf_life. rewrite ws_close_only. cbn.
  eapply life_kept; [exact Hl | apply ws_close_kept].
Qed.

Lemma timerFired_wf_life (h : nat) (s : Server) :
  wf_life s → wf_life (timerFired h s).
Proof.
  intros Hl. unfold timerFired. destruct (timers s !! h) as [r|] eqn:Hh; [|done].
  unfold wf_life. cbn. by apply life_timer_fired.
Qed.

Lemma burnRoom_wf_life (w : nat) (roomId : string) (s : Server) :
  wf_life s → wf_life (next (burnRoom w roomId s)).
Proof.
  intros Hl. unfold burnRoom. cbn [rooms set_burnedRooms].
  destruct (rooms s !! roomId) as [r|] eqn:Hr.
  - pose proof (burnLoop_only roomId (clients r)
                  (set_burnedRooms ({[roomId]} ∪ burnedRooms s) s)) as Hs2.
    pose proof (burnLoop_kept roomId (clients r)
                  (set_burnedRooms ({[roomId]} ∪ burnedRooms s) s)) as Hkept.
    destruct (burnLoop roomId (clients r) _) as [out s2]. cbn in Hs2, Hkept.
    unfold wf_life. cbn [next]. rewrite Hs2. cbn.
    eapply life_kept; [|exact Hkept]. by apply life_room_deleted.
  - cbn [next]. apply ws_close_wf_life. exact Hl.
Qed.

Lemma roomClose_wf_life (w : nat) (st : Z) (roomId : string) (s : Server) :
  sockets s !! w = Some (mkSocket st (RoomSocket roomId)) →
  wf s → wf_life s →
  wf_life (next (roomClose w roomId
                   (set_sockets (<[w := mkSocket 3 (RoomSocket roomId)]> (sockets s)) s))).
Proof.
  intros Hw Hwf Hl. unfold roomClose. cbn [rooms set_sockets].
  destruct (rooms s !! roomId) as [room|] eqn:Hroom.
  - case_bool_decide as Hlen.
    + apply nil_length_inv in Hlen.
      pose proof (life_leave_last _ _ _ _ _ Hwf Hl w st roomId room Hw Hroom) as Hlast.
      unfold scheduleDestruction. cbn [next rooms set_rooms].
      rewrite lookup_insert_eq. unfold wf_life. cbn. rewrite Hlen.
      by rewrite insert_insert_eq.
    + unfold wf_life. cbn. apply (life_leave_some _ _ _ _ Hl w st); [done|done|].
      intros Hnil. by rewrite Hnil in Hlen.
  - (* the room is gone: the socket is a member of no room *)
    unfold wf_life. cbn. destruct Hl as [Hkn Ha Hh]. split; try done.
    intros r room c Hr Hin. destruct (Hkn r room c Hr Hin) as (st' & Hc & Hst').
    exists st'. split; [|done]. rewrite lookup_insert_ne; [done|].
    intros ->. rewrite Hw in Hc. injection Hc as _ <-. congruence.
Qed.

Lemma connection_wf_life (w : nat) (query : option Query) (s : Server) :
  sockets s !! w = None → wf_life s → wf_life (next (connection w query s)).
Proof.
  intros Hw Hl.
  assert (Hnew : ∀ sock, lifecycle_ok (rooms s) (<[w := sock]> (sockets s))
                           (timers s) (timerSeq s)).
  { intros sock. eapply life_kept; [exact Hl|]. by apply insert_fresh_kept. }
  assert (Hrejected :
    wf_life (ws_close w (set_sockets (<[w := mkSocket 1 NoHandlers]> (sockets s)) s))).
  { apply ws_close_wf_life. unfold wf_life. cbn. apply Hnew. }
  unfold connection. destruct query as [q|]; [|done].
  destruct (truthy (q_chatFingerprint q)).
  { unfold wf_life. cbn. rewrite insert_insert_eq. apply Hnew. }
  destruct (negb (truthy (q_roomId q))); [done|].
  cbn [burnedRooms set_sockets]. case_bool_decide as Hburned; [done|].
  pose proof (life_join _ _ _ _ Hl w (default EmptyString (q_roomId q)) Hw) as Hjoin.
  set (roomId := default EmptyString (q_roomId q)) in *. cbn zeta in Hjoin.
  unfold getRoom, clearRoomTimer. cbn [rooms set_sockets].
  destruct (rooms s !! roomId) as [room|] eqn:Hroom.
  - rewrite bool_decide_eq_false_2 by done.
    cbn [rooms set_sockets]. rewrite Hroom.
    cbn [rooms set_rooms set_sockets]. rewrite lookup_insert_eq.
    cbn [default from_option] in Hjoin. unfold id in Hjoin.
    unfold wf_life. destruct (timer room); cbn; rewrite insert_insert_eq; exact Hjoin.
  - rewrite bool_decide_eq_true_2 by done.
    rewrite incrementMetric_only. cbn [rooms set_rooms set_sockets set_dbPool].
    rewrite lookup_insert_eq. cbn [rooms set_rooms set_sockets set_dbPool clients timer].
    rewrite lookup_insert_eq.
    cbn [default from_option clients timer] in Hjoin.
    unfold wf_life. cbn. rewrite !insert_insert_eq. exact Hjoin.
Qed.

(** One turn of the event loop keeps the second registry invariant. *)
Lemma handle_wf_life (e : Event) (s : Server) :
  wf s → wf_life s → wf_life (next (handle host e s)).
Proof.
  intros Hwf Hl. destruct (touches_registry e) eqn:Ht.
  - destruct e; try done; cbn [handle].
    + destruct (sockets s !! w) eqn:Hw; [done|]. by apply connection_wf_life.
    + destruct (sockets s !! w) as [[st k]|] eqn:Hw; [|done].
      case_bool_decide as Hst; [done|]. destruct k as [roomId|fp|]; [| |done].
      * unfold roomMessage. destruct isBinary.
        { by destruct (rooms s !! roomId). }
        destruct (isBurnFrame _ roomId); [by apply burnRoom_wf_life|].
        by destruct (rooms s !! roomId).
      * unfold chatMessage. repeat case_match; done.
    + by apply ws_close_wf_life.
    + destruct (sockets s !! w) as [[st k]|] eqn:Hw; [|done].
      case_bool_decide as Hst; [done|].
      assert (Hdead : ∀ k', (∀ r, k ≠ RoomSocket r) →
                lifecycle_ok (rooms s) (<[w := mkSocket 3 k']> (sockets s))
                  (timers s) (timerSeq s)).
      { intros k' Hk. eapply life_kept; [exact Hl|].
        intros c st' r Hc Hst'. exists st'. split; [|done].
        rewrite lookup_insert_ne; [done|]. intros ->. rewrite Hw in Hc.
        injection Hc as _ ->. by destruct (Hk r). }
      destruct k as [roomId|fp|].
      * by apply (roomClose_wf_life w st).
      * unfold chatClose. case_bool_decide; unfold wf_life; cbn; by apply Hdead.
      * cbn. unfold wf_life. cbn. by apply Hdead.
    + by apply timerFired_wf_life.
  - destruct (handle_registry_frame e s Ht) as (Hr & Hb & Hs & Htm & Hq).
    unfold wf_life. by rewrite Hr, Hs, Htm, Hq.
Qed.

Lemma run_wf_both (evs : list Event) :
  ∀ s, wf s → wf_life s → wf (run host evs s) ∧ wf_life (run host evs s).
Proof.
  induction evs as [|e evs IH]; intros s Hwf Hl; [done|].
  cbn. apply IH; [by apply handle_wf | by apply handle_wf_life].
Qed.

Lemma reachable_wf (pool : option (gmap string Z)) (evs : list Event) :
  wf (run host evs (initial pool)) ∧ wf_life (run host evs (initial pool)).
Proof. apply run_wf_both; [apply initial_wf | apply initial_wf_life]. Qed.
Lemma isOpen_insert_ne (s : Server) (w c : nat) (sock : Socket) :
  c ≠ w → isOpen (set_sockets (<[w := sock]> (sockets s)) s) c = isOpen s c.
Proof. intros Hne. unfold isOpen. cbn. by rewrite lookup_insert_ne. Qed.

Lemma filter_isOpen_ext (s s' : Server) (cs : list nat) :
  (∀ c, c ∈ cs → isOpen s' c = isOpen s c) →
  filter (λ c, isOpen s' c = true) cs = filter (λ c, isOpen s c = true) cs.
Proof.
  induction cs as [|c cs IH]; intros Hext; [done|].
  rewrite !filter_cons, IH by (intros; apply Hext; by right).
  rewrite (Hext c) by left. done.
Qed.

(** The state in which a room handshake broadcasts presence. *)
Lemma connection_join (w : nat) (q : Query) (roomId : string) (s : Server) :
  truthy (q_chatFingerprint q) = false →
  q_roomId q = Some roomId → roomId ≠ EmptyString →
  roomId ∉ burnedRooms s → w ∉ members s roomId →
  ∃ s4 room4,
    connection w (Some q) s
    = mkOutcome None (broadcastPresence roomId s4)
        (set_sockets (<[w := mkSocket 1 (RoomSocket roomId)]> (sockets s4)) s4)
    ∧ rooms s4 = <[roomId := room4]> (rooms s)
    ∧ clients room4 = members s roomId ++ [w]
    ∧ sockets s4 = <[w := mkSocket 1 NoHandlers]> (sockets s).
Proof.
  intros Hchat Hq Hne Hnb Hfresh. unfold connection.
  rewrite Hchat, Hq, (nonempty_truthy _ Hne).
  cbn [negb default from_option burnedRooms set_sockets]. unfold id.
  rewrite bool_decide_eq_false_2 by done.
  unfold getRoom, clearRoomTimer, members in *. cbn [rooms set_sockets].
  destruct (rooms s !! roomId) as [room|] eqn:Hroom.
  - rewrite bool_decide_eq_false_2 by done. cbn [rooms set_sockets]. rewrite Hroom.
    cbn [rooms set_rooms set_sockets]. rewrite lookup_insert_eq.
    unfold addClient. rewrite bool_decide_eq_false_2 by done.
    destruct (timer room); (do 2 eexists); (split; [reflexivity|]); cbn; done.
  - rewrite bool_decide_eq_true_2 by done. rewrite incrementMetric_only.
    cbn [rooms set_rooms set_sockets set_dbPool]. rewrite lookup_insert_eq.
    cbn [rooms set_rooms set_sockets set_dbPool clients timer].
    rewrite lookup_insert_eq. cbn [clients timer].
    unfold addClient. rewrite bool_decide_eq_false_2 by apply not_elem_of_nil.
    do 2 eexists. split; [reflexivity|]. cbn. by rewrite insert_insert_eq.
Qed.

(** X15. Joining a room, in every state the server can reach: a room
    handshake (no [chatFingerprint], a room id that is not burned) on a
    new socket appends the socket to the members of the room, creating
    the room when it is not registered; a presence frame whose count is
    the new number of members goes to every open member, the newcomer
    included; and no destruction timer of that room is left pending. *)
Theorem join_presence (pool : option (gmap string Z)) (evs0 : list Event)
    (w : nat) (q : Query) (roomId : string) :
  let s := run host evs0 (initial pool) in
  sockets s !! w = None →
  q_roomId q = Some roomId → roomId ≠ EmptyString →
  truthy (q_chatFingerprint q) = false →
  roomId ∉ burnedRooms s →
  let o := handle host (Connection w (Some q)) s in
  members (next o) roomId = members s roomId ++ [w]
  ∧ sent o
    = map (λ c, (c, FPresence roomId (S (length (members s roomId)))))
        (filter (λ c, isOpen s c = true) (members s roomId) ++ [w])
  ∧ sockets (next o) = <[w := mkSocket 1 (RoomSocket roomId)]> (sockets s)
  ∧ (∀ h, timers (next o) !! h ≠ Some roomId)
  ∧ (∀ r, r ≠ roomId → rooms (next o) !! r = rooms s !! r).
Proof.
  intros s Hw Hq Hne Hchat Hnb o.
  destruct (reachable_wf pool evs0) as [Hwf Hl]. fold s in Hwf, Hl.
  assert (Hwf' : wf (next o)) by (by apply handle_wf).
  assert (Hfresh : w ∉ members s roomId).
  { unfold members. destruct (rooms s !! roomId) as [room|] eqn:Hroom;
      [|apply not_elem_of_nil].
    intros Hin. destruct (ok_known _ _ _ _ Hl roomId room w Hroom Hin) as (? & ? & _).
    congruence. }
  clearbody s. subst o. cbn [handle] in *. rewrite Hw in *.
  destruct (connection_join w q roomId s Hchat Hq Hne Hnb Hfresh)
    as (s4 & room4 & Heq & Hrooms & Hclients & Hsocks).
  rewrite Heq in *. clear Heq. cbn [next sent] in *.
  split; [|split; [|split; [|split]]].
  - unfold members at 1. cbn [rooms set_sockets]. rewrite Hrooms, lookup_insert_eq. done.
  - unfold broadcastPresence, sendToOpen. rewrite Hrooms, lookup_insert_eq, Hclients.
    rewrite length_app. cbn [length].
    replace (length (members s roomId) + 1)%nat with (S (length (members s roomId)))
      by lia.
    f_equal. rewrite filter_app. f_equal.
    + apply filter_isOpen_ext. intros c Hc. unfold isOpen. rewrite Hsocks.
      rewrite lookup_insert_ne; [done|]. intros ->. done.
    + rewrite filter_cons, filter_nil. rewrite decide_True; [done|].
      unfold isOpen. rewrite Hsocks, lookup_insert_eq. done.
  - cbn. rewrite Hsocks. apply insert_insert_eq.
  - intros h Hh.
    eapply (live_no_timer _ _ _ _ _ Hwf' w 1 roomId); [|done|exact Hh].
    cbn. apply lookup_insert_eq.
  - intros r Hr. cbn. rewrite Hrooms. by rewrite lookup_insert_ne.
Qed.
Lemma filter_ne_notin (w : nat) (cs : list nat) :
  w ∉ cs → filter (λ c, c ≠ w) cs = cs.
Proof.
  induction cs as [|c cs IH]; intros Hnotin; [done|].
  apply not_elem_of_cons in Hnotin as [Hne Hnotin].
  rewrite filter_cons, decide_True by done. by rewrite IH.
Qed.

Lemma length_filter_remove (w : nat) (cs : list nat) :
  NoDup cs → w ∈ cs → S (length (filter (λ c, c ≠ w) cs)) = length cs.
Proof.
  induction 1 as [|c cs Hc Hnd IH]; intros Hin; [by apply elem_of_nil in Hin|].
  rewrite filter_cons. destruct (decide (c = w)) as [->|Hne].
  - rewrite decide_False by (intros Hn; by apply Hn). cbn. f_equal.
    by rewrite filter_ne_notin.
  - rewrite decide_True by done. cbn. f_equal. apply IH.
    apply elem_of_cons in Hin as [->|]; done.
Qed.

(** X16. Leaving a room, in every state the server can reach: the
    ["close"] event of a socket that joined a room which is not burned
    finds the socket among the members and removes exactly it; the room
    stays registered; the members left get a presence frame with their
    number if they are open; and exactly when nobody is left a
    destruction timer is armed, whose firing removes the room. *)
Theorem leave_presence (pool : option (gmap string Z)) (evs0 : list Event)
    (w : nat) (st : Z) (roomId : string) :
  let s := run host evs0 (initial pool) in
  sockets s !! w = Some (mkSocket st (RoomSocket roomId)) → st ≠ 3 →
  roomId ∉ burnedRooms s →
  let o := handle host (WsClose w) s in
  let rest := filter (λ c, c ≠ w) (members s roomId) in
  w ∈ members s roomId
  ∧ S (length rest) = length (members s roomId)
  ∧ members (next o) roomId = rest
  ∧ is_Some (rooms (next o) !! roomId)
  ∧ sent o = map (λ c, (c, FPresence roomId (length rest)))
               (filter (λ c, isOpen s c = true) rest)
  ∧ timers (next o)
    = (if bool_decide (rest = []) then <[timerSeq s := roomId]> (timers s)
       else timers s)
  ∧ (rest = [] →
     rooms (next (handle host (TimerFired (timerSeq s)) (next o))) !! roomId = None).
Proof.
  intros s Hw Hst Hnb o rest.
  destruct (reachable_wf pool evs0) as [Hwf Hl]. fold s in Hwf, Hl.
  clearbody s.
  destruct (ok_member _ _ _ _ _ Hwf w st roomId Hw Hst) as [?|(room & Hroom & Hin)];
    [done|].
  pose proof (ok_nodup _ _ _ _ _ Hwf roomId room Hroom) as Hnd.
  assert (Hm : members s roomId = clients room) by (unfold members; by rewrite Hroom).
  subst o rest. rewrite Hm. cbn [handle]. rewrite Hw.
  rewrite bool_decide_eq_false_2 by done. unfold roomClose. cbn [rooms set_sockets].
  rewrite Hroom. cbn zeta.
  set (rest := filter (λ c, c ≠ w) (clients room)).
  assert (Hopen : filter (λ c, isOpen (set_rooms (<[roomId := mkRoom rest (timer room)]> (rooms s))
                     (set_sockets (<[w := mkSocket 3 (RoomSocket roomId)]> (sockets s)) s)) c = true) rest
                  = filter (λ c, isOpen s c = true) rest).
  { apply filter_isOpen_ext. intros c Hc. unfold isOpen. cbn.
    rewrite lookup_insert_ne; [done|]. intros ->.
    apply list_elem_of_filter in Hc as [Hc _]. by apply Hc. }
  split; [done|]. split; [by apply length_filter_remove|].
  destruct rest as [|c rest'] eqn:Hrest.
  - rewrite bool_decide_eq_true_2 by done. unfold scheduleDestruction.
    cbn [rooms set_rooms set_sockets]. rewrite lookup_insert_eq.
    cbn [next sent clients timers set_timers set_timerSeq set_rooms set_sockets timerSeq].
    rewrite bool_decide_eq_true_2 by done.
    split; [|split; [|split; [|split]]]; try done.
    + unfold members. cbn. by rewrite insert_insert_eq, lookup_insert_eq.
    + cbn. rewrite insert_insert_eq, lookup_insert_eq. by eexists.
    + intros _. cbn [handle silent next]. unfold timerFired. cbn.
      rewrite lookup_insert_eq. cbn. apply lookup_delete_eq.
  - rewrite bool_decide_eq_false_2 by done.
    cbn [next sent timers set_rooms set_sockets].
    rewrite bool_decide_eq_false_2 by done.
    split; [|split; [|split; [|split]]]; try done.
    + unfold members. cbn. by rewrite lookup_insert_eq.
    + cbn. rewrite lookup_insert_eq. by eexists.
    + unfold broadcastPresence, sendToOpen. cbn [rooms set_rooms set_sockets].
      rewrite lookup_insert_eq. cbn [clients]. by rewrite Hopen.
Qed.

(** X17. Destruction timers, in every state the server can reach: a
    pending timer belongs to a registered room without members, and its
    firing removes that room and the timer and nothing else; firing a
    handle that is not pending changes nothing; so no timer ever removes
    a room that has a member. *)
Theorem timer_removes_only_empty_rooms (pool : option (gmap string Z))
    (evs0 : list Event) (h : nat) :
  let s := run host evs0 (initial pool) in
  let s' := next (handle host (TimerFired h) s) in
  (∀ r, timers s !! h = Some r →
        is_Some (rooms s !! r) ∧ members s r = []
        ∧ rooms s' = delete r (rooms s) ∧ timers s' = delete h (timers s)
        ∧ sockets s' = sockets s ∧ burnedRooms s' = burnedRooms s)
  ∧ (timers s !! h = None → s' = s)
  ∧ (∀ r, members s r ≠ [] → rooms s' !! r = rooms s !! r).
Proof.
  intros s s'. destruct (reachable_wf pool evs0) as [Hwf _]. fold s in Hwf.
  clearbody s. subst s'. cbn [handle silent next]. unfold timerFired.
  split; [|split].
  - intros r Hh. rewrite Hh.
    destruct (ok_timer _ _ _ _ _ Hwf h r Hh) as (room & Hroom & Hempty & _).
    unfold members. rewrite Hroom. by split; [eexists|].
  - by intros ->.
  - intros r Hmem. destruct (timers s !! h) as [r'|] eqn:Hh; [|done].
    destruct (ok_timer _ _ _ _ _ Hwf h r' Hh) as (room & Hroom & Hempty & _).
    cbn. apply lookup_delete_ne. intros ->. apply Hmem.
    unfold members. by rewrite Hroom.
Qed.

(** X18. The room registry, in every state the server can reach: a
    registered room is not burned, lists no socket twice, has a member
    or a pending destruction timer, and its members are exactly the
    sockets that joined it and whose ["close"] event is still to come. *)
Theorem room_registry_invariant (pool : option (gmap string Z))
    (evs0 : list Event) (r : string) (room : Room) :
  let s := run host evs0 (initial pool) in
  rooms s !! r = Some room →
  (r ∉ burnedRooms s)
  ∧ NoDup (clients room)
  ∧ (clients room ≠ [] ∨ ∃ h, timers s !! h = Some r)
  ∧ (∀ c, c ∈ clients room
          ↔ ∃ st, sockets s !! c = Some (mkSocket st (RoomSocket r)) ∧ st ≠ 3).
Proof.
  intros s Hroom. destruct (reachable_wf pool evs0) as [Hwf Hl]. fold s in Hwf, Hl.
  clearbody s.
  assert (Hnb : r ∉ burnedRooms s).
  { intros Hb. pose proof (ok_burned _ _ _ _ _ Hwf r Hb). congruence. }
  split; [done|]. split; [by eapply ok_nodup|]. split.
  - destruct (ok_alive _ _ _ _ Hl r room Hroom) as [?|(h & _ & Hh)]; [by left|].
    right. by exists h.
  - intros c. split.
    + intros Hc. by eapply ok_known.
    + intros (st & Hc & Hst).
      destruct (ok_member _ _ _ _ _ Hwf c st r Hc Hst) as [?|(room' & Hroom' & Hin)];
        [done|].
      congruence.
Qed.
Lemma checkRateLimit_keeps (now : Z) (ip type k : string)
    (b : gmap string RateLimit.otm_bucket) :
  is_Some (b !! k) → is_Some ((RateLimit.checkRateLimit now ip type b).2 !! k).
Proof.
  intros Hk. unfold RateLimit.checkRateLimit. cbn zeta.
  repeat case_match; cbn [snd]; (destruct (decide (k = ip)) as [->|Hne];
    [rewrite lookup_insert_eq; by eexists | by rewrite lookup_insert_ne]).
Qed.

Lemma checkFileRateLimit_keeps (now : Z) (ip type k : string)
    (b : gmap string RateLimit.file_bucket) :
  is_Some (b !! k) → is_Some ((RateLimit.checkFileRateLimit now ip type b).2 !! k).
Proof.
  intros Hk. unfold RateLimit.checkFileRateLimit. cbn zeta.
  repeat case_match; cbn [snd]; (destruct (decide (k = ip)) as [->|Hne];
    [rewrite lookup_insert_eq; by eexists | by rewrite lookup_insert_ne]).
Qed.

Lemma checkChatRateLimit_keeps (now : Z) (ip type k : string)
    (b : gmap string RateLimit.chat_bucket) :
  is_Some (b !! k) → is_Some ((RateLimit.checkChatRateLimit now ip type b).2 !! k).
Proof.
  intros Hk. unfold RateLimit.checkChatRateLimit. cbn zeta.
  repeat case_match; cbn [snd]; (destruct (decide (k = ip)) as [->|Hne];
    [rewrite lookup_insert_eq; by eexists | by rewrite lookup_insert_ne]).
Qed.

Lemma handle_buckets_kept (e : Event) (s : Server) (k : string) :
  (is_Some (rateBuckets s !! k) → is_Some (rateBuckets (next (handle host e s)) !! k))
  ∧ (is_Some (fileRateBuckets s !! k)
     → is_Some (fileRateBuckets (next (handle host e s)) !! k))
  ∧ (is_Some (chatRateBuckets s !! k)
     → is_Some (chatRateBuckets (next (handle host e s)) !! k)).
Proof.
  destruct e; cbn [handle];
    try (handler_cases; done).
  - pose proof (checkRateLimit_keeps now ip "post-otm" k (rateBuckets s)).
    handler_cases; done.
  - pose proof (checkRateLimit_keeps now_rl ip "get-otm" k (rateBuckets s)).
    handler_cases; done.
  - pose proof (checkFileRateLimit_keeps now ip "upload" k (fileRateBuckets s)).
    handler_cases; done.
  - pose proof (checkFileRateLimit_keeps now_rl ip "download" k (fileRateBuckets s)).
    handler_cases; done.
  - pose proof (checkChatRateLimit_keeps now ip "invite" k (chatRateBuckets s)).
    handler_cases; done.
  - pose proof (checkChatRateLimit_keeps now ip "message" k (chatRateBuckets s)).
    handler_cases; done.
Qed.

(** X19. No code path removes a rate-limit bucket: an address that has
    a bucket in one of the three limiter maps has one in the same map
    after every further run of the server, whatever the events are. *)
Theorem rate_buckets_never_removed (evs : list Event) (s : Server) (k : string) :
  (is_Some (rateBuckets s !! k) → is_Some (rateBuckets (run host evs s) !! k))
  ∧ (is_Some (fileRateBuckets s !! k) → is_Some (fileRateBuckets (run host evs s) !! k))
  ∧ (is_Some (chatRateBuckets s !! k) → is_Some (chatRateBuckets (run host evs s) !! k)).
Proof.
  revert s. induction evs as [|e evs IH]; intros s; [done|].
  cbn [run]. destruct (IH (next (handle host e s))) as (IH1 & IH2 & IH3).
  destruct (handle_buckets_kept e s k) as (H1 & H2 & H3).
  repeat split; auto.
Qed.







Lemma string_app_cons (c : Ascii.ascii) (a b : string) :
  String c a +:+ b = String c (a +:+ b).
Proof. reflexivity. Qed.

Lemma string_app_nil_l (b : string) : EmptyString +:+ b = b.
Proof. reflexivity. Qed.

Lemma all_space_no_comma (s : string) : all_space s = true → has_comma s = false.
Proof.
  induction s as [|a s IH]; [done|]. rewrite ?string_app_cons, ?string_app_nil_l; cbn [has_comma beforeComma all_space trimStart trimEnd comma_led starts_with_space]. intros [Ha Hs]%andb_true_iff.
  rewrite IH by done. rewrite orb_false_r.
  unfold is_comma. destruct (Ascii.eqb_spec a comma) as [->|]; [|done].
  by vm_compute in Ha.
Qed.

Lemma beforeComma_app (a b : string) :
  has_comma a = false → beforeComma (a +:+ b) = a +:+ beforeComma b.
Proof.
  induction a as [|c a IH]; [done|]. rewrite ?string_app_cons, ?string_app_nil_l; cbn [has_comma beforeComma all_space trimStart trimEnd comma_led starts_with_space]. intros [Hc Ha]%orb_false_iff.
  rewrite Hc. by rewrite IH.
Qed.

Lemma beforeComma_comma_led (s : string) :
  comma_led s = true → beforeComma s = EmptyString.
Proof. destruct s as [|a s]; [done|]. rewrite ?string_app_cons, ?string_app_nil_l; cbn [has_comma beforeComma all_space trimStart trimEnd comma_led starts_with_space]. by intros ->. Qed.

Lemma string_app_nil_r (s : string) : s +:+ EmptyString = s.
Proof. induction s as [|a s IH]; [done|]. rewrite ?string_app_cons, ?string_app_nil_l; cbn [has_comma beforeComma all_space trimStart trimEnd comma_led starts_with_space]. by rewrite IH. Qed.

Lemma trimStart_spaces (pre s : string) :
  all_space pre = true → trimStart (pre +:+ s) = trimStart s.
Proof.
  induction pre as [|a pre IH]; [done|]. rewrite ?string_app_cons, ?string_app_nil_l; cbn [has_comma beforeComma all_space trimStart trimEnd comma_led starts_with_space]. intros [Ha Hpre]%andb_true_iff.
  rewrite Ha. by apply IH.
Qed.

Lemma trimStart_id (s : string) : starts_with_space s = false → trimStart s = s.
Proof. destruct s as [|a s]; [done|]. rewrite ?string_app_cons, ?string_app_nil_l; cbn [has_comma beforeComma all_space trimStart trimEnd comma_led starts_with_space]. by intros ->. Qed.

Lemma trimEnd_spaces (s : string) : all_space s = true → trimEnd s = EmptyString.
Proof.
  induction s as [|a s IH]; [done|]. rewrite ?string_app_cons, ?string_app_nil_l; cbn [has_comma beforeComma all_space trimStart trimEnd comma_led starts_with_space]. intros [Ha Hs]%andb_true_iff.
  by rewrite IH, Ha.
Qed.

Lemma trimEnd_app (ip post : string) :
  ends_with_space ip = false → all_space post = true → trimEnd (ip +:+ post) = ip.
Proof.
  intros Hip Hpost. induction ip as [|a ip IH]; [by apply trimEnd_spaces|].
  rewrite ?string_app_cons, ?string_app_nil_l; cbn [has_comma beforeComma all_space trimStart trimEnd comma_led starts_with_space]. destruct ip as [|b ip].
  - rewrite string_app_nil_l. cbn [ends_with_space] in Hip.
    rewrite trimEnd_spaces by done. by rewrite Hip.
  - rewrite IH by done. done.
Qed.

(** X21. [getClientIp] takes the address from the request header: when
    [x-forwarded-for] is not empty the result is its first
    comma-separated entry without the white space around it, whatever
    the address of the socket is.  (The entry can be empty.) *)
Theorem getClientIp_forwarded (pre ip post rest : string) (ra : option string) :
  all_space pre = true → all_space post = true →
  has_comma ip = false →
  starts_with_space ip = false → ends_with_space ip = false →
  comma_led rest = true →
  (0 < String.length (pre +:+ ip +:+ post +:+ rest))%nat →
  getClientIp (mkRequest (Some (pre +:+ ip +:+ post +:+ rest)) ra) = ip.
Proof.
  intros Hpre Hpost Hip Hstart Hend Hrest Hlen. unfold getClientIp.
  cbn [x_forwarded_for]. rewrite bool_decide_eq_true_2 by done.
  rewrite !beforeComma_app by auto using all_space_no_comma.
  rewrite beforeComma_comma_led, string_app_nil_r by done.
  unfold trim. rewrite trimStart_spaces by done.
  destruct ip as [|a ip].
  - rewrite string_app_nil_l. clear Hend.
    assert (Hts : ∀ s, all_space s = true → trimStart s = EmptyString).
    { induction s as [|c s IH]; [done|]. cbn [all_space trimStart]. intros [-> ?]%andb_true_iff. auto. }
    by rewrite Hts.
  - rewrite trimStart_id by done. by apply trimEnd_app.
Qed.

(** X22. The limiters key their buckets by that address: a request
    whose [x-forwarded-for] entry names an address that has no bucket
    passes each of the three limiters, for every request type, and leaves
    a bucket under the name from the header. *)
Theorem forwarded_address_keys_bucket (req : Request) (ip type : string) (now : Z)
    (s : Server) :
  getClientIp req = ip →
  rateBuckets s !! ip = None → fileRateBuckets s !! ip = None →
  chatRateBuckets s !! ip = None →
  let r1 := RateLimit.checkRateLimit now (getClientIp req) type (rateBuckets s) in
  let r2 := RateLimit.checkFileRateLimit now (getClientIp req) type (fileRateBuckets s) in
  let r3 := RateLimit.checkChatRateLimit now (getClientIp req) type (chatRateBuckets s) in
  r1.1 = true ∧ r2.1 = true ∧ r3.1 = true
  ∧ is_Some (r1.2 !! ip) ∧ is_Some (r2.2 !! ip) ∧ is_Some (r3.2 !! ip).
Proof.
  intros -> H1 H2 H3.
  unfold RateLimit.checkRateLimit, RateLimit.checkFileRateLimit,
    RateLimit.checkChatRateLimit. cbn zeta. rewrite H1, H2, H3.
  repeat split;
    repeat (case_bool_decide; cbn -[Z.add]); try done;
    try (rewrite lookup_insert_eq; by eexists);
    cbn in *; unfold RateLimit.MAX_POST_OTM_PER_WINDOW, RateLimit.MAX_GET_OTM_PER_WINDOW,
      RateLimit.MAX_POST_FILE_PER_WINDOW, RateLimit.MAX_GET_FILE_PER_WINDOW,
      RateLimit.MAX_CHAT_INVITE_PER_WINDOW, RateLimit.MAX_CHAT_MESSAGE_PER_WINDOW in *;
    lia.
Qed.
Lemma strip_prefix_app (pre r : string) : strip_prefix pre (pre +:+ r) = Some r.
Proof.
  induction pre as [|a pre IH]; [done|].
  rewrite string_app_cons. cbn [strip_prefix]. by rewrite Ascii.eqb_refl.
Qed.

Lemma strip_prefix_Some (pre s r : string) :
  strip_prefix pre s = Some r → s = pre +:+ r.
Proof.
  revert s. induction pre as [|a pre IH]; intros s; cbn [strip_prefix].
  - intros [= ->]. done.
  - destruct s as [|b s]; [done|].
    destruct (Ascii.eqb_spec a b) as [->|]; [|done].
    intros ->%IH. done.
Qed.

Lemma eqb_empty (s : string) : String.eqb s EmptyString = false ↔ s ≠ EmptyString.
Proof. destruct s; cbn; split; done. Qed.

Lemma take_segment_spec (s : string) :
  let '(h, t) := take_segment s in
  s = h +:+ t ∧ has_slash h = false
  ∧ (t = EmptyString ∨ ∃ r, t = String slash r).
Proof.
  induction s as [|a s IH]; cbn [take_segment].
  - repeat split. by left.
  - destruct (is_slash a) eqn:Ha.
    + repeat split. right. exists s. f_equal.
      unfold is_slash in Ha. by apply Ascii.eqb_eq in Ha.
    + destruct (take_segment s) as [h t]. destruct IH as (-> & Hh & Ht).
      repeat split; [|done]. cbn [has_slash]. by rewrite Ha, Hh.
Qed.

Lemma take_segment_app (id rest : string) :
  has_slash id = false →
  (rest = EmptyString ∨ ∃ r, rest = String slash r) →
  take_segment (id +:+ rest) = (id, rest).
Proof.
  intros Hid Hrest. induction id as [|a id IH].
  - rewrite string_app_nil_l. destruct Hrest as [->|[r ->]]; done.
  - rewrite string_app_cons. cbn [take_segment has_slash] in *.
    apply orb_false_iff in Hid as [-> Hid]. by rewrite IH.
Qed.

Lemma split_slash_app (id rest : string) :
  has_slash id = false →
  (rest = EmptyString ∨ ∃ r, rest = String slash r) →
  ∃ more, split_slash (id +:+ rest) = id :: more.
Proof.
  intros Hid Hrest. induction id as [|a id IH].
  - rewrite string_app_nil_l. destruct Hrest as [->|[r ->]]; cbn; by eexists.
  - rewrite string_app_cons. cbn [split_slash has_slash] in *.
    apply orb_false_iff in Hid as [-> Hid]. destruct (IH Hid) as [more ->].
    by eexists.
Qed.

Lemma has_slash_app (a b : string) :
  has_slash (a +:+ b) = has_slash a || has_slash b.
Proof.
  induction a as [|c a IH]; [done|]. rewrite string_app_cons. cbn [has_slash].
  by rewrite IH, orb_assoc.
Qed.

Lemma split_slash_last (id : string) :
  has_slash id = false → split_slash id = [id].
Proof.
  induction id as [|a id IH]; [done|]. cbn [split_slash has_slash].
  intros [-> Hid]%orb_false_iff. by rewrite IH.
Qed.

(** Exposes the characters of a path that starts with a literal. *)
Ltac expose := rewrite ?string_app_cons, ?string_app_nil_l.

Ltac route_branch H :=
  unfold route in H;
  repeat (match type of H with
          | (if ?c then _ else _) = _ => destruct c eqn:?
          end; try discriminate H).

Lemma route_getInvite (id : string) :
  id ≠ EmptyString → has_slash id = false →
  route "GET" ("/chat/invite/" +:+ id) = RGetInvite (Some id).
Proof.
  intros Hne%eqb_empty Hid. unfold route, is_health, is_metrics, is_postOtm, is_getOtm,
    is_postFile, is_getFile, is_postInvite, is_getInvite, re_invite, startsWith, segment.
  expose. cbn. rewrite Hne, Hid. cbn. by rewrite split_slash_last.
Qed.

Lemma route_getMessages (id : string) :
  id ≠ EmptyString → has_slash id = false →
  route "GET" ("/chat/messages/" +:+ id) = RGetMessages (Some id).
Proof.
  intros Hne%eqb_empty Hid. unfold route, is_health, is_metrics, is_postOtm, is_getOtm,
    is_postFile, is_getFile, is_postInvite, is_getInvite, is_claimInvite, is_postMessage,
    is_getMessages, re_invite, re_claim, re_messages, startsWith, segment.
  expose. cbn. rewrite Hne, Hid. cbn. by rewrite split_slash_last.
Qed.

Lemma route_claimInvite (id : string) :
  id ≠ EmptyString → has_slash id = false →
  route "POST" ("/chat/invite/" +:+ id +:+ "/claim") = RClaimInvite (Some id).
Proof.
  intros Hne%eqb_empty Hid. unfold route, is_health, is_metrics, is_postOtm, is_getOtm,
    is_postFile, is_getFile, is_postInvite, is_getInvite, is_claimInvite,
    re_invite, re_claim, startsWith, segment.
  expose. cbn.
  rewrite has_slash_app, orb_true_r, andb_false_r.
  rewrite (take_segment_app id "/claim") by (by eauto).
  rewrite Hne. cbn.
  destruct (split_slash_app id "/claim" Hid) as [more ->]; by eauto.
Qed.

Lemma route_getOtm (id rest : string) :
  has_slash id = false →
  (rest = EmptyString ∨ ∃ r, rest = String slash r) →
  route "GET" ("/otm/" +:+ id +:+ rest) = RGetOtm (Some id).
Proof.
  intros Hid Hrest. unfold route, is_health, is_metrics, is_postOtm, is_getOtm,
    startsWith, segment.
  expose. cbn. destruct (split_slash_app id rest Hid Hrest) as [more ->]. done.
Qed.

Lemma route_getFile (id rest : string) :
  has_slash id = false →
  (rest = EmptyString ∨ ∃ r, rest = String slash r) →
  route "GET" ("/file/" +:+ id +:+ rest) = RGetFile (Some id).
Proof.
  intros Hid Hrest. unfold route, is_health, is_metrics, is_postOtm, is_getOtm,
    is_postFile, is_getFile, startsWith, segment.
  expose. cbn. destruct (split_slash_app id rest Hid Hrest) as [more ->]. done.
Qed.
Lemma andb_true_split (a b : bool) : a && b = true → a = true ∧ b = true.
Proof. by intros ?%andb_true_iff. Qed.

Lemma re_tail_spec (pre pathname : string) :
  match strip_prefix pre pathname with
  | Some r => negb (String.eqb r EmptyString) && negb (has_slash r)
  | None => false
  end = true →
  ∃ id, id ≠ EmptyString ∧ has_slash id = false ∧ pathname = pre +:+ id.
Proof.
  destruct (strip_prefix pre pathname) as [r|] eqn:Hr; [|done].
  intros [Hne Hs]%andb_true_split. exists r.
  apply negb_true_iff in Hne, Hs. apply eqb_empty in Hne.
  by apply strip_prefix_Some in Hr.
Qed.

(** X23. The three routes that match the path against a pattern.  A
    request is served by the invite lookup, the invite claim or the
    mailbox fetch exactly when its method is the one of the route and its
    path is the prefix of the route, one non-empty segment without a
    slash and (for the claim) [/claim]; the identifier the handler works
    with is that segment. *)
Theorem route_pattern_paths (method pathname : string) (o : option string) :
  (route method pathname = RGetInvite o
   ↔ method = "GET"
     ∧ ∃ id, id ≠ EmptyString ∧ has_slash id = false
             ∧ pathname = "/chat/invite/" +:+ id ∧ o = Some id)
  ∧ (route method pathname = RClaimInvite o
     ↔ method = "POST"
       ∧ ∃ id, id ≠ EmptyString ∧ has_slash id = false
               ∧ pathname = "/chat/invite/" +:+ id +:+ "/claim" ∧ o = Some id)
  ∧ (route method pathname = RGetMessages o
     ↔ method = "GET"
       ∧ ∃ id, id ≠ EmptyString ∧ has_slash id = false
               ∧ pathname = "/chat/messages/" +:+ id ∧ o = Some id).
Proof.
  split; [|split]; split.
  - intros H. pose proof H as H0. route_branch H.
    match goal with Hc : is_getInvite _ _ = true |- _ =>
      apply andb_true_split in Hc as [Hre Hm] end.
    apply String.eqb_eq in Hm as ->.
    destruct (re_tail_spec _ _ Hre) as (id & Hne & Hid & ->).
    split; [done|]. exists id. repeat split; try done.
    rewrite route_getInvite in H0 by done. congruence.
  - intros (-> & id & Hne & Hid & -> & ->). by apply route_getInvite.
  - intros H. pose proof H as H0. route_branch H.
    match goal with Hc : is_claimInvite _ _ = true |- _ =>
      apply andb_true_split in Hc as [Hre Hm] end.
    apply String.eqb_eq in Hm as ->. unfold re_claim in Hre.
    destruct (strip_prefix "/chat/invite/" pathname) as [r|] eqn:Hr; [|done].
    apply strip_prefix_Some in Hr as ->.
    pose proof (take_segment_spec r) as Hseg.
    destruct (take_segment r) as [id tail]. destruct Hseg as (-> & Hid & _).
    apply andb_true_split in Hre as [Hne Htail].
    apply negb_true_iff, eqb_empty in Hne. apply String.eqb_eq in Htail as ->.
    split; [done|]. exists id. repeat split; try done.
    rewrite route_claimInvite in H0 by done. congruence.
  - intros (-> & id & Hne & Hid & -> & ->). by apply route_claimInvite.
  - intros H. pose proof H as H0. route_branch H.
    match goal with Hc : is_getMessages _ _ = true |- _ =>
      apply andb_true_split in Hc as [Hre Hm] end.
    apply String.eqb_eq in Hm as ->.
    destruct (re_tail_spec _ _ Hre) as (id & Hne & Hid & ->).
    split; [done|]. exists id. repeat split; try done.
    rewrite route_getMessages in H0 by done. congruence.
  - intros (-> & id & Hne & Hid & -> & ->). by apply route_getMessages.
Qed.

Lemma startsWith_spec (pathname pre : string) :
  startsWith pathname pre = true →
  ∃ id rest, has_slash id = false
             ∧ (rest = EmptyString ∨ ∃ r, rest = String slash r)
             ∧ pathname = pre +:+ id +:+ rest.
Proof.
  unfold startsWith. destruct (strip_prefix pre pathname) as [r|] eqn:Hr; [|done].
  intros _. apply strip_prefix_Some in Hr as ->.
  pose proof (take_segment_spec r) as Hseg.
  destruct (take_segment r) as [id rest]. destruct Hseg as (-> & Hid & Hrest).
  by exists id, rest.
Qed.

(** X24. The two one-time downloads match the path by its prefix only.
    A request is served by the download of a one-time message (of a
    file) exactly when it is a [GET] whose path starts with [/otm/]
    ([/file/]); the identifier is what follows up to the next slash or
    the end of the path: it can be empty, and further segments of the
    path are ignored. *)
Theorem route_prefix_paths (method pathname : string) (o : option string) :
  (route method pathname = RGetOtm o
   ↔ method = "GET"
     ∧ ∃ id rest, has_slash id = false
                  ∧ (rest = EmptyString ∨ ∃ r, rest = "/" +:+ r)
                  ∧ pathname = "/otm/" +:+ id +:+ rest ∧ o = Some id)
  ∧ (route method pathname = RGetFile o
     ↔ method = "GET"
       ∧ ∃ id rest, has_slash id = false
                    ∧ (rest = EmptyString ∨ ∃ r, rest = "/" +:+ r)
                    ∧ pathname = "/file/" +:+ id +:+ rest ∧ o = Some id).
Proof.
  split; split.
  - intros H. pose proof H as H0. route_branch H.
    match goal with Hc : is_getOtm _ _ = true |- _ =>
      apply andb_true_split in Hc as [Hre Hm] end.
    apply String.eqb_eq in Hm as ->.
    destruct (startsWith_spec _ _ Hre) as (id & rest & Hid & Hrest & ->).
    split; [done|]. exists id, rest. repeat split; try done.
    rewrite route_getOtm in H0 by done. congruence.
  - intros (-> & id & rest & Hid & Hrest & -> & ->). by apply route_getOtm.
  - intros H. pose proof H as H0. route_branch H.
    match goal with Hc : is_getFile _ _ = true |- _ =>
      apply andb_true_split in Hc as [Hre Hm] end.
    apply String.eqb_eq in Hm as ->.
    destruct (startsWith_spec _ _ Hre) as (id & rest & Hid & Hrest & ->).
    split; [done|]. exists id, rest. repeat split; try done.
    rewrite route_getFile in H0 by done. congruence.
  - intros (-> & id & rest & Hid & Hrest & -> & ->). by apply route_getFile.
Qed.
Lemma length_filter_tests (method pathname : string)
    (l : list (string → string → bool)) :
  length (filter (λ c : string → string → bool, c method pathname = true) l)
  = sum_list (map (λ c : string → string → bool, if c method pathname then 1%nat else 0%nat) l).
Proof.
  induction l as [|c l IH]; [done|]. rewrite filter_cons. cbn [map sum_list].
  destruct (c method pathname);
    [rewrite decide_True by done|rewrite decide_False by done];
    cbn [length]; rewrite IH; unfold id; lia.
Qed.

(** Decides the comparisons of characters in the goal: closed ones by
    evaluation, the others by cases. *)
Ltac decide_chars :=
  repeat match goal with
         | |- context [Ascii.eqb ?x ?y] =>
             let v := eval vm_compute in (Ascii.eqb x y) in
             lazymatch v with
             | true => change (Ascii.eqb x y) with true
             | false => change (Ascii.eqb x y) with false
             | _ => destruct (Ascii.eqb_spec x y) as [?|?]; [subst; try done|]
             end
         end.

Ltac reduce_tests :=
  cbn -[Ascii.eqb has_slash take_segment Nat.add] in *.

Ltac close_tests :=
  solve [ reduce_tests;
          repeat match goal with
                 | |- context [if ?b then _ else _] => destruct b
                 end;
          cbn; lia ].

(** Walks down the path along the literals of the tests. *)
Ltac walk p fuel :=
  lazymatch fuel with
  | O => idtac
  | S ?fuel' =>
      first
        [ close_tests
        | destruct p as [|? p];
          [ close_tests
          | reduce_tests; decide_chars; reduce_tests; walk p fuel' ] ]
  end.

(** X25. The tests of the request handler exclude each other: apart
    from the one for [OPTIONS], which comes first, at most one of them
    accepts a given method and path, so their order decides nothing. *)
Theorem route_tests_exclusive (method pathname : string) :
  (length (filter (λ c : string → string → bool, c method pathname = true) conditions) ≤ 1)%nat.
Proof.
  rewrite length_filter_tests. unfold conditions. cbn [map sum_list].
  unfold is_health, is_metrics, is_postOtm, is_getOtm, is_postFile, is_getFile,
    is_postInvite, is_getInvite, is_claimInvite, is_postMessage, is_getMessages,
    is_ackMessages, re_invite, re_claim, re_messages, startsWith.
  destruct (String.eqb_spec method "GET") as [->|Hget];
    [|destruct (String.eqb_spec method "POST") as [->|Hpost]];
    rewrite ?andb_false_r, ?andb_true_r;
    walk pathname 20%nat.
Qed.

End Properties.

(** ** Concrete runs *)

(** C1, the claim as stated fails: the entry is read once, and the
    sixty-first GET of the same client in that minute is answered 429,
    not 404 [{used:true}]. *)
Lemma otm_later_get_rate_limited :
  let get := GetOtm 0 0 "10.0.0.1" "q" in
  let s1 := next (handle quiet_host get otm_posted) in
  let s' := run quiet_host (replicate 59 get) s1 in
  response (handle quiet_host get otm_posted)
  = Some (mkResponse 200 (BCiphertext "A"))
  ∧ response (handle quiet_host get s')
    = Some (mkResponse 429 (BError "Rate limit exceeded"))
  ∧ response (handle quiet_host get s') ≠ Some (mkResponse 404 BUsed).
Proof. vm_compute. repeat split; congruence. Qed.

Lemma otm_take_at_most_once_witness :
  let get := GetOtm 0 0 "10.0.0.1" "q" in
  let evs := [GetOtm 5 5 "10.0.0.2" "q"; SweepOtm 60000] in
  let s' := run quiet_host evs
              (next (handle quiet_host get otm_posted)) in
  response (handle quiet_host get otm_posted)
  = Some (mkResponse 200 (BCiphertext "A"))
  ∧ Forall (λ e, stores_otm "q" e = false) evs
  ∧ response (handle quiet_host (GetOtm 70000 70000 "10.0.0.1" "q") s')
    = Some (mkResponse 404 BUsed).
Proof.
  intros get evs s'.
  assert (H200 : response (handle quiet_host get otm_posted)
                 = Some (mkResponse 200 (BCiphertext "A"))) by (vm_compute; reflexivity).
  assert (Hall : Forall (λ e, stores_otm "q" e = false) evs)
    by (repeat constructor).
  split; [exact H200|]. split; [exact Hall|].
  destruct (otm_take_at_most_once quiet_host otm_posted "q"
              "10.0.0.1" "10.0.0.1" "A" 0 0 70000 70000 evs H200 Hall)
    as (_ & _ & Hresp & _).
  etrans; [exact Hresp | vm_compute; reflexivity].
Defined.

(** C2, the claim as stated fails: after a successful claim, a second
    claim that arrives once the invite has expired is answered 404
    "Invite expired", not 409, and deletes the entry; the same invite id
    can then be created anew and claimed a second time. *)
Lemma invite_second_claim_expired :
  let claim t b := ClaimInviteEnd t "inv1" (Some (Some b)) in
  let create := PostInviteEnd 300 300
                  (Some (mkInviteBody (Some "inv1"%string) (Some "K9"%string) ExpAbsent)) in
  let s1 := next (handle quiet_host (claim 50 "K2"%string) invite_posted) in
  let s2 := next (handle quiet_host (claim 200 "K3"%string) s1) in
  let s3 := next (handle quiet_host create s2) in
  response (handle quiet_host (claim 50 "K2"%string) invite_posted)
  = Some (mkResponse 200 (BClaimed "K1"))
  ∧ response (handle quiet_host (claim 200 "K3"%string) s1)
    = Some (mkResponse 404 (BError "Invite expired"))
  ∧ response (handle quiet_host (claim 200 "K3"%string) s1)
    ≠ Some (mkResponse 409 (BError "Invite already claimed"))
  ∧ response (handle quiet_host create s2) = Some (mkResponse 201 (BInviteCreated "inv1"))
  ∧ response (handle quiet_host (claim 310 "K3"%string) s3)
    = Some (mkResponse 200 (BClaimed "K9")).
Proof. vm_compute. repeat split; congruence. Qed.

Lemma invite_claim_once_witness :
  let claim t b := ClaimInviteEnd t "inv1" (Some (Some b)) in
  let recreate := PostInviteEnd 65 65
                    (Some (mkInviteBody (Some "inv1"%string) (Some "K9"%string)
                             ExpAbsent)) in
  let evs := [GetInvite 60 "inv1"; recreate; SweepInvites 70] in
  let s1 := next (handle quiet_host (claim 50 "K2"%string) invite_posted) in
  let s' := run quiet_host evs s1 in
  let request := handle quiet_host (ChatInviteBegin 75 "10.0.0.1") s' in
  let s'' := run quiet_host [GetInvite 76 "inv1"] (next request) in
  response (handle quiet_host (claim 50 "K2"%string) invite_posted)
  = Some (mkResponse 200 (BClaimed "K1"))
  ∧ recreates quiet_host "inv1"
      (evs ++ ChatInviteBegin 75 "10.0.0.1" :: [GetInvite 76 "inv1"]) s1 = false
  ∧ "K3"%string ≠ EmptyString
  ∧ response (handle quiet_host recreate (run quiet_host [GetInvite 60 "inv1"] s1))
    = Some (mkResponse 409 (BError "Invite ID already exists"))
  ∧ response request = None
  ∧ chatInviteStore s'' !! "inv1"%string
    = Some (mkInviteEntry "K1" (Num 100) 0 true (Some "K2"%string))
  ∧ response (handle quiet_host (claim 80 "K3"%string) s'')
    = Some (mkResponse 409 (BError "Invite already claimed")).
Proof.
  intros claim recreate evs s1 s' request s''.
  assert (H200 : response (handle quiet_host (claim 50 "K2"%string) invite_posted)
                 = Some (mkResponse 200 (BClaimed "K1"))) by (vm_compute; reflexivity).
  assert (Hall : recreates quiet_host "inv1"
                   (evs ++ ChatInviteBegin 75 "10.0.0.1" :: [GetInvite 76 "inv1"]) s1
                 = false) by (vm_compute; reflexivity).
  assert (Hne : "K3"%string ≠ EmptyString) by discriminate.
  assert (H409 : response (handle quiet_host recreate
                             (run quiet_host [GetInvite 60 "inv1"] s1))
                 = Some (mkResponse 409 (BError "Invite ID already exists")))
    by (vm_compute; reflexivity).
  assert (Hentry : chatInviteStore s'' !! "inv1"%string
                   = Some (mkInviteEntry "K1" (Num 100) 0 true (Some "K2"%string)))
    by (vm_compute; reflexivity).
  repeat (split; [assumption|]).
  destruct (invite_claim_once quiet_host invite_posted "inv1" "K1" "K3" "10.0.0.1"
              50 80 75 (Some (Some "K2"%string)) None evs [GetInvite 76 "inv1"]
              H200 Hall Hne)
    as (entry & bundle & _ & _ & He & _ & _ & _ & _ & Hreq & _ & _ & Hlater).
  assert (Hposted : chatInviteStore invite_posted !! "inv1"%string
                    = Some (mkInviteEntry "K1" (Num 100) 0 false None))
    by (vm_compute; reflexivity).
  rewrite Hposted in He. injection He as <-.
  split; [etrans; [exact Hreq|]; vm_compute; reflexivity|].
  split; [exact Hentry|].
  change (chatInviteStore
            (run quiet_host [GetInvite 76 "inv1"]
               (next (handle quiet_host (ChatInviteBegin 75 "10.0.0.1")
                        (run quiet_host evs
                           (next (handle quiet_host
                                    (ClaimInviteEnd 50 "inv1" (Some (Some "K2"%string)))
                                    invite_posted))))))
          !! "inv1"%string)
    with (chatInviteStore s'' !! "inv1"%string) in Hlater.
  rewrite Hentry in Hlater. destruct Hlater as (_ & Hresp & _).
  etrans; [exact Hresp|]. vm_compute. reflexivity.
Defined.

(** C3. The sweep that runs 24 h and 60 s after the creation of an
    invite whose [expiresAt] lies 48 h after it deletes the invite: just
    before the sweep a GET answers 200 (the invite is not expired), just
    after it the invite is not found. *)
Lemma sweepInvites_removes_unexpired :
  let now := 86460000 in
  let swept := next (handle quiet_host (SweepInvites now) invite_two_days) in
  chatInviteStore invite_two_days !! "inv2"%string
  = Some (mkInviteEntry "K1" (Num 172800000) 0 false None)
  ∧ js_gt now (Num 172800000) = false
  ∧ response (handle quiet_host (GetInvite now "inv2") invite_two_days)
    = Some (mkResponse 200 (BInviteView "inv2" "K1" false None))
  ∧ chatInviteStore swept !! "inv2"%string = None
  ∧ response (handle quiet_host (GetInvite now "inv2") swept)
    = Some (mkResponse 404 (BError "Invite not found")).
Proof. vm_compute. repeat split; reflexivity. Qed.

(** C10, the claim as stated fails for the empty string: it is a
    supplied [expiresAt] that does not parse as a date, yet it is falsy,
    so the invite gets the default expiry, 24 h after the request, not
    [NaN]; a GET or a claim after that instant reports the invite
    expired and deletes it, with no sweep involved. *)
Lemma invite_empty_expiry_expires :
  let b := mkInviteBody (Some "inv5"%string) (Some "K1"%string) (ExpString "") in
  let s1 := next (handle quiet_host (PostInviteEnd 0 0 (Some b)) (initial None)) in
  let get := handle quiet_host (GetInvite 86400001 "inv5") s1 in
  let claim := handle quiet_host
                 (ClaimInviteEnd 86400001 "inv5" (Some (Some "K2"%string))) s1 in
  dateGetTime quiet_host (ib_expiresAt b) = NaN
  ∧ chatInviteStore s1 !! "inv5"%string
    = Some (mkInviteEntry "K1" (Num 86400000) 0 false None)
  ∧ response get = Some (mkResponse 404 (BError "Invite expired"))
  ∧ chatInviteStore (next get) !! "inv5"%string = None
  ∧ response claim = Some (mkResponse 404 (BError "Invite expired"))
  ∧ chatInviteStore (next claim) !! "inv5"%string = None.
Proof. vm_compute. repeat split; reflexivity. Qed.

Lemma invite_nan_expiry_witness :
  let b := mkInviteBody (Some "inv3"%string) (Some "K1"%string) (ExpString "soon") in
  let evs := [GetInvite 5000 "inv3"; SweepInvites 86400000] in
  let s' := run quiet_host evs
              (next (handle quiet_host (PostInviteEnd 0 0 (Some b))
                       (initial None))) in
  dateGetTime quiet_host (ib_expiresAt b) = NaN
  ∧ Forall (λ e, late_sweep 0 e = false) evs
  ∧ chatInviteStore (next (handle quiet_host (SweepInvites 86400001) s'))
    !! "inv3"%string = None.
Proof.
  intros b evs s'.
  assert (Hall : Forall (λ e, late_sweep 0 e = false) evs)
    by (repeat constructor).
  split; [reflexivity|]. split; [exact Hall|].
  destruct (invite_nan_expiry quiet_host (initial None) 0 0 b
              "inv3" "K1" evs eq_refl ltac:(discriminate) eq_refl
              ltac:(discriminate) eq_refl eq_refl eq_refl Hall)
    as (_ & e1 & _ & _ & _ & _ & _ & Hsweep).
  exact (Hsweep 86400001).
Defined.

Lemma rate_limit_windows_witness :
  let ip := "10.0.0.1"%string in
  let post := PostOtmBegin 0 ip in
  let s30 := run quiet_host (replicate 30 post) (initial None) in
  let s31 := next (handle quiet_host post s30) in
  opens_window LimPostOtm ip 0 (initial None)
  ∧ refusals quiet_host LimPostOtm ip (replicate 31 0) (initial None) !! 29%nat
    = Some false
  ∧ refusals quiet_host LimPostOtm ip (replicate 31 0) (initial None) !! 30%nat
    = Some true
  ∧ response (handle quiet_host post s30)
    = Some (mkResponse 429 (BError "Rate limit exceeded"))
  ∧ opens_window LimPostOtm ip 60001 s31
  ∧ refusals quiet_host LimPostOtm ip [60001] s31 !! 0%nat = Some false.
Proof.
  intros ip post s30 s31.
  destruct (rate_limit_windows quiet_host) as (_ & _ & _ & Hburst).
  assert (Hopen : opens_window LimPostOtm ip 0 (initial None)) by exact I.
  assert (Hin : Forall (λ t, t - 0 ≤ 60000) (replicate 30 0))
    by (apply Forall_replicate; lia).
  assert (Hlate : opens_window LimPostOtm ip 60001 s31) by (vm_compute; reflexivity).
  split; [exact Hopen|].
  split; [exact (Hburst LimPostOtm ip 0 (replicate 30 0) (initial None) 29%nat
                   Hopen Hin ltac:(cbn; lia))|].
  split; [exact (Hburst LimPostOtm ip 0 (replicate 30 0) (initial None) 30%nat
                   Hopen Hin ltac:(cbn; lia))|].
  split; [vm_compute; reflexivity|].
  split; [exact Hlate|].
  exact (Hburst LimPostOtm ip 60001 [] s31 0%nat Hlate ltac:(constructor)
           ltac:(cbn; lia)).
Defined.

Lemma message_to_enqueues (to id : string) :
  to ≠ EmptyString → id ≠ EmptyString → enqueues (message_to to id) to "E1" id.
Proof. intros Hto Hid. repeat split; done. Qed.

Lemma enqueue_duplicate_noop_witness :
  let o := handle quiet_host
             (PostMessageEnd 30 (Some (message_to "fpB" "m1"))) two_pending in
  enqueues (message_to "fpB" "m1") "fpB" "E1" "m1"
  ∧ hasMessage (chatMessageStore two_pending) "fpB" "m1" = true
  ∧ response o = Some (mkResponse 200 BDuplicate)
  ∧ next o = two_pending.
Proof.
  intros o.
  assert (Hb : enqueues (message_to "fpB" "m1") "fpB" "E1" "m1")
    by (apply message_to_enqueues; discriminate).
  assert (Hdup : hasMessage (chatMessageStore two_pending) "fpB" "m1" = true)
    by (vm_compute; reflexivity).
  split; [exact Hb|]. split; [exact Hdup|].
  destruct (enqueue_duplicate_noop quiet_host 30 _ _ _ _ two_pending Hb Hdup)
    as (Hr & _ & Hs & _).
  split; [exact Hr | exact Hs].
Defined.

Lemma dedup_is_per_recipient_witness :
  let s := initial None in
  let o1 := handle quiet_host
              (PostMessageEnd 10 (Some (message_to "fpB" "m1"))) s in
  let o2 := handle quiet_host
              (PostMessageEnd 20 (Some (message_to "fpC" "m1"))) (next o1) in
  "fpB"%string ≠ "fpC"%string
  ∧ hasMessage (chatMessageStore s) "fpB" "m1" = false
  ∧ hasMessage (chatMessageStore s) "fpC" "m1" = false
  ∧ response o1 = Some (mkResponse 201 BSuccess)
  ∧ response o2 = Some (mkResponse 201 BSuccess)
  ∧ chatMessageStore (next o2) !! "fpB"%string = Some [mkMessage "m1" "fpA" "E1" 10]
  ∧ chatMessageStore (next o2) !! "fpC"%string = Some [mkMessage "m1" "fpA" "E1" 20].
Proof.
  intros s o1 o2.
  assert (Hne : "fpB"%string ≠ "fpC"%string) by discriminate.
  assert (H1 : hasMessage (chatMessageStore s) "fpB" "m1" = false) by reflexivity.
  assert (H2 : hasMessage (chatMessageStore s) "fpC" "m1" = false) by reflexivity.
  repeat (split; [assumption|]).
  destruct (dedup_is_per_recipient quiet_host 10 20 30
              (message_to "fpB" "m1") (message_to "fpC" "m1") "fpB" "fpC" "E1" "E1" "m1" s
              ltac:(apply message_to_enqueues; discriminate)
              ltac:(apply message_to_enqueues; discriminate) Hne H1 H2)
    as (Hr1 & Hr2 & Hb1 & Hb2 & _).
  split; [exact Hr1|]. split; [exact Hr2|]. split; [exact Hb1 | exact Hb2].
Defined.

Lemma ack_removes_exactly_witness :
  let b := mkAckBody (Some "fpB"%string) (Some ["m1"%string; "m9"%string]) in
  let o := handle quiet_host (AckMessagesEnd (Some b)) two_pending in
  "fpB"%string ≠ EmptyString
  ∧ response o = Some (mkResponse 200 BSuccess)
  ∧ chatMessageStore (next o) !! "fpB"%string = Some [mkMessage "m2" "fpA" "E1" 20].
Proof.
  intros b o.
  assert (Hne : "fpB"%string ≠ EmptyString) by discriminate.
  split; [exact Hne|].
  destruct (ack_removes_exactly quiet_host b "fpB"
              ["m1"%string; "m9"%string] two_pending eq_refl Hne eq_refl)
    as (Hr & _ & _ & Hbox & _).
  split; [exact Hr|]. etrans; [exact Hbox|]. vm_compute. reflexivity.
Defined.


(** C5, the claim as stated fails twice.  Socket 2 is a member of
    ["r1"] whose closing handshake has started when socket 1 burns the
    room: the server sends [roomDestroyed] to socket 1 only.  And a
    later handshake that names the burned room together with a
    [chatFingerprint] is registered as a chat socket: it is sent
    [connected], not [roomDestroyed], and stays open. *)
Lemma burn_notice_not_universal :
  let s := run r1_host [join_r1 1; join_r1 2; WsClosing 2] (initial None) in
  let o := handle r1_host (WsMessage 1 burn_r1 false) s in
  let both := handle r1_host
                (Connection 3 (Some (mkQuery (Some "r1"%string) (Some "fpB"%string))))
                (next o) in
  members s "r1" = [1%nat; 2%nat]
  ∧ sent o = [(1%nat, FRoomDestroyed "r1")]
  ∧ ¬ (2%nat, FRoomDestroyed "r1") ∈ sent o
  ∧ "r1"%string ∈ burnedRooms (next o)
  ∧ sent both = [(3%nat, FConnected "fpB")]
  ∧ sockets (next both) !! 3%nat = Some (mkSocket 1 (ChatSocket "fpB")).
Proof.
  vm_compute. split; [reflexivity|]. split; [reflexivity|].
  split; [|repeat split; reflexivity].
  intros Hin. apply list_elem_of_singleton in Hin. discriminate.
Qed.

Lemma burn_is_final_witness :
  let s := run r1_host [join_r1 1; join_r1 2]
             (initial None) in
  let o := handle r1_host (WsMessage 1 burn_r1 false) s in
  let late := handle r1_host (join_r1 3) (next o) in
  sockets s !! 1%nat = Some (mkSocket 1 (RoomSocket "r1"))
  ∧ burnShape (JSON_parse r1_host (toString_utf8 r1_host burn_r1)) "r1"
  ∧ sent o = [(1%nat, FRoomDestroyed "r1"); (2%nat, FRoomDestroyed "r1")]
  ∧ rooms (next o) !! "r1"%string = None
  ∧ sent late = [(3%nat, FRoomDestroyed "r1")]
  ∧ rooms (next late) = rooms (next o).
Proof.
  intros s o late.
  assert (Hw : sockets s !! 1%nat = Some (mkSocket 1 (RoomSocket "r1")))
    by (vm_compute; reflexivity).
  assert (Hshape : burnShape (JSON_parse r1_host (toString_utf8 r1_host burn_r1)) "r1").
  { eexists. vm_compute. repeat split; reflexivity. }
  split; [exact Hw|]. split; [exact Hshape|].
  destruct (burn_is_final r1_host None
              [join_r1 1; join_r1 2]) as (_ & _ & Hburn).
  destruct (Hburn 1%nat 1 "r1"%string burn_r1 Hw ltac:(lia) Hshape)
    as (_ & Hrooms & _ & _ & Hsent & _).
  split; [etrans; [apply Hsent; by eexists|]; vm_compute; reflexivity|].
  split; [etrans; [exact (f_equal (λ m, m !! "r1"%string) Hrooms)|]; apply lookup_delete_eq|].
  destruct (burn_is_final r1_host None
              [join_r1 1; join_r1 2; WsMessage 1 burn_r1 false]) as (_ & Hlate & _).
  destruct (Hlate "r1"%string 3%nat (mkQuery (Some "r1"%string) None))
    as (Hs3 & _ & Hr3).
  - vm_compute. reflexivity.
  - discriminate.
  - vm_compute. reflexivity.
  - reflexivity.
  - reflexivity.
  - split; [exact Hs3 | exact Hr3].
Defined.

(** ** Concrete runs of the further properties *)

Lemma otm_put_take_witness :
  let evs := [SweepOtm 1000; GetOtm 1 1 "10.0.0.2" "z"] in
  let put := handle quiet_host (PostOtmEnd 0 (Some (Some "A"%string)) "q") (initial None) in
  let s' := run quiet_host evs (next put) in
  "A"%string ≠ EmptyString
  ∧ Forall (λ e, removes_otm "q" 0 e = false) evs
  ∧ (RateLimit.checkRateLimit 5 "10.0.0.1" "get-otm" (rateBuckets s')).1 = true
  ∧ response (handle quiet_host (GetOtm 5 5 "10.0.0.1" "q") s')
    = Some (mkResponse 200 (BCiphertext "A")).
Proof.
  intros evs put s'.
  assert (Hne : "A"%string ≠ EmptyString) by discriminate.
  assert (Hall : Forall (λ e, removes_otm "q" 0 e = false) evs) by (repeat constructor).
  assert (Hrl : (RateLimit.checkRateLimit 5 "10.0.0.1" "get-otm" (rateBuckets s')).1 = true)
    by (vm_compute; reflexivity).
  repeat (split; [assumption|]).
  destruct (otm_put_take quiet_host (initial None) "q" "10.0.0.1" "A" 0 5 5 evs
              Hne Hall Hrl) as (_ & Hget & _).
  etrans; [exact Hget|]. vm_compute. reflexivity.
Defined.

Lemma otm_sweep_agrees_with_get_witness :
  let now := 7 * 24 * 60 * 60 * 1000 in
  otmStore otm_posted !! "q"%string = Some (mkOtmEntry "A" 0)
  ∧ (RateLimit.checkRateLimit now "10.0.0.1" "get-otm" (rateBuckets otm_posted)).1 = true
  ∧ response (handle quiet_host (GetOtm now now "10.0.0.1" "q") otm_posted)
    = Some (mkResponse 200 (BCiphertext "A"))
  ∧ otmStore (next (handle quiet_host (SweepOtm now) otm_posted)) !! "q"%string
    = Some (mkOtmEntry "A" 0).
Proof.
  intros now.
  assert (He : otmStore otm_posted !! "q"%string = Some (mkOtmEntry "A" 0))
    by (vm_compute; reflexivity).
  assert (Hrl : (RateLimit.checkRateLimit now "10.0.0.1" "get-otm"
                   (rateBuckets otm_posted)).1 = true) by (vm_compute; reflexivity).
  assert (Hget : response (handle quiet_host (GetOtm now now "10.0.0.1" "q") otm_posted)
                 = Some (mkResponse 200 (BCiphertext "A"))) by (vm_compute; reflexivity).
  repeat (split; [assumption|]).
  destruct (otm_sweep_agrees_with_get quiet_host otm_posted "q" "10.0.0.1"
              (mkOtmEntry "A" 0) now now He Hrl) as ((_ & Hkept) & _).
  exact (Hkept Hget).
Defined.

Lemma file_put_take_witness :
  let evs := [SweepFile 1000; GetFile 1 1 "10.0.0.2" "z"] in
  let put := handle quiet_host (PostFileEnd 0 hello "f") (initial None) in
  let s' := run quiet_host evs (next put) in
  Forall (λ e, removes_file "f" 0 e = false) evs
  ∧ (RateLimit.checkFileRateLimit 5 "10.0.0.1" "download" (fileRateBuckets s')).1 = true
  ∧ response (handle quiet_host (GetFile 5 86400000 "10.0.0.1" "f") s')
    = Some (mkResponse 200 (BBytes hello)).
Proof.
  intros evs put s'.
  assert (Hall : Forall (λ e, removes_file "f" 0 e = false) evs) by (repeat constructor).
  assert (Hrl : (RateLimit.checkFileRateLimit 5 "10.0.0.1" "download"
                   (fileRateBuckets s')).1 = true) by (vm_compute; reflexivity).
  repeat (split; [assumption|]).
  destruct (file_put_take quiet_host (initial None) "f" "10.0.0.1" hello 0 5 86400000 evs
              Hall Hrl) as (_ & Hget & _).
  etrans; [exact Hget|]. vm_compute. reflexivity.
Defined.

Lemma file_take_at_most_once_witness :
  let s := next (handle quiet_host (PostFileEnd 0 hello "f") (initial None)) in
  let get := GetFile 1 1 "10.0.0.1" "f" in
  let evs := [SweepFile 5; PostFileEnd 6 hello "g"] in
  let s' := run quiet_host evs (next (handle quiet_host get s)) in
  response (handle quiet_host get s) = Some (mkResponse 200 (BBytes hello))
  ∧ Forall (λ e, stores_file "f" e = false) evs
  ∧ response (handle quiet_host (GetFile 9 9 "10.0.0.2" "f") s')
    = Some (mkResponse 404 BUsed).
Proof.
  intros s get evs s'.
  assert (H200 : response (handle quiet_host get s) = Some (mkResponse 200 (BBytes hello)))
    by (vm_compute; reflexivity).
  assert (Hall : Forall (λ e, stores_file "f" e = false) evs) by (repeat constructor).
  repeat (split; [assumption|]).
  destruct (file_take_at_most_once quiet_host s "f" "10.0.0.1" "10.0.0.2" hello
              1 1 9 9 evs H200 Hall) as (_ & _ & Hlater).
  etrans; [exact Hlater|]. vm_compute. reflexivity.
Defined.

Lemma refused_get_consumes_nothing_witness :
  let busy := GetOtm 0 0 "10.0.0.1" "z" in
  let s := run quiet_host (replicate 60 busy) otm_posted in
  let o := handle quiet_host (GetOtm 0 0 "10.0.0.1" "q") s in
  (RateLimit.checkRateLimit 0 "10.0.0.1" "get-otm" (rateBuckets s)).1 = false
  ∧ response o = Some (mkResponse 429 (BError "Rate limit exceeded"))
  ∧ otmStore (next o) !! "q"%string = Some (mkOtmEntry "A" 0).
Proof.
  intros busy s o.
  assert (Hrl : (RateLimit.checkRateLimit 0 "10.0.0.1" "get-otm" (rateBuckets s)).1 = false)
    by (vm_compute; reflexivity).
  split; [exact Hrl|].
  destruct (refused_get_consumes_nothing quiet_host s "q" "10.0.0.1" 0 0) as [Hotm _].
  pose proof (Hotm Hrl) as Ho. fold o in Ho.
  split.
  - exact (f_equal response Ho).
  - etrans; [exact (f_equal (λ x, otmStore (next x) !! "q"%string) Ho)|].
    vm_compute. reflexivity.
Defined.

Lemma invite_create_witness :
  let b := mkInviteBody (Some "inv1"%string) (Some "K9"%string) ExpAbsent in
  let request := handle quiet_host (ChatInviteBegin 290 "10.0.0.1") invite_posted in
  let s' := run quiet_host [GetInvite 50 "inv1"] (next request) in
  let o := handle quiet_host (PostInviteEnd 300 300 (Some b)) s' in
  response request = None
  ∧ chatRateBuckets (next request) !! "10.0.0.1"%string
    = Some (RateLimit.ChatBucket 290 1 0)
  ∧ chatInviteStore s' !! "inv1"%string
    = Some (mkInviteEntry "K1" (Num 100) 0 false None)
  ∧ response o = Some (mkResponse 409 (BError "Invite ID already exists"))
  ∧ next o = s'.
Proof.
  intros b request s' o.
  assert (He : chatInviteStore s' !! "inv1"%string
               = Some (mkInviteEntry "K1" (Num 100) 0 false None))
    by (vm_compute; reflexivity).
  pose proof (invite_create quiet_host invite_posted 290 300 300 "10.0.0.1" b
                "inv1" "K9" [GetInvite 50 "inv1"]
                eq_refl ltac:(discriminate) eq_refl ltac:(discriminate)) as H.
  cbv zeta in H. destruct H as (Hreq & Hnext & H).
  split; [etrans; [exact Hreq|]; vm_compute; reflexivity|].
  split; [etrans; [exact (f_equal (λ x, chatRateBuckets x !! "10.0.0.1"%string) Hnext)|];
          vm_compute; reflexivity|].
  split; [exact He|].
  fold request in H. fold s' in H. rewrite He in H. exact H.
Defined.

Lemma invite_default_expiry_witness :
  let b := mkInviteBody (Some "inv4"%string) (Some "K1"%string) ExpAbsent in
  let s1 := next (handle quiet_host (PostInviteEnd 0 7 (Some b)) (initial None)) in
  expiresTruthy (ib_expiresAt b) = false
  ∧ chatInviteStore (initial None) !! "inv4"%string = None
  ∧ response (handle quiet_host (GetInvite 86400000 "inv4") s1)
    = Some (mkResponse 200 (BInviteView "inv4" "K1" false None))
  ∧ response (handle quiet_host (GetInvite 86400001 "inv4") s1)
    = Some (mkResponse 404 (BError "Invite expired")).
Proof.
  intros b s1. split; [reflexivity|]. split; [reflexivity|].
  split.
  - destruct (invite_default_expiry quiet_host (initial None) 0 7 86400000 b "inv4" "K1"
                eq_refl ltac:(discriminate) eq_refl ltac:(discriminate) eq_refl eq_refl)
      as (Hlive & _ & _).
    destruct Hlive as [Hr _]; [lia|]. exact Hr.
  - destruct (invite_default_expiry quiet_host (initial None) 0 7 86400001 b "inv4" "K1"
                eq_refl ltac:(discriminate) eq_refl ltac:(discriminate) eq_refl eq_refl)
      as (_ & Hdead & _).
    destruct Hdead as [Hr _]; [lia|]. exact Hr.
Defined.

Lemma fetch_matches_sweep_witness :
  let late := 10 + 7 * 24 * 60 * 60 * 1000 in
  let o := handle quiet_host (GetMessages late "fpB") two_pending in
  chatMessageStore two_pending !! "fpB"%string
  = Some [mkMessage "m1" "fpA" "E1" 10; mkMessage "m2" "fpA" "E1" 20]
  ∧ response o = Some (mkResponse 200 (BMessages [mkMessage "m2" "fpA" "E1" 20]))
  ∧ next o = two_pending.
Proof.
  intros late o.
  split; [vm_compute; reflexivity|].
  destruct (fetch_matches_sweep quiet_host two_pending late "fpB") as (Hr & Hs & _).
  split; [|exact Hs]. etrans; [exact Hr|]. vm_compute. reflexivity.
Defined.

Lemma mailboxes_wellformed_witness :
  let evs := [PostMessageEnd 10 (Some (message_to "fpB" "m1"));
              PostMessageEnd 20 (Some (message_to "fpB" "m2"));
              PostMessageEnd 30 (Some (message_to "fpB" "m1"));
              AckMessagesEnd (Some (mkAckBody (Some "fpB"%string) (Some ["m1"%string])))] in
  chatMessageStore (run quiet_host evs (initial None)) !! "fpB"%string
  = Some [mkMessage "m2" "fpA" "E1" 20]
  ∧ [mkMessage "m2" "fpA" "E1" 20] ≠ []
  ∧ NoDup (map m_id [mkMessage "m2" "fpA" "E1" 20]).
Proof.
  intros evs.
  assert (Hbox : chatMessageStore (run quiet_host evs (initial None)) !! "fpB"%string
                 = Some [mkMessage "m2" "fpA" "E1" 20]) by (vm_compute; reflexivity).
  split; [exact Hbox|].
  exact (mailboxes_wellformed quiet_host None evs "fpB" _ Hbox).
Defined.

Lemma enqueue_fetch_ack_witness :
  let b := message_to "fpB" "m3" in
  let s1 := next (handle quiet_host (PostMessageEnd 30 (Some b)) two_pending) in
  let ack := AckMessagesEnd (Some (mkAckBody (Some "fpB"%string)
                                     (Some ["m1"%string; "m3"%string]))) in
  let s2 := next (handle quiet_host ack s1) in
  enqueues b "fpB" "E1" "m3"
  ∧ hasMessage (chatMessageStore two_pending) "fpB" "m3" = false
  ∧ response (handle quiet_host (GetMessages 40 "fpB") s1)
    = Some (mkResponse 200
              (BMessages [mkMessage "m1" "fpA" "E1" 10; mkMessage "m2" "fpA" "E1" 20;
                          mkMessage "m3" "fpA" "E1" 30]))
  ∧ response (handle quiet_host (GetMessages 40 "fpB") s2)
    = Some (mkResponse 200 (BMessages [mkMessage "m2" "fpA" "E1" 20])).
Proof.
  intros b s1 ack s2.
  assert (Hb : enqueues b "fpB" "E1" "m3") by (apply message_to_enqueues; discriminate).
  assert (Hnew : hasMessage (chatMessageStore two_pending) "fpB" "m3" = false)
    by (vm_compute; reflexivity).
  split; [exact Hb|]. split; [exact Hnew|].
  destruct (enqueue_fetch_ack quiet_host two_pending 30 40 b "fpB" "E1" "m3"
              ["m1"%string; "m3"%string] Hb Hnew ltac:(lia)) as (H1 & H2 & _).
  split; (etrans; [eassumption|]; vm_compute; reflexivity).
Defined.

Lemma live_push_witness :
  let s := run quiet_host
             [Connection 7 (Some (mkQuery None (Some "fpB"%string)))] (initial None) in
  let o := handle quiet_host (PostMessageEnd 10 (Some (message_to "fpB" "m1"))) s in
  enqueues (message_to "fpB" "m1") "fpB" "E1" "m1"
  ∧ hasMessage (chatMessageStore s) "fpB" "m1" = false
  ∧ chatMessageStore (next o) !! "fpB"%string = Some [mkMessage "m1" "fpA" "E1" 10]
  ∧ sent o = [(7%nat, FNewMessage "m1" "fpA" "E1")].
Proof.
  intros s o.
  assert (Hb : enqueues (message_to "fpB" "m1") "fpB" "E1" "m1")
    by (apply message_to_enqueues; discriminate).
  assert (Hnew : hasMessage (chatMessageStore s) "fpB" "m1" = false)
    by (vm_compute; reflexivity).
  split; [exact Hb|]. split; [exact Hnew|].
  destruct (live_push quiet_host s 10 (message_to "fpB" "m1") "fpB" "E1" "m1" Hb Hnew)
    as (Hbox & Hsent & _).
  split; (etrans; [eassumption|]; vm_compute; reflexivity).
Defined.

Lemma chat_registration_last_wins_witness :
  let s := run quiet_host
             [Connection 7 (Some (mkQuery None (Some "fpB"%string)))] (initial None) in
  let q := mkQuery (Some "r1"%string) (Some "fpB"%string) in
  let evs := [WsClose 7; PostMessageEnd 10 (Some (message_to "fpB" "m1"))] in
  let o := handle quiet_host (Connection 8 (Some q)) s in
  let s' := run quiet_host evs (next o) in
  chatConnections s !! "fpB"%string = Some 7%nat
  ∧ sockets s !! 8%nat = None
  ∧ Forall (λ e, unregisters "fpB" 8 e = false) evs
  ∧ sent o = [(8%nat, FConnected "fpB")]
  ∧ chatConnections s' !! "fpB"%string = Some 8%nat.
Proof.
  intros s q evs o s'.
  assert (Hw : sockets s !! 8%nat = None) by (vm_compute; reflexivity).
  assert (Hall : Forall (λ e, unregisters "fpB" 8 e = false) evs) by (repeat constructor).
  split; [vm_compute; reflexivity|]. split; [exact Hw|]. split; [exact Hall|].
  destruct (chat_registration_last_wins quiet_host s 8 q "fpB" evs Hw eq_refl
              ltac:(discriminate) Hall) as (Hsent & _ & _ & _ & Hkept & _).
  split; [exact Hsent | exact Hkept].
Defined.

Lemma binary_frame_forwarded_witness :
  let s := run r1_host [join_r1 1; join_r1 2; join_r1 3; WsClosing 3] (initial None) in
  let o := handle r1_host (WsMessage 1 burn_r1 true) s in
  sockets s !! 1%nat = Some (mkSocket 1 (RoomSocket "r1"))
  ∧ next o = s
  ∧ sent o = [(2%nat, FBinary burn_r1)].
Proof.
  intros s o.
  assert (Hw : sockets s !! 1%nat = Some (mkSocket 1 (RoomSocket "r1")))
    by (vm_compute; reflexivity).
  split; [exact Hw|].
  destruct (binary_frame_forwarded r1_host 1 "r1" burn_r1 1 s Hw ltac:(lia))
    as (Hs & Hsent & _).
  split; [exact Hs|]. etrans; [exact Hsent|]. vm_compute. reflexivity.
Defined.

Lemma chat_frame_effects_witness :
  let s := run quiet_host
             [Connection 7 (Some (mkQuery None (Some "fpB"%string)));
              PostMessageEnd 10 (Some (message_to "fpB" "m1"))] (initial None) in
  let o := handle quiet_host (WsMessage 7 hello false) s in
  sockets s !! 7%nat = Some (mkSocket 1 (ChatSocket "fpB"))
  ∧ sent o = []
  ∧ next o = s.
Proof.
  intros s o.
  assert (Hw : sockets s !! 7%nat = Some (mkSocket 1 (ChatSocket "fpB")))
    by (vm_compute; reflexivity).
  split; [exact Hw|].
  destruct (chat_frame_effects quiet_host 7 "fpB" hello false 1 s Hw ltac:(lia))
    as (Hsent & _ & _ & _ & _ & Hsame).
  split; [exact Hsent|]. apply Hsame.
  intros fields items Hp _ _. vm_compute in Hp. discriminate.
Defined.

Lemma join_presence_witness :
  let s := run r1_host [join_r1 1; join_r1 2; WsClosing 2] (initial None) in
  let o := handle r1_host (join_r1 3) s in
  sockets s !! 3%nat = None
  ∧ ("r1"%string ∉ burnedRooms s)
  ∧ members (next o) "r1" = [1%nat; 2%nat; 3%nat]
  ∧ sent o = [(1%nat, FPresence "r1" 3); (3%nat, FPresence "r1" 3)].
Proof.
  intros s o.
  assert (Hw : sockets s !! 3%nat = None) by (vm_compute; reflexivity).
  assert (Hnb : "r1"%string ∉ burnedRooms s).
  { intros Hin. vm_compute in Hin. discriminate. }
  split; [exact Hw|]. split; [exact Hnb|].
  destruct (join_presence r1_host None [join_r1 1; join_r1 2; WsClosing 2] 3
              (mkQuery (Some "r1"%string) None) "r1" Hw eq_refl ltac:(discriminate)
              eq_refl Hnb) as (Hmem & Hsent & _).
  split; (etrans; [eassumption|]; vm_compute; reflexivity).
Defined.

Lemma leave_presence_witness :
  let s := run r1_host [join_r1 1; join_r1 2] (initial None) in
  let o := handle r1_host (WsClose 2) s in
  let last := handle r1_host (WsClose 1) (next o) in
  sockets s !! 2%nat = Some (mkSocket 1 (RoomSocket "r1"))
  ∧ ("r1"%string ∉ burnedRooms s)
  ∧ members (next o) "r1" = [1%nat]
  ∧ sent o = [(1%nat, FPresence "r1" 1)]
  ∧ timers (next o) = timers s.
Proof.
  intros s o last.
  assert (Hw : sockets s !! 2%nat = Some (mkSocket 1 (RoomSocket "r1")))
    by (vm_compute; reflexivity).
  assert (Hnb : "r1"%string ∉ burnedRooms s).
  { intros Hin. vm_compute in Hin. discriminate. }
  split; [exact Hw|]. split; [exact Hnb|].
  destruct (leave_presence r1_host None [join_r1 1; join_r1 2] 2 1 "r1" Hw ltac:(lia) Hnb)
    as (_ & _ & Hmem & _ & Hsent & Htimers & _).
  split; [etrans; [exact Hmem|]; vm_compute; reflexivity|].
  split; [etrans; [exact Hsent|]; vm_compute; reflexivity|].
  etrans; [exact Htimers|]. vm_compute. reflexivity.
Defined.

Lemma timer_removes_only_empty_rooms_witness :
  let s := run r1_host [join_r1 1; WsClose 1] (initial None) in
  timers s !! 0%nat = Some "r1"%string
  ∧ is_Some (rooms s !! "r1"%string)
  ∧ rooms (next (handle r1_host (TimerFired 0) s)) !! "r1"%string = None.
Proof.
  intros s.
  assert (Hh : timers s !! 0%nat = Some "r1"%string) by (vm_compute; reflexivity).
  split; [exact Hh|].
  destruct (timer_removes_only_empty_rooms r1_host None [join_r1 1; WsClose 1] 0)
    as (Hfire & _ & _).
  destruct (Hfire "r1"%string Hh) as (Hreg & _ & Hrooms & _).
  split; [exact Hreg|].
  etrans; [exact (f_equal (λ m, m !! "r1"%string) Hrooms)|]. apply lookup_delete_eq.
Defined.

Lemma room_registry_invariant_witness :
  let s := run r1_host [join_r1 1; join_r1 2; WsClosing 2] (initial None) in
  rooms s !! "r1"%string = Some (mkRoom [1%nat; 2%nat] None)
  ∧ ("r1"%string ∉ burnedRooms s)
  ∧ NoDup [1%nat; 2%nat]
  ∧ ∃ st, sockets s !! 2%nat = Some (mkSocket st (RoomSocket "r1")) ∧ st ≠ 3.
Proof.
  intros s.
  assert (Hroom : rooms s !! "r1"%string = Some (mkRoom [1%nat; 2%nat] None))
    by (vm_compute; reflexivity).
  split; [exact Hroom|].
  destruct (room_registry_invariant r1_host None [join_r1 1; join_r1 2; WsClosing 2]
              "r1" (mkRoom [1%nat; 2%nat] None) Hroom) as (Hnb & Hnd & _ & Hmem).
  split; [exact Hnb|]. split; [exact Hnd|].
  apply (Hmem 2%nat). cbn [clients]. repeat constructor.
Defined.

Lemma rate_buckets_never_removed_witness :
  let s := next (handle quiet_host (GetOtm 0 0 "10.0.0.1" "q") otm_posted) in
  let evs := [SweepOtm 3600000; SweepFile 3600000; SweepInvites 3600000;
              SweepMessages 3600000; GetOtm 3600000 3600000 "10.0.0.2" "q"] in
  is_Some (rateBuckets s !! "10.0.0.1"%string)
  ∧ is_Some (rateBuckets (run quiet_host evs s) !! "10.0.0.1"%string).
Proof.
  intros s evs.
  assert (Hb : is_Some (rateBuckets s !! "10.0.0.1"%string)).
  { vm_compute. eexists. reflexivity. }
  split; [exact Hb|].
  destruct (rate_buckets_never_removed quiet_host evs s "10.0.0.1") as (Hkept & _ & _).
  exact (Hkept Hb).
Defined.

Lemma getClientIp_forwarded_witness :
  all_space " " = true
  ∧ has_comma "203.0.113.9" = false
  ∧ comma_led ", 10.0.0.1" = true
  ∧ getClientIp (mkRequest (Some " 203.0.113.9 , 10.0.0.1"%string) (Some "10.0.0.1"%string))
    = "203.0.113.9"%string.
Proof.
  split; [vm_compute; reflexivity|]. split; [vm_compute; reflexivity|].
  split; [vm_compute; reflexivity|].
  exact (getClientIp_forwarded " " "203.0.113.9" " " ", 10.0.0.1" (Some "10.0.0.1"%string)
           ltac:(vm_compute; reflexivity) ltac:(vm_compute; reflexivity)
           ltac:(vm_compute; reflexivity) ltac:(vm_compute; reflexivity)
           ltac:(vm_compute; reflexivity) ltac:(vm_compute; reflexivity)
           ltac:(vm_compute; lia)).
Defined.

Lemma forwarded_address_keys_bucket_witness :
  let req := mkRequest (Some "203.0.113.9, 10.0.0.1"%string) (Some "10.0.0.1"%string) in
  let busy := GetOtm 0 0 "10.0.0.1" "z" in
  let s := run quiet_host (replicate 60 busy) otm_posted in
  getClientIp req = "203.0.113.9"%string
  ∧ (RateLimit.checkRateLimit 0 "10.0.0.1" "get-otm" (rateBuckets s)).1 = false
  ∧ rateBuckets s !! "203.0.113.9"%string = None
  ∧ (RateLimit.checkRateLimit 0 (getClientIp req) "get-otm" (rateBuckets s)).1 = true.
Proof.
  intros req busy s.
  assert (Hip : getClientIp req = "203.0.113.9"%string) by (vm_compute; reflexivity).
  assert (H1 : rateBuckets s !! "203.0.113.9"%string = None) by (vm_compute; reflexivity).
  split; [exact Hip|]. split; [vm_compute; reflexivity|]. split; [exact H1|].
  destruct (forwarded_address_keys_bucket req "203.0.113.9" "get-otm" 0 s Hip H1
              ltac:(vm_compute; reflexivity) ltac:(vm_compute; reflexivity))
    as (Hok & _).
  exact Hok.
Defined.
